(** * The commit-diff segmentation engine of [kernel/scripts/create_changes.py]

    A shallow embedding of the diff tokenizer, the walk-back symbol resolver,
    the hunk segmenter, the change aggregator and the group builder, with the
    properties of the specification stated and settled against it.

    Conventions of the embedding.
    - A Python [str] is a [string]; its characters are the code points below
      256, classified as Python classifies them ([str.isspace], [str.isalnum],
      and the classes [\w], [\d], [\s] of the [re] module).
    - A Python [int] is a [Z]; a list index that was produced by [range] or
      [enumerate] is a [nat].
    - A [set] of strings is a [gset string], a [dict] keyed by strings is a
      [gmap string _]; a dict whose iteration order matters is an association
      list in insertion order.
    - Objects that the program mutates after having stored a reference to them
      ([Hunk], [FileChange] and [Change] instances) live in an explicit store
      and are referred to by their address.
    - An operation that can raise returns in the monad [exc]. *)

From Stdlib Require Import ZArith Lia Ascii String List Bool QArith Permutation.
From stdpp Require Import base gmap sets list strings sorting.

Local Open Scope Z_scope.
Local Open Scope nat_scope.
Local Open Scope list_scope.
Local Open Scope stdpp_scope.

(** ** Python string operations *)

Module PyStr.

Definition code (c : ascii) : nat := nat_of_ascii c.

Definition in_range (lo hi : nat) (c : ascii) : bool :=
  (lo <=? code c) && (code c <=? hi).

(** [str.isspace] on the code points below 256. *)
Definition isspace (c : ascii) : bool :=
  in_range 9 13 c || in_range 28 32 c || (code c =? 133) || (code c =? 160).

Definition is_ascii_digit (c : ascii) : bool := in_range 48 57 c.

Definition is_ascii_alpha (c : ascii) : bool :=
  in_range 65 90 c || in_range 97 122 c.

(** [str.isalnum] on the code points below 256: the ASCII letters and digits,
    the Latin-1 letters, and the Latin-1 characters with a numeric value. *)
Definition isalnum (c : ascii) : bool :=
  is_ascii_alpha c || is_ascii_digit c
  || (code c =? 170) || (code c =? 178) || (code c =? 179) || (code c =? 181)
  || (code c =? 185) || (code c =? 186) || in_range 188 190 c
  || in_range 192 214 c || in_range 216 246 c || in_range 248 255 c.

(** [str.isalpha] on the code points below 256. *)
Definition isalpha (c : ascii) : bool :=
  is_ascii_alpha c
  || (code c =? 170) || (code c =? 181) || (code c =? 186)
  || in_range 192 214 c || in_range 216 246 c || in_range 248 255 c.

Definition is_empty (s : string) : bool :=
  match s with EmptyString => true | String _ _ => false end.

(** [s.startswith(p)] *)
Fixpoint starts (p s : string) : bool :=
  match p with
  | EmptyString => true
  | String c p' =>
      match s with
      | String d s' => Ascii.eqb c d && starts p' s'
      | EmptyString => false
      end
  end.

Definition startswith (s p : string) : bool := starts p s.

(** [s[n:]] and [s[:n]] for a non-negative [n] *)
Fixpoint slice_from (n : nat) (s : string) : string :=
  match n, s with
  | S k, String _ s' => slice_from k s'
  | _, _ => s
  end.

Fixpoint slice_to (n : nat) (s : string) : string :=
  match n, s with
  | S k, String c s' => String c (slice_to k s')
  | _, _ => EmptyString
  end.

(** [s[:-n]] for a positive [n] *)
Definition drop_last (n : nat) (s : string) : string :=
  slice_to (String.length s - n) s.

(** [s.endswith(p)] *)
Definition endswith (s p : string) : bool :=
  (String.length p <=? String.length s)
  && String.eqb (slice_from (String.length s - String.length p) s) p.

(** [sub in s] *)
Fixpoint contains (sub s : string) : bool :=
  starts sub s
  || match s with
     | EmptyString => false
     | String _ s' => contains sub s'
     end.

(** [s.find(sub)], [-1] when [sub] does not occur *)
Fixpoint find_from (i : nat) (sub s : string) : Z :=
  if starts sub s then Z.of_nat i
  else match s with
       | EmptyString => (-1)%Z
       | String _ s' => find_from (S i) sub s'
       end.

Definition find (s sub : string) : Z := find_from 0 sub s.

(** [s.lstrip()], [s.rstrip()], [s.strip()] *)
Fixpoint lstrip (s : string) : string :=
  match s with
  | String c s' => if isspace c then lstrip s' else s
  | EmptyString => EmptyString
  end.

Fixpoint rstrip (s : string) : string :=
  match s with
  | EmptyString => EmptyString
  | String c s' =>
      let r := rstrip s' in
      if is_empty r && isspace c then EmptyString else String c r
  end.

Definition strip (s : string) : string := rstrip (lstrip s).

Fixpoint mem_char (c : ascii) (chars : string) : bool :=
  match chars with
  | EmptyString => false
  | String d chars' => Ascii.eqb c d || mem_char c chars'
  end.

(** [s.lstrip(chars)], [s.rstrip(chars)] *)
Fixpoint lstrip_chars (chars s : string) : string :=
  match s with
  | String c s' => if mem_char c chars then lstrip_chars chars s' else s
  | EmptyString => EmptyString
  end.

Fixpoint rstrip_chars (chars s : string) : string :=
  match s with
  | EmptyString => EmptyString
  | String c s' =>
      let r := rstrip_chars chars s' in
      if is_empty r && mem_char c chars then EmptyString else String c r
  end.

(** [all(p(c) for c in s)] *)
Fixpoint all_chars (p : ascii -> bool) (s : string) : bool :=
  match s with
  | EmptyString => true
  | String c s' => p c && all_chars p s'
  end.

Definition snoc (s : string) (c : ascii) : string := s +:+ String c EmptyString.

(** [s.split()] : the maximal runs of non-whitespace characters *)
Fixpoint split_ws_go (cur s : string) : list string :=
  match s with
  | EmptyString => if is_empty cur then [] else [cur]
  | String c s' =>
      if isspace c
      then (if is_empty cur then split_ws_go EmptyString s'
            else cur :: split_ws_go EmptyString s')
      else split_ws_go (snoc cur c) s'
  end.

Definition split_ws (s : string) : list string := split_ws_go EmptyString s.

(** [s.split(sep, maxsplit)] for a non-empty [sep]; [limit = None] is
    [s.split(sep)].  [skip] counts the characters of a separator that was
    recognised and is being stepped over. *)
Fixpoint split_go (sep : string) (limit : option nat) (skip : nat)
    (cur s : string) : list string :=
  match s with
  | EmptyString => [cur]
  | String c s' =>
      match skip with
      | S k => split_go sep limit k cur s'
      | O =>
          match limit with
          | Some O => [cur +:+ s]
          | _ =>
              if starts sep s
              then cur :: split_go sep (pred <$> limit)
                            (String.length sep - 1) EmptyString s'
              else split_go sep limit 0 (snoc cur c) s'
          end
      end
  end.

Definition split (s sep : string) : list string :=
  split_go sep None 0 EmptyString s.

Definition splitn (s sep : string) (maxsplit : nat) : list string :=
  split_go sep (Some maxsplit) 0 EmptyString s.

(** [sep.join(l)] *)
Fixpoint join (sep : string) (l : list string) : string :=
  match l with
  | [] => EmptyString
  | [x] => x
  | x :: l' => x +:+ sep +:+ join sep l'
  end.

(** [s in l] for a list or tuple of strings *)
Definition mem (s : string) (l : list string) : bool :=
  existsb (String.eqb s) l.

(** [s.startswith((p1, ..., pn))] *)
Definition startswith_any (s : string) (ps : list string) : bool :=
  existsb (startswith s) ps.

Definition endswith_any (s : string) (ps : list string) : bool :=
  existsb (endswith s) ps.

Definition nl : string := String (ascii_of_nat 10) EmptyString.

#[global] Arguments startswith : simpl never.
#[global] Arguments endswith : simpl never.
#[global] Arguments contains : simpl never.
#[global] Arguments find : simpl never.
#[global] Arguments strip : simpl never.
#[global] Arguments split : simpl never.
#[global] Arguments split_ws : simpl never.
#[global] Arguments mem : simpl never.
#[global] Arguments startswith_any : simpl never.
#[global] Arguments endswith_any : simpl never.

End PyStr.

Import PyStr.


(** ** The fragment of Python's [re] module that the program uses

    A backtracking matcher in continuation-passing style: alternatives are
    tried left to right, quantifiers are greedy, and a capturing group keeps
    the text of its last successful iteration, as in [re].  The matcher walks
    a position made of the character before the cursor (for [^] and [\b]) and
    the text after it. *)

Module Re.

Record pos := Pos { prev : option ascii; rest : string }.

Inductive re :=
| Eps
| Cls (p : ascii -> bool)
| Seq (r1 r2 : re)
| Alt (r1 r2 : re)
| Star (r : re)
| Grp (n : nat) (r : re)
| Bol
| Eol
| Wordb.

Definition caps := list (nat * string).

Fixpoint group (n : nat) (c : caps) : option string :=
  match c with
  | [] => None
  | (k, s) :: c' => if k =? n then Some s else group n c'
  end.

(** [\w], [\d], [\s] and [.] for [str] patterns *)
Definition word (c : ascii) : bool := isalnum c || Ascii.eqb c "_".
Definition digit (c : ascii) : bool := is_ascii_digit c.
Definition space (c : ascii) : bool := isspace c.
Definition dot (c : ascii) : bool := negb (Ascii.eqb c (ascii_of_nat 10)).
Definition chr (c : ascii) : re := Cls (Ascii.eqb c).
Definition notchr (c : ascii) : re := Cls (fun d => negb (Ascii.eqb c d)).

Fixpoint lit (s : string) : re :=
  match s with
  | EmptyString => Eps
  | String c s' => Seq (chr c) (lit s')
  end.

Definition plus (r : re) : re := Seq r (Star r).
Definition opt (r : re) : re := Alt r Eps.

Definition word_at (o : option ascii) : bool :=
  match o with Some c => word c | None => false end.

Definition next (p : pos) : option ascii :=
  match rest p with String c _ => Some c | EmptyString => None end.

Definition consumed (p p' : pos) : string :=
  slice_to (String.length (rest p) - String.length (rest p')) (rest p).

Record result := Match { groups : caps; stop : pos }.

(** [run r p c k] matches [r] at [p] and hands the position reached to the
    continuation [k]; [None] makes the caller backtrack.  An iteration of a
    starred pattern has to consume a character, which every starred pattern
    of the program does, so the text left bounds the number of iterations. *)
Fixpoint run (r : re) (p : pos) (c : caps)
    (k : pos -> caps -> option result) {struct r} : option result :=
  match r with
  | Eps => k p c
  | Cls f =>
      match rest p with
      | String a s' => if f a then k (Pos (Some a) s') c else None
      | EmptyString => None
      end
  | Seq r1 r2 => run r1 p c (fun p' c' => run r2 p' c' k)
  | Alt r1 r2 =>
      match run r1 p c k with
      | Some x => Some x
      | None => run r2 p c k
      end
  | Star r' =>
      (fix star (n : nat) (p : pos) (c : caps) {struct n} : option result :=
         match n with
         | O => k p c
         | S n' =>
             match run r' p c
                     (fun p' c' =>
                        if String.length (rest p') <? String.length (rest p)
                        then star n' p' c' else None) with
             | Some x => Some x
             | None => k p c
             end
         end) (String.length (rest p)) p c
  | Grp n r' => run r' p c (fun p' c' => k p' ((n, consumed p p') :: c'))
  | Bol => match prev p with None => k p c | Some _ => None end
  | Eol =>
      if is_empty (rest p) || String.eqb (rest p) nl then k p c else None
  | Wordb =>
      if xorb (word_at (prev p)) (word_at (next p)) then k p c else None
  end.

Definition accept (p : pos) (c : caps) : option result := Some (Match c p).

(** [re.match(r, s)] *)
Definition match_ (r : re) (s : string) : option result :=
  run r (Pos None s) [] accept.

(** [re.search(r, s)], started at an arbitrary position *)
Fixpoint search_at (r : re) (o : option ascii) (s : string) : option result :=
  match run r (Pos o s) [] accept with
  | Some x => Some x
  | None =>
      match s with
      | EmptyString => None
      | String a s' => search_at r (Some a) s'
      end
  end.

Definition search (r : re) (s : string) : option result :=
  search_at r None s.

(** [re.finditer(r, s)]: the successive non-overlapping matches *)
Fixpoint finditer_go (n : nat) (r : re) (o : option ascii) (s : string)
  : list result :=
  match n with
  | O => []
  | S n' =>
      match search_at r o s with
      | None => []
      | Some x =>
          x :: (if String.length (rest (stop x)) <? String.length s
                then finditer_go n' r (prev (stop x)) (rest (stop x))
                else match rest (stop x) with
                     | EmptyString => []
                     | String a s' => finditer_go n' r (Some a) s'
                     end)
      end
  end.

Definition finditer (r : re) (s : string) : list result :=
  finditer_go (S (String.length s)) r None s.

End Re.

Import Re.

(** ** Exceptions and containers *)

Inductive pyerr := IndexError | KeyError | ValueError.

Inductive exc (A : Type) :=
| Ok (a : A)
| Raise (e : pyerr).
Arguments Ok {A} a.
Arguments Raise {A} e.

#[global] Instance exc_ret : MRet exc := fun A a => Ok a.
#[global] Instance exc_bind : MBind exc := fun A B f m =>
  match m with
  | Ok a => f a
  | Raise e => Raise e
  end.
#[global] Instance exc_fmap : FMap exc := fun A B f m =>
  match m with
  | Ok a => Ok (f a)
  | Raise e => Raise e
  end.

(** [l[i]] for a list, with Python's negative indices *)
Definition py_index {A} (l : list A) (i : Z) : exc A :=
  let n := Z.of_nat (length l) in
  let j := (if i <? 0 then i + n else i)%Z in
  if ((0 <=? j) && (j <? n))%Z
  then match l !! Z.to_nat j with
       | Some x => Ok x
       | None => Raise IndexError
       end
  else Raise IndexError.

(** [s[0]] for a string *)
Definition str_head (s : string) : exc ascii :=
  match s with
  | String c _ => Ok c
  | EmptyString => Raise IndexError
  end.

(** [s.isspace()]: false on the empty string *)
Definition str_isspace (s : string) : bool :=
  negb (is_empty s) && all_chars isspace s.

(** [s.replace(old, new)] for a non-empty [old] *)
Definition replace (s old new : string) : string := join new (split s old).

(** [range(start, stop)] and [range(start, stop, -1)] *)
Definition range (start stop : Z) : list Z :=
  map (fun k => (start + Z.of_nat k)%Z) (seq 0 (Z.to_nat (stop - start))).

Definition range_down (start stop : Z) : list Z :=
  map (fun k => (start - Z.of_nat k)%Z) (seq 0 (Z.to_nat (start - stop))).

Definition len {A} (l : list A) : Z := Z.of_nat (length l).

(** [sorted(s)] for a set of strings: ascending code-point order *)
Definition sorted (s : gset string) : list string :=
  merge_sort String.le (elements s).

(** ** Symbol resolver: the walk-back algorithm *)

(** C keywords that should not be treated as function names *)
Definition C_KEYWORDS : gset string :=
  list_to_set
    [ "if"; "else"; "for"; "while"; "do"; "switch"; "case"; "default";
      "return"; "break"; "continue"; "goto"; "sizeof"; "typeof";
      "int"; "char"; "float"; "double"; "void"; "long"; "short";
      "signed"; "unsigned"; "const"; "static"; "extern"; "inline";
      "struct"; "union"; "enum"; "typedef"; "auto"; "register"; "volatile";
      "__attribute__"; "__always_inline"; "noinline"; "bool"; "_Bool" ].

Definition is_ident_char (c : ascii) : bool := isalnum c || Ascii.eqb c "_".

(** The tail shared by the name extractors:
    [tokens = before_paren.split()], then [tokens[-1].lstrip(chars)] checked
    to be a non-empty run of identifier characters. *)
Definition last_token_name (chars before_paren : string) : option string :=
  match last (split_ws before_paren) with
  | Some tok =>
      let name := lstrip_chars chars tok in
      if negb (is_empty name) && all_chars is_ident_char name
      then Some name else None
  | None => None
  end.

Definition is_false_positive_python (line : string) : exc bool :=
  let trimmed := strip line in
  if is_empty line then mret false
  else
    c ← str_head line;
    if isspace c then mret false
    else if endswith trimmed ":" then
      if startswith trimmed "case " || startswith trimmed "default:"
      then mret true
      else if mem trimmed ["public:"; "private:"; "protected:"] then mret true
      else
        let label := rstrip_chars ":" trimmed in
        mret (negb (is_empty label) && all_chars is_ident_char label)
    else mret false.

Definition skip_keywords : list string :=
  ["if"; "while"; "for"; "switch"; "return"; "sizeof"; "typeof"; "case"].

(** The look-ahead of [is_function_definition_python] for the opening brace
    of a signature that spans several lines; [js] is the [range] of the loop. *)
Fixpoint brace_lookahead (lines : list string) (js : list Z) : exc bool :=
  match js with
  | [] => mret false
  | j :: js' =>
      if (len lines <=? j)%Z then mret false
      else
        next_line ← py_index lines j;
        let next_stripped := strip next_line in
        if contains "{" next_line then mret true
        else if is_empty next_stripped then brace_lookahead lines js'
        else
          let is_continuation :=
            str_isspace (slice_to 1 next_line)
            || endswith next_stripped ","
            || endswith next_stripped "("
            || endswith next_stripped ")" in
          if is_continuation then brace_lookahead lines js' else mret false
  end.

Definition is_function_definition_python
    (line : string) (lines : list string) (line_idx : Z) : exc bool :=
  let stripped := lstrip line in
  if negb (is_empty line) && (1 <? String.length line - String.length stripped)
  then mret false
  else
    let trimmed := strip line in
    if negb (contains "(" trimmed) then mret false
    else if startswith trimmed "#" || startswith trimmed "//"
            || startswith trimmed "/*" then mret false
    else if existsb (fun kw => startswith trimmed (kw +:+ "(")
                               || startswith trimmed (kw +:+ " ("))
              skip_keywords then mret false
    else if contains "{" trimmed then mret true
    else brace_lookahead lines
           (range (line_idx + 1) (Z.min (len lines) (line_idx + 20))).

Definition type_keywords : list string :=
  ["struct "; "union "; "enum ";
   "typedef struct "; "typedef union "; "typedef enum "].

Definition is_type_definition_python (line : string) : bool :=
  let trimmed := strip line in
  if negb (startswith_any trimmed type_keywords) then false
  else contains "{" trimmed.

(** The body of the backward loop of [find_symbol_for_line_python] over the
    indices [idxs] of its [range]. *)
Fixpoint walk_back (lines : list string) (idxs : list Z)
  : exc (option string) :=
  match idxs with
  | [] => mret None
  | i :: idxs' =>
      if ((i <? 0) || (len lines <=? i))%Z then walk_back lines idxs'
      else
        line ← py_index lines i;
        let trimmed := strip line in
        if is_empty trimmed || startswith trimmed "//"
           || startswith trimmed "/*"
        then walk_back lines idxs'
        else
          fp ← is_false_positive_python line;
          if (fp : bool) then walk_back lines idxs'
          else
            fd ← is_function_definition_python line lines i;
            if (fd : bool) then mret (Some trimmed)
            else if is_type_definition_python line then mret (Some trimmed)
            else if startswith trimmed "#define " then mret (Some trimmed)
            else if is_empty line then walk_back lines idxs'
            else
              c ← str_head line;
              if isspace c then walk_back lines idxs'
              else walk_back lines idxs'
  end.

Definition find_symbol_for_line_python (lines : list string) (line_idx : Z)
  : exc (option string) :=
  if (len lines <=? line_idx)%Z then mret None
  else
    current_line ← (if (line_idx <? len lines)%Z
                    then strip <$> py_index lines line_idx
                    else mret EmptyString);
    if startswith current_line "typedef " && endswith current_line ";"
    then mret (Some current_line)
    else if startswith current_line "#define " then mret (Some current_line)
    else walk_back lines
           (range_down line_idx (Z.max (-1) (line_idx - 51))).

(** [if x:] for an optional string: [None] and the empty string are false *)
Definition truthy (o : option string) : option string :=
  match o with
  | Some s => if is_empty s then None else Some s
  | None => None
  end.

(** [paren_pos = s.find("("); if paren_pos > 0: ... s[:paren_pos].split()] *)
Definition name_before_paren (chars s : string) : option string :=
  let paren_pos := find s "(" in
  if (0 <? paren_pos)%Z
  then last_token_name chars (slice_to (Z.to_nat paren_pos) s)
  else None.

(** The pattern "(\w+)" *)
Definition P_word : re := Grp 1 (plus (Cls word)).

Definition type_prefixes : list string :=
  ["typedef struct "; "typedef union "; "typedef enum ";
   "struct "; "union "; "enum "].

Definition extract_symbol_name_from_declaration_python (decl_line : string)
  : option string :=
  let trimmed := strip decl_line in
  if startswith trimmed "#define " then
    let after_define := strip (slice_from 8 trimmed) in
    match match_ P_word after_define with
    | Some m => (fun g => "#" +:+ g) <$> group 1 (groups m)
    | None => None
    end
  else
    match List.find (startswith trimmed) type_prefixes with
    | Some prefix =>
        let has_paren := contains "(" trimmed in
        let has_brace := contains "{" trimmed in
        let as_function :=
          (fun name => name +:+ "()") <$> name_before_paren "*&" trimmed in
        let as_type :=
          let after_kw := strip (slice_from (String.length prefix) trimmed) in
          match match_ P_word after_kw with
          | Some m =>
              let kw := strip (replace prefix "typedef " "") in
              (fun g => kw +:+ " " +:+ g) <$> group 1 (groups m)
          | None => None
          end in
        if has_paren then
          if negb has_brace then as_function
          else if (find trimmed "(" <? find trimmed "{")%Z then as_function
          else as_type
        else as_type
    | None =>
        if startswith trimmed "typedef " && endswith trimmed ";" then
          let without_semi := strip (drop_last 1 trimmed) in
          (fun tok => "typedef " +:+ tok) <$> last (split_ws without_semi)
        else (fun name => name +:+ "()") <$> name_before_paren "*&" trimmed
    end.

Definition extract_function_name_from_symbol_python (symbol : string)
  : option string :=
  let trimmed := strip symbol in
  if endswith trimmed "()" then Some (drop_last 2 trimmed)
  else name_before_paren "*&" trimmed.

Definition extract_function_from_hunk_header (hunk_header : string)
  : option string :=
  if negb (startswith hunk_header "@@") then None
  else
    match splitn hunk_header "@@" 2 with
    | _ :: _ :: part2 :: _ =>
        let function_context := strip part2 in
        if is_empty function_context then None
        else
          match name_before_paren "*" function_context with
          | Some name =>
              if bool_decide (name ∈ C_KEYWORDS) then None else Some name
          | None => None
          end
    | _ => None
    end.

(** The pattern of [extract_function_calls_python], in two pieces:
    "\b([a-zA-Z_][a-zA-Z0-9_]*" ")\s*\(" *)
Definition P_call : re :=
  Seq Wordb
    (Seq (Grp 1 (Seq (Cls (fun c => is_ascii_alpha c || Ascii.eqb c "_"))
                     (Star (Cls (fun c => is_ascii_alpha c || is_ascii_digit c
                                          || Ascii.eqb c "_")))))
         (Seq (Star (Cls space)) (chr "("))).

Definition extract_function_calls_python (line : string) : gset string :=
  let line := strip line in
  if is_empty line || startswith line "//" || startswith line "/*"
     || startswith line "#"
  then ∅
  else
    foldl (fun calls m =>
             match group 1 (groups m) with
             | Some name =>
                 if bool_decide (name ∈ C_KEYWORDS) then calls
                 else calls ∪ {[ name ]}
             | None => calls
             end)
      ∅ (finditer P_call line).

(** The loop of [extract_symbols_by_walkback_python] over the modified line
    numbers; the symbols are collected in a set, so the order in which the
    set [modified_lines] is traversed does not show in the result. *)
Fixpoint walkback_symbols (lines : list string) (modified : list Z)
    (symbols : gset string) : exc (gset string) :=
  match modified with
  | [] => mret symbols
  | modified_line :: modified' =>
      decl_line ← find_symbol_for_line_python lines modified_line;
      match truthy decl_line with
      | Some decl =>
          match truthy (extract_symbol_name_from_declaration_python decl) with
          | Some symbol_name =>
              walkback_symbols lines modified' (symbols ∪ {[ symbol_name ]})
          | None => walkback_symbols lines modified' symbols
          end
      | None => walkback_symbols lines modified' symbols
      end
  end.

Definition extract_symbols_by_walkback_python
    (lines : list string) (modified_lines : gset Z) : exc (gset string) :=
  walkback_symbols lines (elements modified_lines) ∅.

(** Result of parsing a unified diff for modified symbols. *)
Record DiffParseResult := {
  modified_functions : gset string;
  called_functions : gset string;
  modified_types : gset string;
  modified_macros : gset string;
  function_calls : gmap string (gset string)   (* per-function calls *)
}.

Definition empty_result : DiffParseResult :=
  {| modified_functions := ∅; called_functions := ∅; modified_types := ∅;
     modified_macros := ∅; function_calls := ∅ |}.

(** [if k not in d: d[k] = set()] followed by [d[k].update(s)] *)
Definition calls_update (d : gmap string (gset string)) (k : string)
    (s : gset string) : gmap string (gset string) :=
  <[k := default ∅ (d !! k) ∪ s]> d.

(** [d[k] = v] for a dict kept in insertion order *)
Fixpoint dict_set {V} (d : list (Z * V)) (k : Z) (v : V) : list (Z * V) :=
  match d with
  | [] => [(k, v)]
  | (k', v') :: d' =>
      if (k' =? k)%Z then (k, v) :: d' else (k', v') :: dict_set d' k v
  end.

(** The local variables of the content loop of [parse_hunk_python]. *)
Record hunk_scan := {
  hunk_lines : list string;            (* reconstructed code: context + added *)
  modified_line_indices : gset Z;
  line_to_calls : list (Z * gset string);
  current_line : Z;
  scan_called : gset string            (* [result.called_functions] *)
}.

Definition scan_line (st : hunk_scan) (line : string) : hunk_scan :=
  if startswith line "+" && negb (startswith line "+++") then
    let content := slice_from 1 line in
    let line_calls := extract_function_calls_python content in
    {| hunk_lines := hunk_lines st ++ [content];
       modified_line_indices := modified_line_indices st ∪ {[ current_line st ]};
       line_to_calls :=
         (if bool_decide (line_calls = ∅) then line_to_calls st
          else dict_set (line_to_calls st) (current_line st) line_calls);
       current_line := (current_line st + 1)%Z;
       scan_called := scan_called st ∪ line_calls |}
  else if startswith line "-" && negb (startswith line "---") then
    let content := slice_from 1 line in
    {| hunk_lines := hunk_lines st;
       modified_line_indices := modified_line_indices st ∪ {[ current_line st ]};
       line_to_calls := line_to_calls st;
       current_line := current_line st;
       scan_called := scan_called st ∪ extract_function_calls_python content |}
  else if startswith line " " || is_empty line then
    {| hunk_lines :=
         hunk_lines st
         ++ [if startswith line " " then slice_from 1 line else EmptyString];
       modified_line_indices := modified_line_indices st;
       line_to_calls := line_to_calls st;
       current_line := (current_line st + 1)%Z;
       scan_called := scan_called st |}
  else st.

(** The content loop: it stops at the next hunk or file header. *)
Fixpoint scan_hunk (st : hunk_scan) (body : list string) : hunk_scan :=
  match body with
  | [] => st
  | line :: body' =>
      if startswith line "@@" || startswith line "---" || startswith line "+++"
      then st
      else scan_hunk (scan_line st line) body'
  end.

(** [for symbol in symbols]: file each symbol under its kind. *)
Definition classify_symbol (result : DiffParseResult) (symbol : string)
  : DiffParseResult :=
  if startswith symbol "#" then
    {| modified_functions := modified_functions result;
       called_functions := called_functions result;
       modified_types := modified_types result;
       modified_macros := modified_macros result ∪ {[ slice_from 1 symbol ]};
       function_calls := function_calls result |}
  else if endswith symbol "()" then
    {| modified_functions := modified_functions result ∪ {[ drop_last 2 symbol ]};
       called_functions := called_functions result;
       modified_types := modified_types result;
       modified_macros := modified_macros result;
       function_calls := function_calls result |}
  else if startswith_any symbol ["struct "; "union "; "enum "; "typedef "] then
    {| modified_functions := modified_functions result;
       called_functions := called_functions result;
       modified_types := modified_types result ∪ {[ symbol ]};
       modified_macros := modified_macros result;
       function_calls := function_calls result |}
  else result.

(** [{c for c in calls if c != name}], stored under [name] when not empty *)
Definition attribute_to (fc : gmap string (gset string)) (name : string)
    (calls : gset string) : gmap string (gset string) :=
  let filtered_calls := calls ∖ {[ name ]} in
  if bool_decide (filtered_calls = ∅) then fc
  else calls_update fc name filtered_calls.

(** One iteration of the loop that attributes the calls of a line to the
    function found by walking back from that line. *)
Definition attribute_calls (hunk_lines : list string)
    (header_func_name : option string) (fc : gmap string (gset string))
    (line_idx : Z) (calls : gset string) : exc (gmap string (gset string)) :=
  containing_func ← find_symbol_for_line_python hunk_lines line_idx;
  match truthy containing_func with
  | Some sym =>
      match truthy (extract_function_name_from_symbol_python sym) with
      | Some func_name => mret (attribute_to fc func_name calls)
      | None => mret fc
      end
  | None =>
      match truthy header_func_name with
      | Some h => mret (attribute_to fc h calls)   (* fall back to the header *)
      | None => mret fc
      end
  end.

Fixpoint attribute_all (hunk_lines : list string)
    (header_func_name : option string) (fc : gmap string (gset string))
    (items : list (Z * gset string)) : exc (gmap string (gset string)) :=
  match items with
  | [] => mret fc
  | (line_idx, calls) :: items' =>
      fc' ← attribute_calls hunk_lines header_func_name fc line_idx calls;
      attribute_all hunk_lines header_func_name fc' items'
  end.

(** [parse_hunk_python] on the hunk whose header is [hunk_header] and whose
    following lines are [body]. *)
Definition parse_hunk (hunk_header : string) (body : list string)
  : exc DiffParseResult :=
  let header_func_name := extract_function_from_hunk_header hunk_header in
  let funcs0 : gset string :=
    match truthy header_func_name with
    | Some h => {[ h ]}
    | None => ∅
    end in
  let st := scan_hunk {| hunk_lines := []; modified_line_indices := ∅;
                         line_to_calls := []; current_line := 0;
                         scan_called := ∅ |} body in
  let result := {| modified_functions := funcs0;
                   called_functions := scan_called st;
                   modified_types := ∅; modified_macros := ∅;
                   function_calls := ∅ |} in
  match hunk_lines st with
  | [] => mret result
  | _ :: _ =>
      symbols ← extract_symbols_by_walkback_python (hunk_lines st)
                  (modified_line_indices st);
      let result := foldl classify_symbol result (elements symbols) in
      fc ← attribute_all (hunk_lines st) header_func_name (function_calls result)
             (line_to_calls st);
      mret {| modified_functions := modified_functions result;
              called_functions := called_functions result;
              modified_types := modified_types result;
              modified_macros := modified_macros result;
              function_calls := fc |}
  end.

(** [parse_hunk_python(lines, hunk_start)]: only the lines from [hunk_start]
    on are read. *)
Definition parse_hunk_python (lines : list string) (hunk_start : nat)
  : exc DiffParseResult :=
  hunk_header ← py_index lines (Z.of_nat hunk_start);
  parse_hunk hunk_header (drop (S hunk_start) lines).

(** The merge of a hunk's result into the running result of
    [parse_unified_diff_python]. *)
Definition merge_hunk_result (result hunk_result : DiffParseResult)
  : DiffParseResult :=
  {| modified_functions :=
       modified_functions result ∪ modified_functions hunk_result;
     called_functions := called_functions result ∪ called_functions hunk_result;
     modified_types := modified_types result ∪ modified_types hunk_result;
     modified_macros := modified_macros result ∪ modified_macros hunk_result;
     function_calls :=
       foldl (fun fc '(func_name, calls) => calls_update fc func_name calls)
         (function_calls result) (map_to_list (function_calls hunk_result)) |}.

Definition c_extensions : list string := [".c"; ".h"; ".cpp"; ".cc"; ".cxx"].

(** Where the index [i] of [parse_unified_diff_python] stands: in the outer
    loop, in the loop over the hunks of a C file, or in the loop that looks
    for the end of a hunk. *)
Inductive scan_mode := Outer | InFile | SkipHunk.

(** The three nested [while] loops share the index [i], which only moves
    forward: the function recurses on the lines from [i] on.  A loop that
    ends without moving [i] hands the same line to the enclosing loop. *)
Fixpoint scan_diff (mode : scan_mode) (lines : list string)
    (result : DiffParseResult) : exc DiffParseResult :=
  match lines with
  | [] => mret result
  | line :: rest =>
      let outer :=
        if startswith line "+++"
           && existsb (fun ext => contains ext line) c_extensions
        then scan_diff InFile rest result
        else scan_diff Outer rest result in
      let in_file :=
        if startswith line "@@" then
          hunk_result ← parse_hunk_python lines 0;
          scan_diff SkipHunk rest (merge_hunk_result result hunk_result)
        else if startswith line "---" || startswith line "+++" then outer
        else scan_diff InFile rest result in
      match mode with
      | Outer => outer
      | InFile => in_file
      | SkipHunk =>
          if startswith_any line ["@@"; "---"; "+++"] then in_file
          else scan_diff SkipHunk rest result
      end
  end.

Definition parse_unified_diff_python (diff_content : string)
  : exc DiffParseResult :=
  scan_diff Outer (split diff_content nl) empty_result.

(** The symbol table: what the external analyzer prints, and what
    [build_result_from_python] builds in its place. *)
Record FuncInfo := {
  fi_name : string;
  fi_types : list string;
  fi_callers : list string;
  fi_calls : list string
}.

Record DiffInfo := {
  di_modified_functions : list FuncInfo;
  di_modified_types : list string;
  di_modified_macros : list string
}.

Definition build_result_from_python (py_result : DiffParseResult) : DiffInfo :=
  {| di_modified_functions :=
       map (fun name =>
              {| fi_name := name;
                 fi_types := [];
                 fi_callers := [];
                 fi_calls :=
                   sorted (default ∅ (function_calls py_result !! name)
                           ∖ {[ name ]}) |})
         (sorted (modified_functions py_result));
     di_modified_types := sorted (modified_types py_result);
     di_modified_macros := sorted (modified_macros py_result) |}.

(** [run_semcode_diffinfo] when the analyzer is skipped or unavailable. *)
Definition run_semcode_diffinfo_fallback (diff_text : string) : exc DiffInfo :=
  build_result_from_python <$> parse_unified_diff_python diff_text.

(** ** Definition extraction from the source file *)

(** The look-ahead of [find_function_start] for the brace of a function. *)
Fixpoint function_brace_ahead (lines : list string) (i : Z) (js : list Z)
  : exc bool :=
  match js with
  | [] => mret false
  | j :: js' =>
      lj ← py_index lines j;
      if contains "{" lj then mret true
      else if (i <? j)%Z && negb (is_empty (strip lj))
              && negb (startswith (strip lj) "{") then
        lp ← py_index lines (j - 1);
        if negb (endswith (strip lp) ",") && negb (endswith (strip lp) "(")
        then mret false
        else function_brace_ahead lines i js'
      else function_brace_ahead lines i js'
  end.

(** The look-ahead of [find_function_start] for the brace of a type. *)
Fixpoint type_brace_ahead (lines : list string) (js : list Z) : exc bool :=
  match js with
  | [] => mret false
  | j :: js' =>
      lj ← py_index lines j;
      if contains "{" lj then mret true
      else if negb (is_empty (strip lj)) && negb (startswith (strip lj) "{")
      then mret false
      else type_brace_ahead lines js'
  end.

Fixpoint function_start_loop (lines : list string) (idxs : list Z)
  : exc (option Z) :=
  match idxs with
  | [] => mret None
  | i :: idxs' =>
      line ← py_index lines i;
      let stripped := strip line in
      if is_empty stripped || startswith stripped "//"
         || startswith stripped "/*"
      then function_start_loop lines idxs'
      else if startswith stripped "#" && negb (startswith stripped "#define")
      then function_start_loop lines idxs'
      else
        at_column_0 ← (if is_empty line then mret false
                       else c ← str_head line; mret (negb (isspace c)));
        if (at_column_0 : bool) then
          is_func ← (if contains "(" stripped
                     then function_brace_ahead lines i
                            (range i (Z.min (len lines) (i + 20)))
                     else mret false);
          if (is_func : bool) then mret (Some i)
          else if startswith_any stripped type_keywords then
            if contains "{" stripped then mret (Some i)
            else
              is_type ← type_brace_ahead lines
                          (range (i + 1) (Z.min (len lines) (i + 10)));
              if (is_type : bool) then mret (Some i)
              else function_start_loop lines idxs'
          else function_start_loop lines idxs'
        else function_start_loop lines idxs'
  end.

Definition find_function_start (lines : list string) (target_line : Z)
  : exc (option Z) :=
  if (len lines <=? target_line)%Z then mret None
  else function_start_loop lines
         (range_down target_line (Z.max (-1) (target_line - 100))).

(** The variables of the brace scanner of [find_function_end]. *)
Record brace_state := {
  brace_depth : Z;
  found_opening : bool;
  in_string : bool;
  in_char : bool;
  in_line_comment : bool;
  in_block_comment : bool
}.

Definition brace_init : brace_state :=
  {| brace_depth := 0; found_opening := false; in_string := false;
     in_char := false; in_line_comment := false; in_block_comment := false |}.

(** What one turn of the character loop does: go on one or two characters
    further, leave the line, or return the line as the end. *)
Inductive char_action :=
| Advance1 (st : brace_state)
| Advance2 (st : brace_state)
| BreakLine (st : brace_state)
| ReturnLine.

Definition is_chr (o : option ascii) (c : ascii) : bool :=
  match o with Some d => Ascii.eqb d c | None => false end.

Definition backslash : ascii := ascii_of_nat 92.
Definition dquote : ascii := ascii_of_nat 34.
Definition squote : ascii := ascii_of_nat 39.

(** [before] is [line[j - 1]] when [j > 0], [next_char] is [line[j + 1]]
    when it exists. *)
Definition char_step (st : brace_state) (before : option ascii) (char : ascii)
    (next_char : option ascii) : char_action :=
  if in_line_comment st then BreakLine st
  else if in_block_comment st then
    if Ascii.eqb char "*" && is_chr next_char "/"
    then Advance2 {| brace_depth := brace_depth st;
                     found_opening := found_opening st;
                     in_string := in_string st; in_char := in_char st;
                     in_line_comment := in_line_comment st;
                     in_block_comment := false |}
    else Advance1 st
  else if Ascii.eqb char "/" && is_chr next_char "/"
  then BreakLine {| brace_depth := brace_depth st;
                    found_opening := found_opening st;
                    in_string := in_string st; in_char := in_char st;
                    in_line_comment := true;
                    in_block_comment := in_block_comment st |}
  else if Ascii.eqb char "/" && is_chr next_char "*"
  then Advance2 {| brace_depth := brace_depth st;
                   found_opening := found_opening st;
                   in_string := in_string st; in_char := in_char st;
                   in_line_comment := in_line_comment st;
                   in_block_comment := true |}
  else if Ascii.eqb char dquote && negb (in_char st) then
    if is_chr before backslash then Advance1 st
    else Advance1 {| brace_depth := brace_depth st;
                     found_opening := found_opening st;
                     in_string := negb (in_string st); in_char := in_char st;
                     in_line_comment := in_line_comment st;
                     in_block_comment := in_block_comment st |}
  else if Ascii.eqb char squote && negb (in_string st) then
    if is_chr before backslash then Advance1 st
    else Advance1 {| brace_depth := brace_depth st;
                     found_opening := found_opening st;
                     in_string := in_string st; in_char := negb (in_char st);
                     in_line_comment := in_line_comment st;
                     in_block_comment := in_block_comment st |}
  else if in_string st || in_char st then Advance1 st
  else if Ascii.eqb char "{"
  then Advance1 {| brace_depth := brace_depth st + 1;
                   found_opening := true;
                   in_string := in_string st; in_char := in_char st;
                   in_line_comment := in_line_comment st;
                   in_block_comment := in_block_comment st |}
  else if Ascii.eqb char "}" then
    if found_opening st && (brace_depth st - 1 =? 0)%Z then ReturnLine
    else Advance1 {| brace_depth := brace_depth st - 1;
                     found_opening := found_opening st;
                     in_string := in_string st; in_char := in_char st;
                     in_line_comment := in_line_comment st;
                     in_block_comment := in_block_comment st |}
  else Advance1 st.

(** The [while j < len(line)] loop: [None] when the line is the end of the
    definition, otherwise the state after the line. *)
Fixpoint scan_chars (st : brace_state) (before : option ascii) (line : string)
  : option brace_state :=
  match line with
  | EmptyString => Some st
  | String char rest =>
      match char_step st before char (next (Pos None rest)) with
      | Advance1 st' => scan_chars st' (Some char) rest
      | Advance2 st' =>
          match rest with
          | String n rest' => scan_chars st' (Some n) rest'
          | EmptyString => Some st'
          end
      | BreakLine st' => Some st'
      | ReturnLine => None
      end
  end.

Definition end_of_line (st : brace_state) : brace_state :=
  {| brace_depth := brace_depth st; found_opening := found_opening st;
     in_string := in_string st; in_char := in_char st;
     in_line_comment := false;                     (* reset for next line *)
     in_block_comment := in_block_comment st |}.

Fixpoint function_end_loop (lines : list string) (st : brace_state)
    (idxs : list Z) : exc (option Z) :=
  match idxs with
  | [] => mret None
  | i :: idxs' =>
      line ← py_index lines i;
      match scan_chars st None line with
      | None => mret (Some i)
      | Some st' => function_end_loop lines (end_of_line st') idxs'
      end
  end.

Definition find_function_end (lines : list string) (start_line : Z)
  : exc (option Z) :=
  function_end_loop lines brace_init
    (range start_line (Z.min (len lines) (start_line + 2000))).

(** [lines[a:b]] for non-negative bounds *)
Definition slice {A} (l : list A) (a b : Z) : list A :=
  take (Z.to_nat b - Z.to_nat a) (drop (Z.to_nat a) l).

Definition truncation_marker : string :=
  nl +:+ "... [truncated, definition too long]" +:+ nl.

(** The file system is a parameter: [read_lines git_dir file_path] is what
    [readlines()] returns for the file, and [None] when the file does not
    exist or cannot be read. *)
Definition get_definition_for_change
    (read_lines : option string -> string -> option (list string))
    (file_path function_name : string) (hunk_new_start : Z)
    (git_dir : option string) : exc (option string) :=
  match read_lines git_dir file_path with
  | None => mret None
  | Some lines =>
      let target_line := (hunk_new_start - 1)%Z in
      if ((target_line <? 0) || (len lines <=? target_line))%Z then mret None
      else
        start_line ← find_function_start lines target_line;
        match start_line with
        | None => mret None
        | Some start_line =>
            end_line ← find_function_end lines start_line;
            match end_line with
            | None => mret None
            | Some end_line =>
                let definition_lines := slice lines start_line (end_line + 1) in
                let definition := join "" definition_lines in
                if (10000 <? Z.of_nat (String.length definition))%Z then
                  let truncated_lines := take 100 definition_lines in
                  mret (Some (join "" truncated_lines +:+ truncation_marker))
                else mret (Some definition)
            end
        end
  end.

(** ** Diff tokenizer *)

(** The per-function facts attached to hunks, segments and changes. *)
Record diffinfo := {
  modifies : option string;
  types : list string;
  calls : list string;
  callers : list string
}.

(** Represents a single diff hunk. *)
Record Hunk := {
  header : string;                     (* the @@ line *)
  old_start : Z;
  old_count : Z;
  new_start : Z;
  new_count : Z;
  function_context : string;           (* function name from @@ header *)
  lines : list string;
  hunk_diffinfo : option diffinfo
}.

(** Represents changes to a single file. *)
Record FileChange := {
  old_path : string;
  new_path : string;
  hunks : list Hunk
}.

(** The patterns of [extract_function_from_context], in the order tried:
    "(\w+)\s*\([^)]*" "\)\s*$",   "(\w+)\s*\($",
    "^(?:static\s+)?(?:\w+\s+\*?\s*" ")?(\w+)\s*\(",
    "SYSCALL_DEFINE\d+\((\w+)",   "DEFINE_\w+\((\w+)",   "^struct\s+(\w+)" *)
Definition context_patterns : list re :=
  [ Seq (Grp 1 (plus (Cls word)))
      (Seq (Star (Cls space))
         (Seq (chr "(")
            (Seq (Star (notchr ")"))
               (Seq (chr ")") (Seq (Star (Cls space)) Eol)))));
    Seq (Grp 1 (plus (Cls word)))
      (Seq (Star (Cls space)) (Seq (chr "(") Eol));
    Seq Bol
      (Seq (opt (Seq (lit "static") (plus (Cls space))))
         (Seq (opt (Seq (plus (Cls word))
                      (Seq (plus (Cls space))
                         (Seq (opt (chr "*")) (Star (Cls space))))))
            (Seq (Grp 1 (plus (Cls word)))
               (Seq (Star (Cls space)) (chr "(")))));
    Seq (lit "SYSCALL_DEFINE")
      (Seq (plus (Cls digit)) (Seq (chr "(") (Grp 1 (plus (Cls word)))));
    Seq (lit "DEFINE_")
      (Seq (plus (Cls word)) (Seq (chr "(") (Grp 1 (plus (Cls word)))));
    Seq Bol
      (Seq (lit "struct") (Seq (plus (Cls space)) (Grp 1 (plus (Cls word))))) ].

Fixpoint filter_chars (p : ascii -> bool) (s : string) : string :=
  match s with
  | EmptyString => EmptyString
  | String c s' => if p c then String c (filter_chars p s') else filter_chars p s'
  end.

Definition is_ascii_ident_char (c : ascii) : bool :=
  is_ascii_alpha c || is_ascii_digit c || Ascii.eqb c "_".

(** The first pattern of the list that is found in [s], with its group 1. *)
Fixpoint first_search (ps : list re) (s : string) : option string :=
  match ps with
  | [] => None
  | p :: ps' =>
      match search p s with
      | Some m => Some (default EmptyString (group 1 (groups m)))
      | None => first_search ps' s
      end
  end.

Definition extract_function_from_context (function_context : string) : string :=
  if is_empty function_context then "unknown"
  else
    match first_search context_patterns function_context with
    | Some name => name
    | None =>
        match last (split_ws function_context) with
        | Some w =>
            (* [re.sub] with the class of the characters that are not
               ASCII letters, digits or underscores, replaced by nothing *)
            let cleaned := filter_chars is_ascii_ident_char w in
            if is_empty cleaned then "unknown" else cleaned
        | None => "unknown"
        end
    end.

(** The number that a string of decimal digits denotes. *)
Definition digits_value (s : string) : Z :=
  (fix go (acc : Z) (s : string) : Z :=
     match s with
     | EmptyString => acc
     | String c s' => go (10 * acc + Z.of_nat (code c - 48))%Z s'
     end) 0%Z s.

(** The default of [sys.get_int_max_str_digits()]. *)
Definition MAX_STR_DIGITS : nat := 4300.

(** [int(s)] for a non-empty string of decimal digits, as the groups that
    the patterns capture with "(\d+)" are: the conversion raises
    [ValueError] when the string has more than 4300 digits, leading zeros
    included. *)
Definition int_of_digits (s : string) : exc Z :=
  if MAX_STR_DIGITS <? String.length s then Raise ValueError
  else mret (digits_value s).

(** The symbol-table entry of a function, as the dict that is attached to
    hunks and segments. *)
Definition find_func_info (di : DiffInfo) (func_name : string)
  : option diffinfo :=
  match List.find (fun fi => String.eqb (fi_name fi) func_name)
          (di_modified_functions di) with
  | Some fi =>
      Some {| modifies := Some func_name; types := fi_types fi;
              callers := fi_callers fi; calls := fi_calls fi |}
  | None => None
  end.

(** The pattern "diff --git a/(.+) b/(.+)" *)
Definition P_file : re :=
  Seq (lit "diff --git a/")
    (Seq (Grp 1 (plus (Cls dot))) (Seq (lit " b/") (Grp 2 (plus (Cls dot))))).

(** The pattern "@@ -(\d+)(?:,(\d+))? \+(\d+)(?:,(\d+))? @@ ?(.*" ")" *)
Definition P_hunk : re :=
  Seq (lit "@@ -")
    (Seq (Grp 1 (plus (Cls digit)))
       (Seq (opt (Seq (chr ",") (Grp 2 (plus (Cls digit)))))
          (Seq (lit " +")
             (Seq (Grp 3 (plus (Cls digit)))
                (Seq (opt (Seq (chr ",") (Grp 4 (plus (Cls digit)))))
                   (Seq (lit " @@")
                      (Seq (opt (chr " ")) (Grp 5 (Star (Cls dot)))))))))).

(** [int(m.group(n) or 1)] and [m.group(n)] for a group that took part *)
Definition group_int_or_1 (m : result) (n : nat) : exc Z :=
  match truthy (group n (groups m)) with
  | Some s => int_of_digits s
  | None => mret 1%Z
  end.

Definition group_str (m : result) (n : nat) : string :=
  default EmptyString (group n (groups m)).

(** The [Hunk] that a matched hunk header opens; the four conversions of
    [Hunk(...)] may raise. *)
Definition new_hunk (line : string) (m : result) (di : option DiffInfo)
  : exc Hunk :=
  let func_context := strip (group_str m 5) in
  let hunk_diffinfo :=
    match di with
    | Some di =>
        if is_empty func_context then None
        else
          let func_name := extract_function_from_context func_context in
          if negb (is_empty func_name) && negb (String.eqb func_name "unknown")
          then find_func_info di func_name
          else None
    | None => None
    end in
  old_start ← int_of_digits (group_str m 1);
  old_count ← group_int_or_1 m 2;
  new_start ← int_of_digits (group_str m 3);
  new_count ← group_int_or_1 m 4;
  mret {| header := line;
          old_start := old_start;
          old_count := old_count;
          new_start := new_start;
          new_count := new_count;
          function_context := func_context;
          lines := [];
          hunk_diffinfo := hunk_diffinfo |}.

(** A [FileChange] object while it is being filled: its hunks are references
    to [Hunk] objects. *)
Record FileObj := {
  fo_old_path : string;
  fo_new_path : string;
  fo_hunks : list nat
}.

(** The state of [parse_diff]: the two object stores (an address is an index
    in the store), the list [files] and the two cursors. *)
Record tokenizer := {
  hunk_store : list Hunk;
  file_store : list FileObj;
  files : list nat;
  current_file : option nat;
  current_hunk : option nat
}.

Definition tokenizer_init : tokenizer :=
  {| hunk_store := []; file_store := []; files := [];
     current_file := None; current_hunk := None |}.

Definition hunk_append_line (line : string) (h : Hunk) : Hunk :=
  {| header := header h; old_start := old_start h; old_count := old_count h;
     new_start := new_start h; new_count := new_count h;
     function_context := function_context h;
     lines := lines h ++ [line];
     hunk_diffinfo := hunk_diffinfo h |}.

Definition file_append_hunk (a : nat) (f : FileObj) : FileObj :=
  {| fo_old_path := fo_old_path f; fo_new_path := fo_new_path f;
     fo_hunks := fo_hunks f ++ [a] |}.

(** [if current_file and current_hunk: current_file.hunks.append(current_hunk)] *)
Definition close_hunk (st : tokenizer) : tokenizer :=
  match current_file st, current_hunk st with
  | Some f, Some h =>
      {| hunk_store := hunk_store st;
         file_store := alter (file_append_hunk h) f (file_store st);
         files := files st;
         current_file := current_file st;
         current_hunk := current_hunk st |}
  | _, _ => st
  end.

(** [if current_file: files.append(current_file)] *)
Definition close_file (st : tokenizer) : tokenizer :=
  match current_file st with
  | Some f =>
      {| hunk_store := hunk_store st; file_store := file_store st;
         files := files st ++ [f];
         current_file := current_file st;
         current_hunk := current_hunk st |}
  | None => st
  end.

Definition is_content_line (line : string) : bool :=
  startswith line "+" || startswith line "-" || startswith line " "
  || is_empty line.

(** One turn of the loop of [parse_diff]. *)
Definition tokenize_line (di : option DiffInfo) (st : tokenizer) (line : string)
  : exc tokenizer :=
  if startswith line "diff --git " then
    (* new file *)
    let st := close_file (close_hunk st) in
    match match_ P_file line with
    | Some m =>
        mret {| hunk_store := hunk_store st;
                file_store := file_store st
                              ++ [{| fo_old_path := group_str m 1;
                                     fo_new_path := group_str m 2;
                                     fo_hunks := [] |}];
                files := files st;
                current_file := Some (length (file_store st));
                current_hunk := None |}
    | None =>
        mret {| hunk_store := hunk_store st; file_store := file_store st;
                files := files st;
                current_file := current_file st;
                current_hunk := None |}
    end
  else if startswith line "@@ " then
    (* hunk header *)
    let st := close_hunk st in
    match match_ P_hunk line with
    | Some m =>
        h ← new_hunk line m di;
        mret {| hunk_store := hunk_store st ++ [h];
                file_store := file_store st;
                files := files st;
                current_file := current_file st;
                current_hunk := Some (length (hunk_store st)) |}
    | None => mret st
    end
  else
    (* hunk content *)
    match current_hunk st with
    | Some h =>
        if is_content_line line then
          mret {| hunk_store := alter (hunk_append_line line) h (hunk_store st);
                  file_store := file_store st;
                  files := files st;
                  current_file := current_file st;
                  current_hunk := current_hunk st |}
        else mret st
    | None => mret st
    end.

(** [while i < len(lines)] *)
Fixpoint tokenize_lines (di : option DiffInfo) (st : tokenizer)
    (lines : list string) : exc tokenizer :=
  match lines with
  | [] => mret st
  | line :: lines' =>
      st' ← tokenize_line di st line;
      tokenize_lines di st' lines'
  end.

(** The list that [parse_diff] returns, read off the stores. *)
Definition read_file (st : tokenizer) (a : nat) : list FileChange :=
  match file_store st !! a with
  | Some f =>
      [{| old_path := fo_old_path f; new_path := fo_new_path f;
          hunks := omap (fun h => hunk_store st !! h) (fo_hunks f) |}]
  | None => []
  end.

Definition read_files (st : tokenizer) : list FileChange :=
  files st ≫= read_file st.

Definition parse_diff_lines (lines : list string) (di : option DiffInfo)
  : exc (list FileChange) :=
  st ← tokenize_lines di tokenizer_init lines;
  (* don't forget the last file/hunk *)
  mret (read_files (close_file (close_hunk st))).

Definition parse_diff (diff_text : string) (di : option DiffInfo)
  : exc (list FileChange) :=
  parse_diff_lines (split diff_text nl) di.

(** ** Hunk segmenter *)

Definition ws1 : re := plus (Cls space).
Definition ws0 : re := Star (Cls space).
Definition kw_opt (k : string) : re := opt (Seq (lit k) ws1).

(** The piece "(?:\w+\s+\*?\s*" ")" of the signature patterns *)
Definition type_word : re :=
  Seq (plus (Cls word)) (Seq ws1 (Seq (opt (chr "*")) ws0)).

(** The two patterns of [func_def_patterns]:
    "^\+\s*(?:static\s+)?(?:inline\s+)?(?:__always_inline\s+)?(?:noinline\s+)?(?:const\s+)?(?:\w+\s+\*?\s*" ")+(\w+)\s*\([^;]*$"
    and "^\+\s*(?:static\s+)?(?:\w+\s+\*?\s*" ")*(\w+)\s*\(\s*$" *)
Definition func_def_patterns : list re :=
  [ Seq Bol
      (Seq (chr "+")
         (Seq ws0
            (Seq (kw_opt "static")
               (Seq (kw_opt "inline")
                  (Seq (kw_opt "__always_inline")
                     (Seq (kw_opt "noinline")
                        (Seq (kw_opt "const")
                           (Seq (plus type_word)
                              (Seq (Grp 1 (plus (Cls word)))
                                 (Seq ws0
                                    (Seq (chr "(")
                                       (Seq (Star (notchr ";")) Eol))))))))))));
    Seq Bol
      (Seq (chr "+")
         (Seq ws0
            (Seq (kw_opt "static")
               (Seq (Star type_word)
                  (Seq (Grp 1 (plus (Cls word)))
                     (Seq ws0 (Seq (chr "(") (Seq ws0 Eol)))))))) ].

(** The pattern "^\+\s*(\w+)\s*\(" *)
Definition P_name_paren : re :=
  Seq Bol
    (Seq (chr "+") (Seq ws0 (Seq (Grp 1 (plus (Cls word))) (Seq ws0 (chr "("))))).

(** The pattern "(?:static|int|void|bool|u\d+|s\d+|long|unsigned)\s*$" *)
Definition P_return_type : re :=
  Seq (Alt (lit "static")
         (Alt (lit "int")
            (Alt (lit "void")
               (Alt (lit "bool")
                  (Alt (Seq (chr "u") (plus (Cls digit)))
                     (Alt (Seq (chr "s") (plus (Cls digit)))
                        (Alt (lit "long") (lit "unsigned"))))))))
    (Seq ws0 Eol).

(** The first pattern of the list that matches at the start of [s]. *)
Fixpoint first_match (ps : list re) (s : string) : option string :=
  match ps with
  | [] => None
  | p :: ps' =>
      match match_ p s with
      | Some m => group 1 (groups m)
      | None => first_match ps' s
      end
  end.

(** [for char in content]: count the braces of a line. *)
Fixpoint count_braces (content : string) (brace_depth : Z) (found : bool)
  : Z * bool :=
  match content with
  | EmptyString => (brace_depth, found)
  | String char content' =>
      if Ascii.eqb char "{" then count_braces content' (brace_depth + 1) true
      else if Ascii.eqb char "}" then count_braces content' (brace_depth - 1) found
      else count_braces content' brace_depth found
  end.

(** [for j in range(i, len(hunk_lines))] on the lines from [i] on: the flag
    [found_opening_brace], and the index where the loop was left by [break]. *)
Fixpoint brace_span (rest : list string) (j : nat) (brace_depth : Z)
    (found : bool) : bool * option nat :=
  match rest with
  | [] => (found, None)
  | check_line :: rest' =>
      if startswith check_line "+" || startswith check_line " " then
        let '(brace_depth', found') :=
          count_braces (slice_from 1 check_line) brace_depth found in
        if found' && (brace_depth' =? 0)%Z then (found', Some j)
        else brace_span rest' (S j) brace_depth' found'
      else brace_span rest' (S j) brace_depth found
  end.

Definition not_a_function : list string :=
  ["if"; "for"; "while"; "switch"; "return"; "sizeof"; "typeof"].

(** The name that the line at index [i] defines, if it looks like the start
    of a function definition; [prev] is [hunk_lines[i-1]] when [i > 0]. *)
Definition new_function_name (prev : option string) (line : string)
  : option string :=
  match truthy (first_match func_def_patterns line) with
  | Some func_name => Some func_name
  | None =>
      (* multi-line function signatures *)
      match prev, match_ P_name_paren line with
      | Some prev, Some m =>
          if startswith prev "+"
             && bool_decide (is_Some (search P_return_type prev))
          then group 1 (groups m)
          else None
      | _, _ => None
      end
  end.

(** The [while i < len(hunk_lines)] loop, on the lines from [i] on; [skip]
    counts the lines of a function that was just recorded, which the
    assignment [i = end_idx + 1] steps over. *)
Fixpoint function_definitions_loop (i skip : nat) (prev : option string)
    (rest : list string) : list (string * nat * nat) :=
  match rest with
  | [] => []
  | line :: rest' =>
      match skip with
      | S k => function_definitions_loop (S i) k (Some line) rest'
      | O =>
          if negb (startswith line "+")
          then function_definitions_loop (S i) 0 (Some line) rest'
          else
            match truthy (new_function_name prev line) with
            | Some func_name =>
                if mem func_name not_a_function
                then function_definitions_loop (S i) 0 (Some line) rest'
                else
                  let '(found_opening_brace, broke) := brace_span rest i 0 false in
                  let end_idx := default i broke in
                  if found_opening_brace
                  then (func_name, i, end_idx)
                       :: function_definitions_loop (S i) (end_idx - i)
                            (Some line) rest'
                  else function_definitions_loop (S i) 0 (Some line) rest'
            | None => function_definitions_loop (S i) 0 (Some line) rest'
            end
      end
  end.

Definition find_function_definitions_in_hunk (hunk_lines : list string)
  : list (string * nat * nat) :=
  function_definitions_loop 0 0 None hunk_lines.

Definition extract_function_name_from_line (line : string) : option string :=
  let paren_pos := find line "(" in
  if (paren_pos =? -1)%Z then None
  else
    let before_paren := strip (slice_to (Z.to_nat paren_pos) line) in
    match last (split_ws before_paren) with
    | None => None
    | Some tok =>
        let name := lstrip_chars "*&" tok in
        match name with
        | EmptyString => None
        | String c _ =>
            if negb (bool_decide (name ∈ C_KEYWORDS))
               && (isalpha c || Ascii.eqb c "_")
               && all_chars is_ident_char name
            then Some name else None
        end
    end.

(** The text of a diff line without its prefix; [None] for an empty line,
    which the scans skip. *)
Definition line_content (line : string) : option string :=
  if startswith_any line [" "; "+"; "-"] then Some (slice_from 1 line)
  else if is_empty line then None
  else Some line.

(** [line.startswith(("+", "-")) and not line.startswith(("+++", "---"))] *)
Definition is_change_line (line : string) : bool :=
  startswith_any line ["+"; "-"] && negb (startswith_any line ["+++"; "---"]).

(** The look-ahead of [find_changed_function_in_hunk] for an opening brace,
    over the lines of its [range]. *)
Fixpoint body_brace_ahead (js : list string) : bool :=
  match js with
  | [] => false
  | jline :: js' =>
      match line_content jline with
      | None => body_brace_ahead js'
      | Some jcontent =>
          if contains "{" jcontent then true
          else
            let jstripped := strip jcontent in
            if is_empty jstripped then body_brace_ahead js'
            else
              let is_continuation :=
                match jcontent with
                | String c _ => isspace c
                | EmptyString => false
                end
                || endswith_any jstripped [","; "("; ")"] in
              if is_continuation then body_brace_ahead js' else false
      end
  end.

Definition control_keywords : list string :=
  ["if"; "while"; "for"; "switch"; "return"; "sizeof"; "typeof"; "case"; "else"].

(** Whether the line is taken as a definition: the name it defines. *)
Definition body_definition (line : string) (rest : list string)
  : option string :=
  match line_content line with
  | None => None
  | Some content =>
      match content with
      | EmptyString => None
      | String c _ =>
          if isspace c then None
          else
            let stripped := strip content in
            if is_empty stripped then None
            else if startswith_any stripped ["//"; "/*"; "*"; "#"] then None
            else if String.eqb stripped "}"
                    || (endswith stripped ":" && negb (contains "(" stripped))
            then None
            else if negb (contains "(" stripped) then None
            else
              let before_paren :=
                split_ws (default EmptyString (head (split stripped "("))) in
              if match last before_paren with
                 | Some w => mem w control_keywords
                 | None => false
                 end
              then None
              else
                let has_brace :=
                  contains "{" stripped || body_brace_ahead (take 19 rest) in
                if negb has_brace then None
                else extract_function_name_from_line stripped
      end
  end.

(** [for i, line in enumerate(hunk_lines)] on the lines from [i] on. *)
Fixpoint changed_function_loop (i : nat) (rest : list string)
  : option (string * nat) :=
  match rest with
  | [] => None
  | line :: rest' =>
      match truthy (body_definition line rest') with
      | None => changed_function_loop (S i) rest'
      | Some func_name =>
          (* verify there are modifications after this definition *)
          if existsb is_change_line rest' then Some (func_name, i) else None
      end
  end.

Definition find_changed_function_in_hunk (hunk_lines : list string)
  : option (string * nat) :=
  changed_function_loop 0 hunk_lines.

(** A segment: [(function_name, hunk_header, hunk_content, is_new_function,
    diffinfo)]. *)
Record Segment := {
  seg_function : string;
  seg_header : string;
  seg_content : string;
  seg_is_new_function : bool;
  seg_diffinfo : option diffinfo
}.

(** Look up diffinfo for a function from global diffinfo. *)
Definition lookup_diffinfo (hunk : Hunk) (global_diffinfo : option DiffInfo)
    (func_name : string) : option diffinfo :=
  match global_diffinfo with
  | Some di =>
      match find_func_info di func_name with
      | Some info => Some info
      | None => hunk_diffinfo hunk
      end
  | None => hunk_diffinfo hunk
  end.

Definition lookup_known (hunk : Hunk) (global_diffinfo : option DiffInfo)
    (func_name : string) : option diffinfo :=
  if negb (String.eqb func_name "unknown")
  then lookup_diffinfo hunk global_diffinfo func_name
  else hunk_diffinfo hunk.

(** [header + "\n" + "\n".join(lines)] *)
Definition with_header (hdr : string) (ls : list string) : string :=
  hdr +:+ nl +:+ join nl ls.

Definition split_hunk_by_functions (hunk : Hunk) (file_path : string)
    (global_diffinfo : option DiffInfo) : exc (list Segment) :=
  let functions := find_function_definitions_in_hunk (lines hunk) in
  match functions with
  | [] =>
      (* no new function definitions: a modification to existing function *)
      match find_changed_function_in_hunk (lines hunk) with
      | Some (body_func, body_func_line) =>
          let has_mods_before :=
            existsb is_change_line (take body_func_line (lines hunk)) in
          if has_mods_before then
            let header_func :=
              extract_function_from_context (function_context hunk) in
            let before_lines := take body_func_line (lines hunk) in
            let after_lines := drop body_func_line (lines hunk) in
            mret
              [ {| seg_function := header_func;
                   seg_header := header hunk;
                   seg_content := with_header (header hunk) before_lines;
                   seg_is_new_function := false;
                   seg_diffinfo := lookup_known hunk global_diffinfo header_func |};
                {| seg_function := body_func;
                   seg_header := header hunk;
                   seg_content := with_header (header hunk) after_lines;
                   seg_is_new_function := false;
                   seg_diffinfo := lookup_diffinfo hunk global_diffinfo body_func |} ]
          else
            mret
              [ {| seg_function := body_func;
                   seg_header := header hunk;
                   seg_content := with_header (header hunk) (lines hunk);
                   seg_is_new_function := false;
                   seg_diffinfo := lookup_known hunk global_diffinfo body_func |} ]
      | None =>
          let func_name := extract_function_from_context (function_context hunk) in
          mret
            [ {| seg_function := func_name;
                 seg_header := header hunk;
                 seg_content := with_header (header hunk) (lines hunk);
                 seg_is_new_function := false;
                 seg_diffinfo := lookup_known hunk global_diffinfo func_name |} ]
      end
  | [(func_name, _, _)] =>
      (* single new function definition *)
      mret
        [ {| seg_function := func_name;
             seg_header := header hunk;
             seg_content := with_header (header hunk) (lines hunk);
             seg_is_new_function := true;
             seg_diffinfo := lookup_diffinfo hunk global_diffinfo func_name |} ]
  | _ =>
      (* multiple functions: separate segments, all are new functions *)
      (fix each (fs : list (string * nat * nat)) : exc (list Segment) :=
         match fs with
         | [] => mret []
         | (func_name, start_idx, end_idx) :: fs' =>
             let func_lines :=
               take (S end_idx - start_idx) (drop start_idx (lines hunk)) in
             range_part ← py_index (split (header hunk) "@@") 1;
             let new_header :=
               "@@ (within " +:+ strip range_part +:+ ") @@ " +:+ func_name in
             segments ← each fs';
             mret ({| seg_function := func_name;
                      seg_header := new_header;
                      seg_content := with_header new_header func_lines;
                      seg_is_new_function := true;
                      seg_diffinfo :=
                        lookup_diffinfo hunk global_diffinfo func_name |}
                   :: segments)
         end) functions
  end.

(** ** Change aggregator *)

(** Maximum added lines when combining hunks from the same function *)
Definition MAX_COMBINED_ADDED_LINES : Z := 250.
(** Maximum total lines when combining new functions in the same file *)
Definition MAX_NEW_FUNCTION_COMBINED_LINES : Z := 250.
(** Maximum total lines per FILE-N before creating a new FILE-N+1 *)
Definition MAX_LINES_PER_FILE : Z := 250.
(** Maximum combined lines for merging small FILE-N groups *)
Definition MAX_COMBINED_FILE_GROUP_LINES : Z := 250.
(** Maximum combined lines when merging FILE-N groups based on function
    similarity *)
Definition MAX_SIMILARITY_COMBINED_LINES : Z := 500.
(** Minimum function overlap ratio to consider merging two FILE-N groups *)
Definition MIN_FUNCTION_OVERLAP_RATIO : Q := 8 # 10.

Definition is_added_line (line : string) : bool :=
  startswith line "+" && negb (startswith line "++").

(** Count the number of added lines (starting with +, excluding ++). *)
Definition count_added_lines (hunk_content : string) : Z :=
  len (List.filter is_added_line (split hunk_content nl)).

(** Count total lines in hunk content (excluding empty lines at end). *)
Definition count_total_lines (hunk_content : string) : Z :=
  len (split (rstrip hunk_content) nl).

(** A dict keyed by strings, in insertion order. *)
Fixpoint adict_get {V} (d : list (string * V)) (k : string) : option V :=
  match d with
  | [] => None
  | (k', v) :: d' => if String.eqb k' k then Some v else adict_get d' k
  end.

Fixpoint adict_set {V} (d : list (string * V)) (k : string) (v : V)
  : list (string * V) :=
  match d with
  | [] => [(k, v)]
  | (k', v') :: d' =>
      if String.eqb k' k then (k, v) :: d' else (k', v') :: adict_set d' k v
  end.

(** [d[k].append(x)] and [d[k].extend(xs)] for a [defaultdict(list)] *)
Definition adict_extend {A} (d : list (string * list A)) (k : string)
    (xs : list A) : list (string * list A) :=
  adict_set d k (default [] (adict_get d k) ++ xs).

(** An entry of [modifications_by_key[file][function]]:
    [(hunk_header, hunk_content, added_lines, diffinfo)]. *)
Record mod_segment := {
  ms_header : string;
  ms_content : string;
  ms_added : Z;
  ms_diffinfo : option diffinfo
}.

(** An entry of [new_functions_by_file[file]]:
    [(func_name, hunk_header, hunk_content, total_lines, diffinfo)]. *)
Record new_segment := {
  ns_function : string;
  ns_header : string;
  ns_content : string;
  ns_total : Z;
  ns_diffinfo : option diffinfo
}.

(** An entry of [changes_by_file[file]]:
    [(function, hunk_header, hunk_content, total_lines, diffinfo)]. *)
Record change_entry := {
  ce_function : string;
  ce_header : string;
  ce_content : string;
  ce_total_lines : Z;
  ce_diffinfo : option diffinfo
}.

Definition mods_dict := list (string * list (string * list mod_segment)).

Definition mod_segment_of (s : Segment) : mod_segment :=
  {| ms_header := seg_header s; ms_content := seg_content s;
     ms_added := count_added_lines (seg_content s);
     ms_diffinfo := seg_diffinfo s |}.

Definition new_segment_of (s : Segment) : new_segment :=
  {| ns_function := seg_function s; ns_header := seg_header s;
     ns_content := seg_content s;
     ns_total := count_total_lines (seg_content s);
     ns_diffinfo := seg_diffinfo s |}.




Definition add_new {A} (eqb : A -> A -> bool) (acc : list A) (item : A) : list A :=
  if existsb (eqb item) acc then acc else acc ++ [item].

(** Merge multiple diffinfo dicts into one, combining lists. *)
Definition merge_diffinfo (info_list : list (option diffinfo))
  : option diffinfo :=
  let infos := omap id info_list in
  match infos with
  | [] => None
  | _ :: _ =>
      Some
        (foldl
           (fun merged info =>
              {| modifies :=
                   match truthy (modifies info), truthy (modifies merged) with
                   | Some m, None => Some m
                   | _, _ => modifies merged
                   end;
                 types := foldl (add_new String.eqb) (types merged) (types info);
                 calls := foldl (add_new String.eqb) (calls merged) (calls info);
                 callers :=
                   foldl (add_new String.eqb) (callers merged) (callers info) |})
           {| modifies := None; types := []; calls := []; callers := [] |}
           infos)
  end.

(** [hunk_header.split("@@")[1].strip() if "@@" in hunk_header else hunk_header];
    the part of index 1 exists when the separator occurs. *)
Definition header_part (hunk_header : string) : string :=
  if contains "@@" hunk_header then
    match split hunk_header "@@" with
    | _ :: part :: _ => strip part
    | _ => hunk_header
    end
  else hunk_header.

(** [" + ".join(hs) if len(hs) > 1 else hs[0]] *)
Definition combined_header (current_headers : list string) : exc string :=
  match current_headers with
  | [] => Raise IndexError
  | [h] => mret h
  | _ => mret (join " + " current_headers)
  end.

Definition blank_line : string := nl +:+ nl.

(** The accumulators of the combining loop for one (file, function). *)
Record mod_batch := {
  current_headers : list string;
  current_contents : list string;
  current_added : Z;
  current_diffinfos : list (option diffinfo)
}.

Definition empty_batch : mod_batch :=
  {| current_headers := []; current_contents := []; current_added := 0;
     current_diffinfos := [] |}.

(** Flush current group: the entry appended to [changes_by_file[file_path]]. *)
Definition flush_batch (func_name : string) (b : mod_batch) : exc change_entry :=
  hdr ← combined_header (current_headers b);
  let combined_content := join blank_line (current_contents b) in
  mret {| ce_function := func_name;
          ce_header := hdr;
          ce_content := combined_content;
          ce_total_lines := count_total_lines combined_content;
          ce_diffinfo := merge_diffinfo (current_diffinfos b) |}.

Definition batch_add (b : mod_batch) (s : mod_segment) : mod_batch :=
  {| current_headers := current_headers b ++ [header_part (ms_header s)];
     current_contents := current_contents b ++ [ms_content s];
     current_added := (current_added b + ms_added s)%Z;
     current_diffinfos := current_diffinfos b ++ [ms_diffinfo s] |}.

(** [for hunk_header, hunk_content, added_lines, diffinfo in segment_list],
    followed by the flush of what is left. *)
Fixpoint combine_loop (func_name : string) (b : mod_batch)
    (segment_list : list mod_segment) : exc (list change_entry) :=
  match segment_list with
  | [] =>
      match current_contents b with
      | [] => mret []
      | _ :: _ => c ← flush_batch func_name b; mret [c]
      end
  | s :: segment_list' =>
      if ((0 <? current_added b)
          && (MAX_COMBINED_ADDED_LINES <? current_added b + ms_added s))%Z
      then
        c ← flush_batch func_name b;
        cs ← combine_loop func_name (batch_add empty_batch s) segment_list';
        mret (c :: cs)
      else combine_loop func_name (batch_add b s) segment_list'
  end.

Definition combine_modifications (func_name : string)
    (segment_list : list mod_segment) : exc (list change_entry) :=
  combine_loop func_name empty_batch segment_list.

(** [for func_name, segment_list in modifications_by_key[file_path].items()] *)
Fixpoint combine_functions (file_path : string)
    (by_function : list (string * list mod_segment))
    (changes_by_file : list (string * list change_entry))
  : exc (list (string * list change_entry)) :=
  match by_function with
  | [] => mret changes_by_file
  | (func_name, segment_list) :: by_function' =>
      cs ← combine_modifications func_name segment_list;
      combine_functions file_path by_function'
        (adict_extend changes_by_file file_path cs)
  end.

(** Process modifications: combine by (file, function) up to
    [MAX_COMBINED_ADDED_LINES]. *)
Fixpoint process_modifications (modifications_by_key : mods_dict)
    (changes_by_file : list (string * list change_entry))
  : exc (list (string * list change_entry)) :=
  match modifications_by_key with
  | [] => mret changes_by_file
  | (file_path, by_function) :: rest =>
      changes_by_file' ← combine_functions file_path by_function changes_by_file;
      process_modifications rest changes_by_file'
  end.

(** ** Group builder *)

(** Represents a single FILE-N-CHANGE-M entry. *)
Record Change := {
  file_num : Z;
  change_num : Z;
  file : string;
  function : string;
  hunk_header : string;
  hunk_content : string;
  total_lines : Z;
  change_diffinfo : option diffinfo;
  definition : option string
}.

(** The [Change] objects, by address: the passes renumber them in place. *)
Abbreviation store := (gmap nat Change).

(** A FILE-N group as the first grouping stage builds it:
    [{"file_num", "file", "changes", "total_lines"}], with one file path. *)
Record StageGroup := {
  sg_file_num : Z;
  sg_file : string;
  sg_changes : list nat;
  sg_total_lines : Z
}.

(** The value under ["file"]: a path, or a list of paths. *)
Inductive file_field :=
| OneFile (f : string)
| FileList (fs : list string).

(** A FILE-N group as the merging passes handle it: the key ["files"] may be
    absent, ["file_num"] may hold [None]. *)
Record FileGroup := {
  g_file_num : option Z;
  g_file : file_field;
  g_files : option (list string);
  g_changes : list nat;
  g_total_lines : Z
}.

Definition group_of_stage (g : StageGroup) : FileGroup :=
  {| g_file_num := Some (sg_file_num g); g_file := OneFile (sg_file g);
     g_files := None; g_changes := sg_changes g;
     g_total_lines := sg_total_lines g |}.

Definition set_numbers (idx change_num : Z) (c : Change) : Change :=
  {| file_num := idx; change_num := change_num;
     file := file c; function := function c; hunk_header := hunk_header c;
     hunk_content := hunk_content c; total_lines := total_lines c;
     change_diffinfo := change_diffinfo c; definition := definition c |}.

(** [for change in group["changes"]]: update [file_num] and [change_num] in
    each [Change] object. *)
Fixpoint renumber_changes (idx change_num : Z) (changes : list nat) (h : store)
  : store :=
  match changes with
  | [] => h
  | a :: changes' =>
      renumber_changes idx (change_num + 1) changes'
        (alter (set_numbers idx change_num) a h)
  end.

(** The group under construction in the coalescing pass: it has no ["file"]
    yet. *)
Record combined_acc := {
  ca_files : list string;
  ca_changes : list nat;
  ca_total_lines : Z
}.

Definition start_combined (group : StageGroup) : combined_acc :=
  {| ca_files := [sg_file group]; ca_changes := sg_changes group;
     ca_total_lines := sg_total_lines group |}.

(** [for group in file_groups] of the coalescing pass, followed by the flush
    of the last combined group. *)
Fixpoint coalesce_loop (current_combined : option combined_acc)
    (file_groups : list StageGroup) : list combined_acc :=
  match file_groups with
  | [] =>
      match current_combined with
      | Some c => [c]
      | None => []
      end
  | group :: file_groups' =>
      match current_combined with
      | None => coalesce_loop (Some (start_combined group)) file_groups'
      | Some c =>
          if (ca_total_lines c + sg_total_lines group
              <=? MAX_COMBINED_FILE_GROUP_LINES)%Z
          then
            (* merge this group into current_combined *)
            coalesce_loop
              (Some {| ca_files := ca_files c ++ [sg_file group];
                       ca_changes := ca_changes c ++ sg_changes group;
                       ca_total_lines :=
                         (ca_total_lines c + sg_total_lines group)%Z |})
              file_groups'
          else
            (* current combined group is full, flush it and start new one *)
            c :: coalesce_loop (Some (start_combined group)) file_groups'
      end
  end.

(** Reassign [file_num], update the changes and set ["file"]. *)
Fixpoint number_combined (idx : Z) (cgroups : list combined_acc) (h : store)
  : list FileGroup * store :=
  match cgroups with
  | [] => ([], h)
  | c :: cgroups' =>
      let h1 := renumber_changes idx 1 (ca_changes c) h in
      let g := {| g_file_num := Some idx;
                  g_file := match ca_files c with
                            | [f] => OneFile f
                            | fs => FileList fs
                            end;
                  g_files := Some (ca_files c);
                  g_changes := ca_changes c;
                  g_total_lines := ca_total_lines c |} in
      let '(gs, h2) := number_combined (idx + 1) cgroups' h1 in
      (g :: gs, h2)
  end.

(** Post-process of [main]: combine small FILE-N groups that together are
    under [MAX_COMBINED_FILE_GROUP_LINES]. *)
Definition coalesce_groups (file_groups : list StageGroup) (h : store)
  : list FileGroup * store :=
  if 1 <? length file_groups
  then number_combined 1 (coalesce_loop None file_groups) h
  else (map group_of_stage file_groups, h).

(** Extract all functions referenced by a FILE-N group. *)
Definition change_functions (c : Change) : gset string :=
  (if negb (is_empty (function c)) && negb (String.eqb (function c) "unknown")
   then list_to_set
          (List.filter (fun func => negb (is_empty func))
             (map strip (split (function c) ", ")))
   else ∅)
  ∪ match change_diffinfo c with
    | Some di =>
        match truthy (modifies di) with
        | Some m => {[ m ]}
        | None => ∅
        end
        ∪ list_to_set (callers di) ∪ list_to_set (calls di)
    | None => ∅
    end.

Definition extract_group_functions (h : store) (group : FileGroup)
  : gset string :=
  ⋃ (map change_functions (omap (fun a => h !! a) (g_changes group))).

(** Calculate the overlap ratio between two sets of functions. *)
Definition calculate_function_overlap (funcs1 funcs2 : gset string) : Q :=
  if bool_decide (funcs1 = ∅) || bool_decide (funcs2 = ∅) then 0%Q
  else
    let intersection := funcs1 ∩ funcs2 in
    let smaller_size := Nat.min (size funcs1) (size funcs2) in
    (inject_Z (Z.of_nat (size intersection))
     / inject_Z (Z.of_nat smaller_size))%Q.

(** The state of the search for the best pair. *)
Record best := {
  best_overlap : Q;
  best_pair : option (nat * nat)
}.

Definition Qlt_bool (a b : Q) : bool := negb (Qle_bool b a).

(** The body of the two nested loops over [i < j]. *)
Definition consider_pair (working_groups : list (option FileGroup))
    (working_funcs : list (gset string)) (b : best) (ij : nat * nat) : best :=
  let '(i, j) := ij in
  match working_groups !! i, working_groups !! j with
  | Some (Some gi), Some (Some gj) =>
      let combined_lines := (g_total_lines gi + g_total_lines gj)%Z in
      if (MAX_SIMILARITY_COMBINED_LINES <? combined_lines)%Z then b
      else
        let overlap :=
          calculate_function_overlap
            (default ∅ (working_funcs !! i)) (default ∅ (working_funcs !! j)) in
        if Qle_bool MIN_FUNCTION_OVERLAP_RATIO overlap
           && Qlt_bool (best_overlap b) overlap
        then {| best_overlap := overlap; best_pair := Some (i, j) |}
        else b
  | _, _ => b
  end.

(** The pairs [(i, j)] with [i < j < n], in the order of the nested loops. *)
Definition index_pairs (n : nat) : list (nat * nat) :=
  seq 0 n ≫= fun i => map (fun j => (i, j)) (seq (S i) (n - S i)).

Definition find_best_pair (working_groups : list (option FileGroup))
    (working_funcs : list (gset string)) : option (nat * nat) :=
  best_pair
    (foldl (consider_pair working_groups working_funcs)
       {| best_overlap := 0; best_pair := None |}
       (index_pairs (length working_groups))).

(** [g.get("files", [g["file"]] if isinstance(g["file"], str) else g["file"])] *)
Definition group_files (g : FileGroup) : list string :=
  match g_files g with
  | Some fs => fs
  | None =>
      match g_file g with
      | OneFile f => [f]
      | FileList fs => fs
      end
  end.

(** Merge [gj] into [gi]. *)
Definition merge_groups (gi gj : FileGroup) : exc FileGroup :=
  let files_i := group_files gi in
  let files_j := group_files gj in
  let combined_files :=
    files_i ++ List.filter (fun f => negb (mem f files_i)) files_j in
  file ← match combined_files with
         | [] => Raise IndexError
         | [f] => mret (OneFile f)
         | _ => mret (FileList combined_files)
         end;
  mret {| g_file_num := None;           (* will be reassigned later *)
          g_file := file;
          g_files := Some combined_files;
          g_changes := g_changes gi ++ g_changes gj;
          g_total_lines := (g_total_lines gi + g_total_lines gj)%Z |}.

Definition merge_pair (working_groups : list (option FileGroup))
    (working_funcs : list (gset string)) (i j : nat)
  : exc (list (option FileGroup) * list (gset string)) :=
  match working_groups !! i, working_groups !! j with
  | Some (Some gi), Some (Some gj) =>
      merged ← merge_groups gi gj;
      mret (<[j := None]> (<[i := Some merged]> working_groups),
            <[j := ∅]>
              (<[i := default ∅ (working_funcs !! i)
                      ∪ default ∅ (working_funcs !! j)]> working_funcs))
  | _, _ => Raise IndexError
  end.

(** [while changed]: merge the best pair until none is found.  Each merge
    empties one slot of [working_groups], so the loop makes fewer turns than
    there are groups; [turns] is that bound. *)
Fixpoint similarity_loop (turns : nat)
    (working_groups : list (option FileGroup))
    (working_funcs : list (gset string))
  : exc (list (option FileGroup) * list (gset string)) :=
  match find_best_pair working_groups working_funcs with
  | None => mret (working_groups, working_funcs)
  | Some (i, j) =>
      match turns with
      | O => mret (working_groups, working_funcs)
      | S turns' =>
          '(working_groups', working_funcs') ←
            merge_pair working_groups working_funcs i j;
          similarity_loop turns' working_groups' working_funcs'
      end
  end.

(** Collect the groups and reassign [file_num]. *)
Fixpoint number_groups (idx : Z) (groups : list FileGroup) (h : store)
  : list FileGroup * store :=
  match groups with
  | [] => ([], h)
  | group :: groups' =>
      let h1 := renumber_changes idx 1 (g_changes group) h in
      let g := {| g_file_num := Some idx; g_file := g_file group;
                  g_files := g_files group; g_changes := g_changes group;
                  g_total_lines := g_total_lines group |} in
      let '(gs, h2) := number_groups (idx + 1) groups' h1 in
      (g :: gs, h2)
  end.

(** Combine FILE-N groups that share most of their functions. *)
Definition combine_groups_by_similarity (file_groups : list FileGroup)
    (h : store) : exc (list FileGroup * store) :=
  if length file_groups <=? 1 then mret (file_groups, h)
  else
    let group_functions := map (extract_group_functions h) file_groups in
    '(working_groups, _) ←
      similarity_loop (length file_groups) (map Some file_groups)
        group_functions;
    mret (number_groups 1 (omap id working_groups) h).

(** * More of the program *)

(** ** Change aggregator: the new functions *)

(** The accumulators of the combining loop for the new functions of one
    file. *)
Record new_batch := {
  nb_func_names : list string;
  nb_headers : list string;
  nb_contents : list string;
  nb_total_lines : Z;
  nb_diffinfos : list (option diffinfo)
}.

Definition empty_new_batch : new_batch :=
  {| nb_func_names := []; nb_headers := []; nb_contents := [];
     nb_total_lines := 0; nb_diffinfos := [] |}.

(** Flush current group: the entry appended to [changes_by_file[file_path]];
    its [total_lines] is the running total. *)
Definition flush_new_batch (b : new_batch) : exc change_entry :=
  let combined_func_name := join ", " (nb_func_names b) in
  hdr ← combined_header (nb_headers b);
  let combined_content := join blank_line (nb_contents b) in
  mret {| ce_function := combined_func_name;
          ce_header := hdr;
          ce_content := combined_content;
          ce_total_lines := nb_total_lines b;
          ce_diffinfo := merge_diffinfo (nb_diffinfos b) |}.

Definition new_batch_add (b : new_batch) (s : new_segment) : new_batch :=
  {| nb_func_names := nb_func_names b ++ [ns_function s];
     nb_headers := nb_headers b ++ [header_part (ns_header s)];
     nb_contents := nb_contents b ++ [ns_content s];
     nb_total_lines := (nb_total_lines b + ns_total s)%Z;
     nb_diffinfos := nb_diffinfos b ++ [ns_diffinfo s] |}.

(** [for func_name, hunk_header, hunk_content, total_lines, diffinfo in
    func_list], followed by the flush of what is left. *)
Fixpoint combine_new_loop (b : new_batch) (func_list : list new_segment)
  : exc (list change_entry) :=
  match func_list with
  | [] =>
      match nb_contents b with
      | [] => mret []
      | _ :: _ => c ← flush_new_batch b; mret [c]
      end
  | s :: func_list' =>
      if ((0 <? nb_total_lines b)
          && (MAX_NEW_FUNCTION_COMBINED_LINES <? nb_total_lines b + ns_total s))%Z
      then
        c ← flush_new_batch b;
        cs ← combine_new_loop (new_batch_add empty_new_batch s) func_list';
        mret (c :: cs)
      else combine_new_loop (new_batch_add b s) func_list'
  end.



(** ** Group builder: the FILE-N groups *)

(** The pattern "\+(\d+)(?:,(\d+))?" *)
Definition P_new_range : re :=
  Seq (chr "+")
    (Seq (Grp 1 (plus (Cls digit)))
       (opt (Seq (chr ",") (Grp 2 (plus (Cls digit)))))).

(** Parse new start line and count from a hunk header; the conversions may
    raise. *)
Definition parse_hunk_line_numbers (hunk_header : string)
  : exc (option (Z * Z)) :=
  match search P_new_range hunk_header with
  | Some m =>
      new_start ← int_of_digits (group_str m 1);
      new_count ←
        match truthy (group 2 (groups m)) with
        | Some s => int_of_digits s
        | None => mret 1%Z
        end;
      mret (Some (new_start, new_count))
  | None => mret None
  end.

(** [sorted(d.keys())] *)
Definition sorted_keys {V} (d : list (string * V)) : list string :=
  merge_sort String.le (map fst d).

(** The state of the loops that assign the FILE-N numbers: the groups
    flushed, [file_num], the [Change] objects created, the next free address,
    and the group that is being filled. *)
Record stage := {
  sa_file_groups : list StageGroup;
  sa_file_num : Z;
  sa_store : store;
  sa_next : nat;
  sa_group_changes : list nat;
  sa_group_lines : Z;
  sa_change_num : Z
}.

Definition stage_init : stage :=
  {| sa_file_groups := []; sa_file_num := 1; sa_store := ∅; sa_next := 0;
     sa_group_changes := []; sa_group_lines := 0; sa_change_num := 1 |}.

(** [file_groups.append({...}); file_num += 1] *)
Definition stage_append (file_path : string) (s : stage) : stage :=
  {| sa_file_groups :=
       sa_file_groups s
       ++ [{| sg_file_num := sa_file_num s; sg_file := file_path;
              sg_changes := sa_group_changes s;
              sg_total_lines := sa_group_lines s |}];
     sa_file_num := (sa_file_num s + 1)%Z;
     sa_store := sa_store s; sa_next := sa_next s;
     sa_group_changes := sa_group_changes s;
     sa_group_lines := sa_group_lines s;
     sa_change_num := sa_change_num s |}.

Definition stage_reset (s : stage) : stage :=
  {| sa_file_groups := sa_file_groups s; sa_file_num := sa_file_num s;
     sa_store := sa_store s; sa_next := sa_next s;
     sa_group_changes := []; sa_group_lines := 0; sa_change_num := 1 |}.

Section grouping.

(** Whether semcode is in use, and the file system and the [-C] option that
    [get_definition_for_change] reads. *)
Variable use_semcode : bool.
Variable read_lines : option string -> string -> option (list string).
Variable git_dir : option string.

(** Extract definition when semcode is not available. *)
Definition change_definition (file_path : string) (e : change_entry)
  : exc (option string) :=
  if negb use_semcode && negb (String.eqb (ce_function e) "unknown") then
    line_nums ← parse_hunk_line_numbers (ce_header e);
    match line_nums with
    | Some (new_start, _) =>
        get_definition_for_change read_lines file_path (ce_function e)
          new_start git_dir
    | None => mret None
    end
  else mret None.

(** The body of [for ... in file_changes_list]. *)
Definition stage_change (file_path : string) (s : stage) (e : change_entry)
  : exc stage :=
  (* check if adding this change would exceed the limit *)
  let s :=
    if ((0 <? sa_group_lines s)
        && (MAX_LINES_PER_FILE <? sa_group_lines s + ce_total_lines e))%Z
    then stage_reset (stage_append file_path s)
    else s in
  definition ← change_definition file_path e;
  let change :=
    {| file_num := sa_file_num s; change_num := sa_change_num s;
       file := file_path; function := ce_function e;
       hunk_header := ce_header e; hunk_content := ce_content e;
       total_lines := ce_total_lines e; change_diffinfo := ce_diffinfo e;
       definition := definition |} in
  mret {| sa_file_groups := sa_file_groups s; sa_file_num := sa_file_num s;
          sa_store := <[sa_next s := change]> (sa_store s);
          sa_next := S (sa_next s);
          sa_group_changes := sa_group_changes s ++ [sa_next s];
          sa_group_lines := (sa_group_lines s + ce_total_lines e)%Z;
          sa_change_num := (sa_change_num s + 1)%Z |}.

Fixpoint stage_changes_loop (file_path : string) (s : stage)
    (file_changes_list : list change_entry) : exc stage :=
  match file_changes_list with
  | [] => mret s
  | e :: rest =>
      s' ← stage_change file_path s e;
      stage_changes_loop file_path s' rest
  end.

(** The body of [for file_path in sorted(changes_by_file.keys())]. *)
Definition stage_file (changes_by_file : list (string * list change_entry))
    (s : stage) (file_path : string) : exc stage :=
  let file_changes_list := default [] (adict_get changes_by_file file_path) in
  s' ← stage_changes_loop file_path (stage_reset s) file_changes_list;
  (* flush remaining changes for this file *)
  match sa_group_changes s' with
  | [] => mret s'
  | _ :: _ => mret (stage_append file_path s')
  end.

Fixpoint stage_files_loop (changes_by_file : list (string * list change_entry))
    (s : stage) (paths : list string) : exc stage :=
  match paths with
  | [] => mret s
  | file_path :: paths' =>
      s' ← stage_file changes_by_file s file_path;
      stage_files_loop changes_by_file s' paths'
  end.

(** Assign FILE-N numbers, splitting files that exceed [MAX_LINES_PER_FILE]. *)
Definition build_file_groups
    (changes_by_file : list (string * list change_entry))
  : exc (list StageGroup * store) :=
  s ← stage_files_loop changes_by_file stage_init (sorted_keys changes_by_file);
  mret (sa_file_groups s, sa_store s).

End grouping.

(** ** From the text of the diff to the FILE-N groups *)

Section changes_of_diff.

Variable use_semcode : bool.
Variable read_lines : option string -> string -> option (list string).
Variable git_dir : option string.


End changes_of_diff.

(** * Specification vocabulary and sample inputs *)

(** ** The per-function call map *)

Definition no_keyword (s : gset string) : Prop :=
  forall c, c ∈ s -> c ∉ C_KEYWORDS.

(** No function calls itself in the map, and no call is a keyword. *)
Definition calls_ok (fc : gmap string (gset string)) : Prop :=
  forall F s, fc !! F = Some s -> (F ∉ s) /\ no_keyword s.

(** The invariant of the content loop of [parse_hunk_python]. *)
Definition scan_ok (st : hunk_scan) : Prop :=
  (0 <= current_line st)%Z
  /\ (forall i, i ∈ modified_line_indices st -> (0 <= i)%Z)
  /\ Forall (fun ic => (0 <= ic.1)%Z /\ no_keyword ic.2) (line_to_calls st).

(** ** Claims about the symbol resolver *)

(** A function followed by a top-level declaration: the lines of the
    reconstructed hunk, and the index of the declaration. *)
Definition after_function : list string :=
  ["void foo(void) {"; "}"; "int x;"].

(** A hunk whose changed line lies in an indented body with no definition
    above it, under a header that names [foo]. *)
Definition unresolved_hunk : list string :=
  [ "@@ -10,2 +10,3 @@ int foo(void)";
    "   x = 1;";
    "+  bar(x);" ].

Definition unresolved_lines : list string := ["  x = 1;"; "  bar(x);"].

(** A diff with two hunks of one function, which calls itself. *)
Definition recursive_diff : string :=
  join nl
    [ "diff --git a/f.c b/f.c";
      "--- a/f.c";
      "+++ b/f.c";
      "@@ -1,2 +1,4 @@";
      " int fact(int n)";
      " {";
      "+  if (n) return n * fact(n - 1) + sizeof(n);";
      "+  return one();";
      "@@ -20,2 +21,3 @@ int fact(int n)";
      "+  log(fact(2));" ].

(** A source file whose function [foo] has braces in a string literal, in a
    character literal and in both kinds of comment. *)
Definition quoted (s : string) : string :=
  String dquote EmptyString +:+ s +:+ String dquote EmptyString.

Definition sample_source : list string :=
  map (fun s => s +:+ nl)
    [ "#include <x.h>";
      "";
      "static int foo(int a,";
      "               int b)";
      "{";
      "  char *s = " +:+ quoted "}{" +:+ "; /* } */";
      "  if (a) { // }";
      "    return '}';";
      "  }";
      "  return 0;";
      "}";
      "";
      "int bar(void) { return 1; }" ].

Definition sample_fs (lines : list string) (git_dir : option string)
    (file_path : string) : option (list string) :=
  if String.eqb file_path "f.c" then Some lines else None.

(** Two functions that each hold the character literal of a backslash: a
    quote, two backslashes and a quote. *)
Definition escaped_backslash_source : list string :=
  map (fun s => s +:+ nl)
    [ "int foo(void)";
      "{";
      "  char c = '\\';";
      "  return c;";
      "}";
      "";
      "int bar(void)";
      "{";
      "  char d = '\\';";
      "  return d;";
      "}" ].

(** The same file with a plain letter as the literal. *)
Definition plain_literal_source : list string :=
  map (fun s => s +:+ nl)
    [ "int foo(void)";
      "{";
      "  char c = 'x';";
      "  return c;";
      "}";
      "";
      "int bar(void)";
      "{";
      "  char d = 'x';";
      "  return d;";
      "}" ].

(** A function of 120 lines of 100 characters each. *)
Definition long_source : list string :=
  ["void big(void)" +:+ nl; "{" +:+ nl]
  ++ replicate 120 (join "" (replicate 99 "x") +:+ nl)
  ++ ["}" +:+ nl].

(** The running total of the loop over the segments of a batch. *)
Definition running (b : list mod_segment) : Z :=
  foldr (fun s n => (ms_added s + n)%Z) 0%Z b.

(** The test that starts a new change: the running total is positive and
    the next segment would push it over the cap. *)
Definition overflows (p : list mod_segment) (s : mod_segment) : Prop :=
  (0 < running p /\ MAX_COMBINED_ADDED_LINES < running p + ms_added s)%Z.

(** No segment after the first [k] of a batch met the test when it joined. *)
Definition joined_freely (k : nat) (b : list mod_segment) : Prop :=
  forall p s q, b = p ++ s :: q -> p <> [] -> k <= length p -> ~ overflows p s.

(** Each batch after the first was started by the test. *)
Inductive started_by_overflow : list (list mod_segment) -> Prop :=
| started_nil : started_by_overflow []
| started_one b : started_by_overflow [b]
| started_cons b s q rest :
    overflows b s -> started_by_overflow ((s :: q) :: rest) ->
    started_by_overflow (b :: (s :: q) :: rest).

(** The accumulators after the segments of [b] were added. *)
Definition batch_of (b : list mod_segment) : mod_batch :=
  foldl batch_add empty_batch b.

(** The entry that the flush of a batch appends. *)
Definition entry_of (func_name : string) (b : list mod_segment) : change_entry :=
  let hs := map (fun s => header_part (ms_header s)) b in
  let combined_content := join blank_line (map ms_content b) in
  {| ce_function := func_name;
     ce_header := match hs with [h] => h | _ => join " + " hs end;
     ce_content := combined_content;
     ce_total_lines := count_total_lines combined_content;
     ce_diffinfo := merge_diffinfo (map ms_diffinfo b) |}.

(** The batches that the loop forms from the pending batch [cur] and the
    segments still to come. *)
Fixpoint split_batches (cur segs : list mod_segment) : list (list mod_segment) :=
  match segs with
  | [] => match cur with [] => [] | _ :: _ => [cur] end
  | s :: segs' =>
      if ((0 <? running cur)
          && (MAX_COMBINED_ADDED_LINES <? running cur + ms_added s))%Z
      then cur :: split_batches [s] segs'
      else split_batches (cur ++ [s]) segs'
  end.

(** A hunk that only removes a line, and a hunk that adds 251 lines, both in
    the function [f] of one file. *)
Definition removal_segment : Segment :=
  {| seg_function := "f";
     seg_header := "@@ -10,3 +10,2 @@ int f(void)";
     seg_content := join nl ["@@ -10,3 +10,2 @@ int f(void)"; " a"; "-b"; " c"];
     seg_is_new_function := false;
     seg_diffinfo := None |}.

Definition big_segment : Segment :=
  {| seg_function := "f";
     seg_header := "@@ -40,2 +39,253 @@ int f(void)";
     seg_content :=
       join nl (["@@ -40,2 +39,253 @@ int f(void)"; " d"]
                ++ replicate 251 "+x" ++ [" e"]);
     seg_is_new_function := false;
     seg_diffinfo := None |}.

(** The entries filed under a path in [changes_by_file]. *)
Definition entries_at (d : list (string * list change_entry)) (file_path : string)
  : list change_entry :=
  default [] (adict_get d file_path).

(** A diff of one hunk over two definitions of [foo], the stub of one branch
    of a conditional and the real function of the other: the hunk header
    names [foo], and so does the definition line inside the hunk. *)
Definition twice_defined_diff : string :=
  join nl
    [ "diff --git a/f.c b/f.c";
      "--- a/f.c";
      "+++ b/f.c";
      "@@ -12,12 +12,12 @@ static inline int foo(void)";
      "   int a;";
      "   int b;";
      "   int c;";
      "-  return 0;";
      "+  return 1;";
      " }";
      " #else";
      " int foo(void)";
      " {";
      "-  bar();";
      "+  baz();";
      "   return 2;";
      "   /* done */";
      " }" ].

Definition twice_defined_hunk : Hunk :=
  {| header := "@@ -12,12 +12,12 @@ static inline int foo(void)";
     old_start := 12; old_count := 12; new_start := 12; new_count := 12;
     function_context := "static inline int foo(void)";
     lines := [ "   int a;"; "   int b;"; "   int c;";
                "-  return 0;"; "+  return 1;"; " }"; " #else";
                " int foo(void)"; " {"; "-  bar();"; "+  baz();";
                "   return 2;"; "   /* done */"; " }" ];
     hunk_diffinfo := None |}.

(** A hunk that changes the end of [first] and the body of [second]. *)
Definition two_function_hunk : Hunk :=
  {| header := "@@ -30,9 +30,9 @@ int first(void)";
     old_start := 30; old_count := 9; new_start := 30; new_count := 9;
     function_context := "int first(void)";
     lines := [ "   int a;"; "-  return 0;"; "+  return 1;"; " }"; " ";
                " int second(int n)"; " {"; "-  bar();"; "+  baz();";
                "   return n;"; " }" ];
     hunk_diffinfo := None |}.

(** The pair of slots [i], [j] may be merged: both hold a group, the combined
    size is within the similarity cap, and the overlap ratio of their
    function sets reaches the threshold. *)
Definition qualifies (working_groups : list (option FileGroup))
    (working_funcs : list (gset string)) (i j : nat) : Prop :=
  exists gi gj,
    working_groups !! i = Some (Some gi)
    /\ working_groups !! j = Some (Some gj)
    /\ (g_total_lines gi + g_total_lines gj <= MAX_SIMILARITY_COMBINED_LINES)%Z
    /\ (MIN_FUNCTION_OVERLAP_RATIO
        <= calculate_function_overlap (default ∅ (working_funcs !! i))
             (default ∅ (working_funcs !! j)))%Q.

(** One turn of the loop of the similarity pass. *)
Definition similarity_step
    (s s' : list (option FileGroup) * list (gset string)) : Prop :=
  exists i j,
    find_best_pair s.1 s.2 = Some (i, j)
    /\ merge_pair s.1 s.2 i j = Ok s'.

(** The turn from [s] to [s'] merges the groups [gi] and [gj] of the slots
    [i] and [j]: this is the pair that the search returns on [s], and [s']
    is [s] with the merged group in slot [i], nothing in slot [j], and the
    function sets of the two groups united in slot [i]. *)
Definition turn_merges (h : store)
    (s s' : list (option FileGroup) * list (gset string))
    (i j : nat) (gi gj merged : FileGroup) : Prop :=
  i < j
  /\ find_best_pair s.1 s.2 = Some (i, j)
  /\ s.1 !! i = Some (Some gi)
  /\ s.1 !! j = Some (Some gj)
  /\ merge_groups gi gj = Ok merged
  /\ g_changes merged = g_changes gi ++ g_changes gj
  /\ g_total_lines merged = (g_total_lines gi + g_total_lines gj)%Z
  /\ s' = (<[j := None]> (<[i := Some merged]> s.1),
           <[j := ∅]>
             (<[i := extract_group_functions h gi
                     ∪ extract_group_functions h gj]> s.2)).

(** The slots that hold a group. *)
Definition live (working_groups : list (option FileGroup)) : list FileGroup :=
  omap id working_groups.

Definition all_changes (groups : list FileGroup) : list nat :=
  concat (map g_changes groups).

Definition sum_lines (groups : list FileGroup) : Z :=
  foldr (fun g n => (g_total_lines g + n)%Z) 0%Z groups.

Definition stage_changes (groups : list StageGroup) : list nat :=
  concat (map sg_changes groups).

Definition stage_lines (groups : list StageGroup) : Z :=
  foldr (fun g n => (sg_total_lines g + n)%Z) 0%Z groups.

(** Two stores hold the same changes up to their numbering. *)
Definition same_changes (h h' : store) : Prop :=
  forall a, set_numbers 0 0 <$> h' !! a = set_numbers 0 0 <$> h !! a.

(** The groups name at least one file. *)
Definition has_files (g : FileGroup) : Prop := group_files g <> [].

(** The invariant of the loop of the similarity pass: the two working lists
    run in parallel, every group names a file, and the function set kept for
    a group is the set of the functions of its changes. *)
Definition working_ok (h : store)
    (s : list (option FileGroup) * list (gset string)) : Prop :=
  length s.2 = length s.1
  /\ forall i g, s.1 !! i = Some (Some g) ->
       has_files g /\ s.2 !! i = Some (extract_group_functions h g).

(** What numbering keeps of a group. *)
Definition same_group (g g0 : FileGroup) : Prop :=
  g_changes g = g_changes g0
  /\ g_total_lines g = g_total_lines g0
  /\ g_file g = g_file g0
  /\ g_files g = g_files g0.

(** Sample changes and groups for the similarity pass. *)
Definition change_of (path func : string) (n : Z) : Change :=
  {| file_num := 0; change_num := 0; file := path; function := func;
     hunk_header := "-1,2 +1,3"; hunk_content := EmptyString;
     total_lines := n; change_diffinfo := None; definition := None |}.

Definition group_at (path : string) (n : Z) (changes : list nat) : FileGroup :=
  {| g_file_num := None; g_file := OneFile path; g_files := Some [path];
     g_changes := changes; g_total_lines := n |}.

(** Three groups that touch the same function [f]: the first and the second
    fit the similarity cap together, and so do the first and the third, but
    not all three. *)
Definition same_symbol_store : store :=
  list_to_map [ (0, change_of "a.c" "f" 200); (1, change_of "b.c" "f" 250);
                (2, change_of "c.c" "f" 200) ].

Definition same_symbol_groups : list FileGroup :=
  [ group_at "a.c" 200 [0]; group_at "b.c" 250 [1]; group_at "c.c" 200 [2] ].

(** Two groups with disjoint function sets, [f] and [g], and a third group
    that touches both functions. *)
Definition bridge_store : store :=
  list_to_map [ (0, change_of "a.c" "f" 10); (1, change_of "b.c" "g" 10);
                (2, change_of "c.c" "f, g" 10) ].

Definition bridge_groups : list FileGroup :=
  [ group_at "a.c" 10 [0]; group_at "b.c" 10 [1]; group_at "c.c" 10 [2] ].

(** Small groups of the first grouping stage. *)
Definition small_stage_groups : list StageGroup :=
  [ {| sg_file_num := 1; sg_file := "a.c"; sg_changes := [0]; sg_total_lines := 200 |};
    {| sg_file_num := 2; sg_file := "b.c"; sg_changes := [1]; sg_total_lines := 40 |};
    {| sg_file_num := 3; sg_file := "c.c"; sg_changes := [2]; sg_total_lines := 200 |} ].

(** * More of the program: vocabulary and sample inputs *)

(** A function whose body is longer than the walk-back window would need. *)
Definition windowed_lines : list string :=
  ["int top(void)"; "{"; "  int x;"; "  x = 1;"; "}"].

(** ** Well-formed diffs *)

(** A diff as its blocks: a file is a [diff --git] line, the lines up to its
    first hunk, and its hunks; a hunk is a [@@] line and the lines up to the
    next header. *)
Record DHunk := {
  dh_header : string;
  dh_body : list string
}.

Record DFile := {
  df_header : string;
  df_preamble : list string;
  df_hunks : list DHunk
}.

Definition render_hunk (h : DHunk) : list string := dh_header h :: dh_body h.

Definition render_file (f : DFile) : list string :=
  df_header f :: df_preamble f ++ concat (map render_hunk (df_hunks f)).

Definition render_diff (d : list DFile) : list string :=
  concat (map render_file d).

(** A line that is neither a file header nor a hunk header. *)
Definition plain_line (line : string) : Prop :=
  startswith line "diff --git " = false /\ startswith line "@@ " = false.

Definition file_header_line (line : string) : Prop :=
  startswith line "diff --git " = true /\ is_Some (match_ P_file line).

(** The four numbers of a hunk header have at most 4300 digits each, so
    that their conversion does not raise. *)
Definition numbers_fit (m : result) : Prop :=
  Forall (fun n => String.length (group_str m n) <= MAX_STR_DIGITS)
    [1; 2; 3; 4].

Definition hunk_header_line (line : string) : Prop :=
  startswith line "@@ " = true
  /\ exists m, match_ P_hunk line = Some m /\ numbers_fit m.

Definition wf_hunk (h : DHunk) : Prop :=
  hunk_header_line (dh_header h) /\ Forall plain_line (dh_body h).

Definition wf_file (f : DFile) : Prop :=
  file_header_line (df_header f)
  /\ Forall plain_line (df_preamble f)
  /\ Forall wf_hunk (df_hunks f).

(** The [Hunk] and the [FileChange] that the tokenizer is expected to build
    from a block. *)
Definition hunk_with_lines (h : Hunk) (ls : list string) : Hunk :=
  {| header := header h; old_start := old_start h; old_count := old_count h;
     new_start := new_start h; new_count := new_count h;
     function_context := function_context h;
     lines := lines h ++ ls;
     hunk_diffinfo := hunk_diffinfo h |}.

(** The [Hunk] that a hunk header opens, when it opens one. *)
Definition opened_hunk (di : option DiffInfo) (line : string) : option Hunk :=
  match match_ P_hunk line with
  | Some m =>
      match new_hunk line m di with
      | Ok h => Some h
      | Raise _ => None
      end
  | None => None
  end.

Definition expected_hunk (di : option DiffInfo) (h : DHunk) : list Hunk :=
  match opened_hunk di (dh_header h) with
  | Some hk =>
      [hunk_with_lines hk (List.filter is_content_line (dh_body h))]
  | None => []
  end.

Definition expected_file (di : option DiffInfo) (f : DFile) : list FileChange :=
  match match_ P_file (df_header f) with
  | Some m =>
      [{| old_path := group_str m 1; new_path := group_str m 2;
          hunks := df_hunks f ≫= expected_hunk di |}]
  | None => []
  end.

Definition expected_diff (di : option DiffInfo) (d : list DFile)
  : list FileChange :=
  d ≫= expected_file di.

(** ** The tokenizer without the store *)

(** The state of the tokenizer by value: the files that are closed, the file
    that is open, with its closed hunks, and the hunk that is open. *)
Record vstate := {
  v_done : list FileChange;
  v_file : option FileChange;
  v_hunk : option Hunk
}.

Definition vinit : vstate := {| v_done := []; v_file := None; v_hunk := None |}.

Definition file_with_hunk (f : FileChange) (o : option Hunk) : FileChange :=
  match o with
  | Some h => {| old_path := old_path f; new_path := new_path f;
                 hunks := hunks f ++ [h] |}
  | None => f
  end.

(** One line, when the line is a header that parses or no header at all. *)
Definition vstep (di : option DiffInfo) (s : vstate) (line : string) : vstate :=
  if startswith line "diff --git " then
    match match_ P_file line with
    | Some m =>
        {| v_done :=
             v_done s
             ++ match v_file s with
                | Some f => [file_with_hunk f (v_hunk s)]
                | None => []
                end;
           v_file := Some {| old_path := group_str m 1;
                             new_path := group_str m 2; hunks := [] |};
           v_hunk := None |}
    | None => s
    end
  else if startswith line "@@ " then
    match opened_hunk di line with
    | Some h =>
        {| v_done := v_done s;
           v_file := (fun f => file_with_hunk f (v_hunk s)) <$> v_file s;
           v_hunk := Some h |}
    | None => s
    end
  else
    {| v_done := v_done s;
       v_file := v_file s;
       v_hunk := (fun h => if is_content_line line
                           then hunk_append_line line h else h) <$> v_hunk s |}.

Definition vfinish (s : vstate) : list FileChange :=
  v_done s
  ++ match v_file s with
     | Some f => [file_with_hunk f (v_hunk s)]
     | None => []
     end.

(** A header line parses, and the numbers of a hunk header convert. *)
Definition headers_parse (line : string) : Prop :=
  (startswith line "diff --git " = true -> is_Some (match_ P_file line))
  /\ (startswith line "diff --git " = false -> startswith line "@@ " = true ->
      exists m, match_ P_hunk line = Some m /\ numbers_fit m).

Definition deref_file (st : tokenizer) (f : FileObj) : FileChange :=
  {| old_path := fo_old_path f; new_path := fo_new_path f;
     hunks := omap (fun h => hunk_store st !! h) (fo_hunks f) |}.

(** The store state [st] represents the value state [s]: the files listed
    read as the closed files, the cursors point to the open file and the
    open hunk, the open file is not listed yet and the open hunk is in no
    file yet, and every address is allocated. *)
Definition represents (st : tokenizer) (s : vstate) : Prop :=
  read_files st = v_done s
  /\ (forall a, a ∈ files st -> a < length (file_store st))
  /\ (forall k fobj a, file_store st !! k = Some fobj -> a ∈ fo_hunks fobj ->
        a < length (hunk_store st))
  /\ match v_file s with
     | Some fc =>
         exists f fobj,
           current_file st = Some f /\ (f ∉ files st)
           /\ file_store st !! f = Some fobj /\ fc = deref_file st fobj
     | None => current_file st = None
     end
  /\ match v_hunk s with
     | Some h =>
         exists a,
           current_hunk st = Some a /\ hunk_store st !! a = Some h
           /\ forall k fobj, file_store st !! k = Some fobj -> a ∉ fo_hunks fobj
     | None => current_hunk st = None
     end.

(** The tokenizer state with its hunk cursor cleared. *)
Definition without_hunk (st : tokenizer) : tokenizer :=
  {| hunk_store := hunk_store st; file_store := file_store st;
     files := files st; current_file := current_file st;
     current_hunk := None |}.

Definition vclose (s : vstate) : vstate :=
  {| v_done := v_done s;
     v_file := (fun f => file_with_hunk f (v_hunk s)) <$> v_file s;
     v_hunk := None |}.

(** A string that holds no line break. *)
Definition single_line (s : string) : Prop := contains nl s = false.

Definition add_hunks (f : FileChange) (hs : list Hunk) : FileChange :=
  {| old_path := old_path f; new_path := new_path f; hunks := hunks f ++ hs |}.

(** The open file with the open hunk filed: what the file will read as when
    the next header closes the hunk. *)
Definition closed_file (s : vstate) : option FileChange :=
  (fun f => file_with_hunk f (v_hunk s)) <$> v_file s.

(** A diff of two files; the second has two hunks, an index line that no
    hunk keeps and the marker of a missing final line break. *)
Definition first_file : DFile :=
  {| df_header := "diff --git a/a.c b/a.c";
     df_preamble := ["--- a/a.c"; "+++ b/a.c"];
     df_hunks :=
       [ {| dh_header := "@@ -1,3 +1,3 @@ int a(void)";
            dh_body := [" {"; "-  return 0;"; "+  return 1;"; " }"] |} ] |}.

Definition second_file : DFile :=
  {| df_header := "diff --git a/b.c b/b.c";
     df_preamble := ["index 1..2 100644"; "--- a/b.c"; "+++ b/b.c"];
     df_hunks :=
       [ {| dh_header := "@@ -4 +4 @@";
            dh_body := ["-x"; "+y"] |};
         {| dh_header := "@@ -9,2 +9,3 @@ int b(void)";
            dh_body := [" }"; ""; "+int c;"; "\ No newline at end of file"] |} ] |}.

Definition two_file_diff : list DFile := [first_file; second_file].

(** ** A text that ends with a line break *)

(** [l] with [g] applied to its last element. *)
Fixpoint on_last {A : Type} (g : A -> A) (l : list A) : list A :=
  match l with
  | [] => []
  | x :: l' =>
      match l' with
      | [] => [g x]
      | _ :: _ => x :: on_last g l'
      end
  end.

Definition body_snoc (line : string) (h : DHunk) : DHunk :=
  {| dh_header := dh_header h; dh_body := dh_body h ++ [line] |}.

(** One more line at the end of a file block: in its last hunk, or before
    the hunks when it has none. *)
Definition file_snoc (line : string) (f : DFile) : DFile :=
  match df_hunks f with
  | [] => {| df_header := df_header f;
             df_preamble := df_preamble f ++ [line];
             df_hunks := [] |}
  | _ :: _ => {| df_header := df_header f;
                 df_preamble := df_preamble f;
                 df_hunks := on_last (body_snoc line) (df_hunks f) |}
  end.

Definition diff_snoc (line : string) (d : list DFile) : list DFile :=
  on_last (file_snoc line) d.

Definition on_last_hunk (g : Hunk -> Hunk) (f : FileChange) : FileChange :=
  {| old_path := old_path f; new_path := new_path f;
     hunks := on_last g (hunks f) |}.

(** ** A file header that does not parse *)

(** A [diff --git] line that the pattern of [parse_diff] does not match,
    such as the header git writes for a path that it quotes. *)
Definition bad_file_header (line : string) : Prop :=
  startswith line "diff --git " = true /\ match_ P_file line = None.

Definition with_files (fl : list nat) (st : tokenizer) : tokenizer :=
  {| hunk_store := hunk_store st; file_store := file_store st;
     files := fl; current_file := current_file st;
     current_hunk := current_hunk st |}.

Definition with_more_hunks (f : DFile) (hs : list DHunk) : DFile :=
  {| df_header := df_header f; df_preamble := df_preamble f;
     df_hunks := df_hunks f ++ hs |}.

(** The header and the hunk of a third file, whose name git quotes. *)
Definition quoted_header : string :=
  "diff --git " +:+ quoted "a/caf\303\251.c" +:+ " " +:+ quoted "b/caf\303\251.c".

Definition no_file_header (line : string) : Prop :=
  startswith line "diff --git " = false.

Definition late_hunk : DHunk :=
  {| dh_header := "@@ -1 +1 @@"; dh_body := ["-a"; "+b"] |}.

(** ** Greedy batches under a cap *)

Section greedy.
Context {A : Type} (weight : A -> Z) (cap : Z).

Definition total_weight (l : list A) : Z :=
  foldr (fun x n => (weight x + n)%Z) 0%Z l.

(** The batches that a loop forms which starts a new batch when the running
    total is positive and the next element would push it over the cap. *)
Fixpoint greedy_batches (cur xs : list A) : list (list A) :=
  match xs with
  | [] => match cur with [] => [] | _ :: _ => [cur] end
  | x :: xs' =>
      if ((0 <? total_weight cur) && (cap <? total_weight cur + weight x))%Z
      then cur :: greedy_batches [x] xs'
      else greedy_batches (cur ++ [x]) xs'
  end.

(** Each batch after the first starts with an element that did not fit in
    the batch before. *)
Inductive each_started_full : list (list A) -> Prop :=
| started_full_nil : each_started_full []
| started_full_one b : each_started_full [b]
| started_full_cons b x q rest :
    (cap < total_weight b + weight x)%Z ->
    each_started_full ((x :: q) :: rest) ->
    each_started_full (b :: (x :: q) :: rest).

End greedy.

(** The accumulators after the new functions of [b] were added, and the
    entry that their flush appends. *)
Definition new_batch_of (b : list new_segment) : new_batch :=
  foldl new_batch_add empty_new_batch b.

Definition new_entry_of (b : list new_segment) : change_entry :=
  let hs := map (fun s => header_part (ns_header s)) b in
  {| ce_function := join ", " (map ns_function b);
     ce_header := match hs with [h] => h | _ => join " + " hs end;
     ce_content := join blank_line (map ns_content b);
     ce_total_lines := total_weight ns_total b;
     ce_diffinfo := merge_diffinfo (map ns_diffinfo b) |}.

(** ** The FILE-N groups *)

Definition entry_of_change (c : Change) : change_entry :=
  {| ce_function := function c; ce_header := hunk_header c;
     ce_content := hunk_content c; ce_total_lines := total_lines c;
     ce_diffinfo := change_diffinfo c |}.

(** The groups that the entries call for: for each path in sorted order, the
    greedy batches of its entries under [MAX_LINES_PER_FILE]. *)
Definition file_batches (changes_by_file : list (string * list change_entry))
    (file_path : string) : list (string * list change_entry) :=
  map (pair file_path)
    (greedy_batches ce_total_lines MAX_LINES_PER_FILE []
       (entries_at changes_by_file file_path)).

Definition expected_groups (changes_by_file : list (string * list change_entry))
  : list (string * list change_entry) :=
  sorted_keys changes_by_file ≫= file_batches changes_by_file.

(** The numbers of the new range of a hunk header have at most 4300 digits
    each, so that [parse_hunk_line_numbers] converts them. *)
Definition range_fits (hunk_header : string) : bool :=
  match search P_new_range hunk_header with
  | Some m =>
      (String.length (group_str m 1) <=? MAX_STR_DIGITS)
      && (String.length (group_str m 2) <=? MAX_STR_DIGITS)
  | None => true
  end.



Section grouping_spec.
Variable use_semcode : bool.
Variable read_lines : option string -> string -> option (list string).
Variable git_dir : option string.

(** The definition of the entry is not looked up, or the numbers of its
    header convert. *)
Definition converts (e : change_entry) : Prop :=
  use_semcode = true \/ range_fits (ce_header e) = true.

Definition all_convert (changes_by_file : list (string * list change_entry))
  : Prop :=
  Forall (fun pe => Forall converts pe.2) changes_by_file.

(** The object at address [a] is the [Change] made from the entry [e] of
    the file [p], with the numbers [n] and [k + 1]. *)
Definition change_at (h : store) (p : string) (n : Z) (k a : nat)
    (e : change_entry) : Prop :=
  exists c,
    h !! a = Some c
    /\ entry_of_change c = e
    /\ file c = p
    /\ file_num c = n
    /\ change_num c = (Z.of_nat k + 1)%Z
    /\ change_definition use_semcode read_lines git_dir p e = Ok (definition c).

Definition changes_hold (h : store) (p : string) (n : Z) (addrs : list nat)
    (es : list change_entry) : Prop :=
  length addrs = length es
  /\ forall k a e, addrs !! k = Some a -> es !! k = Some e ->
                   change_at h p n k a e.

Definition group_holds (h : store) (i : nat) (g : StageGroup)
    (pb : string * list change_entry) : Prop :=
  sg_file g = pb.1
  /\ sg_file_num g = (Z.of_nat i + 1)%Z
  /\ sg_total_lines g = total_weight ce_total_lines pb.2
  /\ changes_hold h pb.1 (Z.of_nat i + 1) (sg_changes g) pb.2.

Definition groups_hold (h : store) (groups : list StageGroup)
    (expected : list (string * list change_entry)) : Prop :=
  length groups = length expected
  /\ forall i g pb, groups !! i = Some g -> expected !! i = Some pb ->
                    group_holds h i g pb.

(** The invariant of the loops. *)
Definition flushed (s : stage) (done : list (string * list change_entry))
  : Prop :=
  groups_hold (sa_store s) (sa_file_groups s) done
  /\ sa_file_num s = (Z.of_nat (length (sa_file_groups s)) + 1)%Z.

Definition filling (s : stage) (p : string) (cur : list change_entry) : Prop :=
  changes_hold (sa_store s) p (sa_file_num s) (sa_group_changes s) cur
  /\ sa_group_lines s = total_weight ce_total_lines cur
  /\ sa_change_num s = (Z.of_nat (length cur) + 1)%Z
  /\ stage_changes (sa_file_groups s) ++ sa_group_changes s
     = seq 0 (sa_next s).

(** Between two files: the groups are flushed and hold every object. *)
Definition between_files (s : stage)
    (done : list (string * list change_entry)) : Prop :=
  flushed s done /\ stage_changes (sa_file_groups s) = seq 0 (sa_next s).

End grouping_spec.

(** Entries of two files; the second and the third of [a.c] do not fit in
    one group. *)
Definition sample_entry (name : string) (n : Z) : change_entry :=
  {| ce_function := name; ce_header := "-1,2 +1,3"; ce_content := "+x";
     ce_total_lines := n; ce_diffinfo := None |}.

Definition sample_entries : list (string * list change_entry) :=
  [ ("b.c", [sample_entry "g" 300]);
    ("a.c", [sample_entry "f1" 100; sample_entry "f2" 100;
             sample_entry "f3" 100]) ].

(** ** The coalescing pass *)

(** The runs of consecutive groups that the coalescing loop combines: a
    group joins the run when the lines of the run and its own stay within
    [MAX_COMBINED_FILE_GROUP_LINES]. *)
Fixpoint coalesce_runs (cur gs : list StageGroup) : list (list StageGroup) :=
  match gs with
  | [] => match cur with [] => [] | _ :: _ => [cur] end
  | g :: gs' =>
      match cur with
      | [] => coalesce_runs [g] gs'
      | _ :: _ =>
          if (stage_lines cur + sg_total_lines g
              <=? MAX_COMBINED_FILE_GROUP_LINES)%Z
          then coalesce_runs (cur ++ [g]) gs'
          else cur :: coalesce_runs [g] gs'
      end
  end.

Definition combined_of (run : list StageGroup) : combined_acc :=
  {| ca_files := map sg_file run; ca_changes := stage_changes run;
     ca_total_lines := stage_lines run |}.

Definition pending (cur : list StageGroup) : option combined_acc :=
  match cur with
  | [] => None
  | _ :: _ => Some (combined_of cur)
  end.

(** The group that the pass makes of a run, but for its number. *)
Definition group_of_run (g : FileGroup) (run : list StageGroup) : Prop :=
  g_changes g = stage_changes run
  /\ g_total_lines g = stage_lines run
  /\ g_files g = Some (map sg_file run)
  /\ g_file g = match map sg_file run with
                | [f] => OneFile f
                | fs => FileList fs
                end.

(** ** The numbers of the changes *)

(** The change of index [k] in the group of index [i] is the object that it
    was in [h], with the numbers [i + 1] and [k + 1], and the group has the
    number [i + 1]. *)
Definition numbered (h h' : store) (groups : list FileGroup) : Prop :=
  forall i g, groups !! i = Some g ->
    g_file_num g = Some (Z.of_nat i + 1)%Z
    /\ forall k a, g_changes g !! k = Some a ->
         h' !! a = set_numbers (Z.of_nat i + 1) (Z.of_nat k + 1) <$> h !! a.

(** ** The segments of a hunk *)





(** ** Merging the facts of the hunks of a change *)


(** ** The hunks of any text *)




(** ** Filing the segments *)







(** ** The numbers of the changes of a diff *)



(** ** The hunks of a diff, read back *)






(** * Properties *)

(** ** The resolver never raises *)

Lemma py_index_Ok {A} (l : list A) (i : Z) :
  (0 <= i < len l)%Z -> exists x, py_index l i = Ok x.
Proof.
  intros [H0 H1]. unfold py_index, len in *.
  destruct (i <? 0)%Z eqn:E; [lia|].
  replace ((0 <=? i)%Z && (i <? Z.of_nat (length l))%Z) with true
    by (symmetry; apply andb_true_iff; split; [apply Z.leb_le | apply Z.ltb_lt]; lia).
  destruct (l !! Z.to_nat i) eqn:El; [eauto|].
  apply lookup_ge_None in El. lia.
Qed.

Lemma is_false_positive_python_Ok (line : string) :
  exists b, is_false_positive_python line = Ok b.
Proof.
  unfold is_false_positive_python. destruct line as [|c line]; simpl; [eauto|].
  repeat (match goal with |- context [if ?b then _ else _] => destruct b end;
          simpl; eauto).
Qed.

Lemma brace_lookahead_Ok (lines : list string) (js : list Z) :
  Forall (fun j => 0 <= j)%Z js -> exists b, brace_lookahead lines js = Ok b.
Proof.
  induction 1 as [|j js Hj _ IH]; simpl; [eauto|].
  destruct (len lines <=? j)%Z eqn:E; [eauto|].
  apply Z.leb_gt in E.
  destruct (py_index_Ok lines j) as [x ->]; [lia|]. simpl.
  repeat (match goal with |- context [if ?b then _ else _] => destruct b end;
          simpl; eauto).
Qed.

Lemma range_lower (a b : Z) : Forall (fun j => a <= j < b)%Z (range a b).
Proof.
  unfold range. apply Forall_forall. intros j Hj.
  apply list_elem_of_In, in_map_iff in Hj as (k & <- & Hk). apply in_seq in Hk. lia.
Qed.

Lemma range_down_bounds (a b : Z) :
  Forall (fun j => b < j <= a)%Z (range_down a b).
Proof.
  unfold range_down. apply Forall_forall. intros j Hj.
  apply list_elem_of_In, in_map_iff in Hj as (k & <- & Hk). apply in_seq in Hk. lia.
Qed.

Lemma is_function_definition_python_Ok (line : string) (lines : list string)
    (line_idx : Z) :
  (0 <= line_idx)%Z ->
  exists b, is_function_definition_python line lines line_idx = Ok b.
Proof.
  intros H. unfold is_function_definition_python.
  repeat (match goal with |- context [if ?b then _ else _] => destruct b end;
          simpl; eauto).
  apply brace_lookahead_Ok.
  eapply Forall_impl; [apply range_lower|]. simpl. intros; lia.
Qed.

Lemma walk_back_Ok (lines : list string) (idxs : list Z) :
  exists r, walk_back lines idxs = Ok r.
Proof.
  induction idxs as [|i idxs IH]; simpl; [eauto|].
  destruct ((i <? 0)%Z || (len lines <=? i)%Z) eqn:E; [exact IH|].
  apply orb_false_iff in E as [E1 E2].
  apply Z.ltb_ge in E1. apply Z.leb_gt in E2.
  destruct (py_index_Ok lines i) as [line ->]; [lia|]. simpl.
  destruct (_ || _); [exact IH|].
  destruct (is_false_positive_python_Ok line) as [fp ->]. simpl.
  destruct fp; [exact IH|].
  destruct (is_function_definition_python_Ok line lines i E1) as [fd ->]. simpl.
  destruct fd; [eauto|].
  destruct (is_type_definition_python line); [eauto|].
  destruct (startswith _ _); [eauto|].
  destruct line as [|c line]; simpl; [exact IH|].
  destruct (isspace c); exact IH.
Qed.

Lemma find_symbol_for_line_python_Ok (lines : list string) (line_idx : Z) :
  (0 <= line_idx)%Z ->
  exists r, find_symbol_for_line_python lines line_idx = Ok r.
Proof.
  intros H. unfold find_symbol_for_line_python.
  destruct (len lines <=? line_idx)%Z eqn:E; [eauto|].
  apply Z.leb_gt in E.
  replace (line_idx <? len lines)%Z with true by (symmetry; apply Z.ltb_lt; lia).
  destruct (py_index_Ok lines line_idx) as [x ->]; [lia|]. simpl.
  repeat (match goal with |- context [if ?b then _ else _] => destruct b end;
          simpl; eauto).
  apply walk_back_Ok.
Qed.

Lemma no_keyword_union (s t : gset string) :
  no_keyword s -> no_keyword t -> no_keyword (s ∪ t).
Proof. intros Hs Ht c Hc. apply elem_of_union in Hc as [H|H]; auto. Qed.

Lemma no_keyword_empty : no_keyword ∅.
Proof. intros c H. by apply not_elem_of_empty in H. Qed.

Lemma extract_function_calls_python_no_keyword (line : string) :
  no_keyword (extract_function_calls_python line).
Proof.
  unfold extract_function_calls_python.
  destruct (_ || _); [apply no_keyword_empty|].
  generalize (finditer P_call (strip line)).
  assert (H : no_keyword ∅) by apply no_keyword_empty. revert H.
  generalize (∅ : gset string) as acc.
  intros acc H l. revert acc H.
  induction l as [|m l IH]; intros acc H; simpl; [exact H|].
  apply IH. destruct (group 1 (groups m)) as [name|]; [|exact H].
  case_bool_decide as Hk; [exact H|].
  apply no_keyword_union; [exact H|].
  intros c Hc. apply elem_of_singleton in Hc as ->. exact Hk.
Qed.

Lemma calls_ok_empty : calls_ok ∅.
Proof. intros F s H. rewrite lookup_empty in H. discriminate. Qed.

Lemma calls_update_ok (fc : gmap string (gset string)) (k : string)
    (s : gset string) :
  calls_ok fc -> k ∉ s -> no_keyword s -> calls_ok (calls_update fc k s).
Proof.
  intros Hfc Hk Hs F t. unfold calls_update.
  destruct (decide (k = F)) as [->|Hne].
  - rewrite lookup_insert_eq. intros [= <-].
    destruct (fc !! F) as [old|] eqn:E; simpl.
    + destruct (Hfc F old E) as [H1 H2]. split.
      * intros Hin. apply elem_of_union in Hin as [?|?]; auto.
      * apply no_keyword_union; auto.
    + split.
      * intros Hin. apply elem_of_union in Hin as [Hin|?]; [|auto].
        by apply not_elem_of_empty in Hin.
      * apply no_keyword_union; auto using no_keyword_empty.
  - rewrite lookup_insert_ne by assumption. apply Hfc.
Qed.

Lemma attribute_to_ok (fc : gmap string (gset string)) (name : string)
    (calls : gset string) :
  calls_ok fc -> no_keyword calls -> calls_ok (attribute_to fc name calls).
Proof.
  intros Hfc Hc. unfold attribute_to. case_bool_decide; [exact Hfc|].
  apply calls_update_ok; [exact Hfc| |].
  - intros Hin. apply elem_of_difference in Hin as [_ Hin].
    apply Hin. by apply elem_of_singleton.
  - intros c Hin. apply elem_of_difference in Hin as [Hin _]. by apply Hc.
Qed.

Lemma dict_set_Forall {V} (P : Z * V -> Prop) (d : list (Z * V)) (k : Z) (v : V) :
  Forall P d -> P (k, v) -> Forall P (dict_set d k v).
Proof.
  intros Hd Hkv. induction Hd as [|[k' v'] d Hx Hd IH]; simpl.
  - constructor; auto.
  - destruct (k' =? k)%Z; constructor; auto.
Qed.

Lemma scan_line_ok (st : hunk_scan) (line : string) :
  scan_ok st -> scan_ok (scan_line st line).
Proof.
  intros (H1 & H2 & H3). unfold scan_line.
  destruct (_ && _).
  { repeat split; simpl; [lia| |].
    - intros i Hi. apply elem_of_union in Hi as [Hi|Hi]; [auto|].
      apply elem_of_singleton in Hi. lia.
    - case_bool_decide; [exact H3|]. apply dict_set_Forall; [exact H3|].
      split; [exact H1|apply extract_function_calls_python_no_keyword]. }
  destruct (_ && _).
  { repeat split; simpl; [lia| |exact H3].
    intros i Hi. apply elem_of_union in Hi as [Hi|Hi]; [auto|].
    apply elem_of_singleton in Hi. lia. }
  destruct (_ || _); [|repeat split; auto].
  repeat split; simpl; [lia|auto|exact H3].
Qed.

Lemma scan_hunk_ok (st : hunk_scan) (body : list string) :
  scan_ok st -> scan_ok (scan_hunk st body).
Proof.
  revert st. induction body as [|line body IH]; intros st H; simpl; [exact H|].
  destruct (_ || _); [exact H|]. apply IH, scan_line_ok, H.
Qed.

Lemma walkback_symbols_Ok (lines : list string) (modified : list Z)
    (symbols : gset string) :
  Forall (fun i => 0 <= i)%Z modified ->
  exists s, walkback_symbols lines modified symbols = Ok s.
Proof.
  intros H. revert symbols.
  induction H as [|i modified Hi _ IH]; intros symbols; simpl; [eauto|].
  destruct (find_symbol_for_line_python_Ok lines i Hi) as [r ->]. simpl.
  destruct (truthy r); [|apply IH].
  destruct (truthy _); apply IH.
Qed.

Lemma attribute_calls_ok (hunk_lines : list string) (hdr : option string)
    (fc : gmap string (gset string)) (line_idx : Z) (calls : gset string) :
  (0 <= line_idx)%Z -> calls_ok fc -> no_keyword calls ->
  exists fc', attribute_calls hunk_lines hdr fc line_idx calls = Ok fc'
              /\ calls_ok fc'.
Proof.
  intros Hi Hfc Hc. unfold attribute_calls.
  destruct (find_symbol_for_line_python_Ok hunk_lines line_idx Hi) as [r ->].
  simpl. destruct (truthy r).
  - destruct (truthy _); eauto using attribute_to_ok.
  - destruct (truthy hdr); eauto using attribute_to_ok.
Qed.

Lemma attribute_all_ok (hunk_lines : list string) (hdr : option string)
    (fc : gmap string (gset string)) (items : list (Z * gset string)) :
  Forall (fun ic => (0 <= ic.1)%Z /\ no_keyword ic.2) items -> calls_ok fc ->
  exists fc', attribute_all hunk_lines hdr fc items = Ok fc' /\ calls_ok fc'.
Proof.
  intros H. revert fc.
  induction H as [|[i calls] items [Hi Hc] _ IH]; intros fc Hfc; simpl; [eauto|].
  destruct (attribute_calls_ok hunk_lines hdr fc i calls Hi Hfc Hc)
    as (fc1 & -> & Hfc1). simpl. apply IH, Hfc1.
Qed.

Lemma classify_symbols_calls (result : DiffParseResult) (symbols : list string) :
  function_calls (foldl classify_symbol result symbols) = function_calls result.
Proof.
  revert result. induction symbols as [|s symbols IH]; intros result; simpl; [done|].
  rewrite IH. unfold classify_symbol.
  repeat (match goal with |- context [if ?b then _ else _] => destruct b end;
          simpl; try done).
Qed.

Lemma parse_hunk_ok (hunk_header : string) (body : list string) :
  exists r, parse_hunk hunk_header body = Ok r /\ calls_ok (function_calls r).
Proof.
  unfold parse_hunk.
  set (st := scan_hunk _ body).
  assert (Hst : scan_ok st).
  { apply scan_hunk_ok. repeat split; simpl; [lia| |constructor].
    intros i Hi. by apply not_elem_of_empty in Hi. }
  destruct Hst as (H1 & H2 & H3).
  destruct (hunk_lines st) as [|l0 ls] eqn:El.
  { eexists; split; [reflexivity|]. simpl. apply calls_ok_empty. }
  unfold extract_symbols_by_walkback_python.
  destruct (walkback_symbols_Ok (l0 :: ls) (elements (modified_line_indices st)) ∅)
    as [syms ->].
  { apply Forall_forall. intros i Hi. apply H2. by apply elem_of_elements. }
  simpl. rewrite classify_symbols_calls. simpl.
  destruct (attribute_all_ok (l0 :: ls) (extract_function_from_hunk_header hunk_header)
              ∅ (line_to_calls st) H3 calls_ok_empty) as (fc & -> & Hfc).
  simpl. eexists; split; [reflexivity|]. exact Hfc.
Qed.

Lemma merge_hunk_result_ok (result hunk_result : DiffParseResult) :
  calls_ok (function_calls result) -> calls_ok (function_calls hunk_result) ->
  calls_ok (function_calls (merge_hunk_result result hunk_result)).
Proof.
  intros Hr Hh. unfold merge_hunk_result. simpl.
  assert (Hl : Forall (fun kv => (kv.1 ∉ kv.2) /\ no_keyword kv.2)
                 (map_to_list (function_calls hunk_result))).
  { apply Forall_forall. intros [k v] Hkv.
    apply elem_of_map_to_list in Hkv. apply (Hh k v Hkv). }
  revert Hl Hr. generalize (function_calls result) as fc.
  generalize (map_to_list (function_calls hunk_result)) as l.
  induction l as [|[k v] l IH]; intros fc Hl Hfc; simpl; [exact Hfc|].
  inversion Hl as [|? ? [Hk Hv] Hl']; subst.
  apply IH; [exact Hl'|]. apply calls_update_ok; auto.
Qed.

Lemma scan_diff_ok (mode : scan_mode) (lines : list string)
    (result : DiffParseResult) :
  calls_ok (function_calls result) ->
  exists r, scan_diff mode lines result = Ok r /\ calls_ok (function_calls r).
Proof.
  revert mode result.
  induction lines as [|line rest IH]; intros mode result Hr; simpl; [eauto|].
  assert (Houter :
    exists r,
      (if startswith line "+++"
          && existsb (fun ext => contains ext line) c_extensions
       then scan_diff InFile rest result
       else scan_diff Outer rest result) = Ok r
      /\ calls_ok (function_calls r)).
  { destruct (_ && _); apply IH, Hr. }
  assert (Hin :
    exists r,
      (if startswith line "@@" then
         hunk_result ← parse_hunk_python (line :: rest) 0;
         scan_diff SkipHunk rest (merge_hunk_result result hunk_result)
       else if startswith line "---" || startswith line "+++" then
         (if startswith line "+++"
             && existsb (fun ext => contains ext line) c_extensions
          then scan_diff InFile rest result
          else scan_diff Outer rest result)
       else scan_diff InFile rest result) = Ok r
      /\ calls_ok (function_calls r)).
  { destruct (startswith line "@@").
    - unfold parse_hunk_python. simpl.
      destruct (parse_hunk_ok line rest) as (hr & Hhr & Hok).
      unfold drop. rewrite Hhr. simpl.
      apply IH, merge_hunk_result_ok; assumption.
    - destruct (_ || _); [exact Houter|apply IH, Hr]. }
  destruct mode; [exact Houter|exact Hin|].
  match goal with |- exists r, (if ?b then _ else _) = _ /\ _ => destruct b end;
    [exact Hin|apply IH, Hr].
Qed.

Lemma elem_of_sorted (c : string) (s : gset string) : c ∈ sorted s <-> c ∈ s.
Proof.
  unfold sorted. rewrite merge_sort_Permutation. apply elem_of_elements.
Qed.

(** C5: the backward scan of [find_symbol_for_line_python] looks at the target
    line and at no more than the 50 lines before it; but a line at column 0
    that matches no declaration pattern does not end the scan: the final
    [continue] of the loop body is followed by nothing, so the scan walks
    past the closing brace and past the unrelated statement, and returns the
    function above them instead of no symbol. *)
Theorem C5_walk_back_passes_top_level_statement :
  find_symbol_for_line_python after_function 2 = Ok (Some "void foo(void) {")
  /\ walk_back after_function [2%Z] = Ok None
  /\ walk_back after_function [2%Z; 1%Z] = Ok None.
Proof. vm_compute. repeat split; reflexivity. Qed.

(** The indices that the backward scan visits. *)
Lemma walk_back_window (line_idx i : Z) :
  i ∈ range_down line_idx (Z.max (-1) (line_idx - 51)) ->
  (0 <= i /\ line_idx - 50 <= i <= line_idx)%Z.
Proof.
  intros Hi.
  pose proof (range_down_bounds line_idx (Z.max (-1) (line_idx - 51))) as H.
  rewrite Forall_forall in H. apply H in Hi. lia.
Qed.

(** C8, as stated, fails: the added line of [unresolved_hunk] is unresolved,
    and its call is attributed all the same, to the function of the hunk
    header. *)
Lemma C8_counterexample :
  hunk_lines (scan_hunk {| hunk_lines := []; modified_line_indices := ∅;
                           line_to_calls := []; current_line := 0;
                           scan_called := ∅ |} (drop 1 unresolved_hunk))
  = unresolved_lines
  /\ find_symbol_for_line_python unresolved_lines 1 = Ok None
  /\ function_calls <$> parse_hunk_python unresolved_hunk 0
     = Ok {[ "foo" := {[ "bar" ]} ]}.
Proof. vm_compute. repeat split; reflexivity. Qed.

(** C8 (amended): for a non-negative index [find_symbol_for_line_python]
    returns [None] or a string and never raises, and an index at or past the
    end of the list yields [None]; a line that is not resolved adds no symbol
    to the symbols found by walk-back, and its calls are attributed to no
    walk-back symbol: they go to the function of the hunk header when the
    header names one, and to no function otherwise. *)
Theorem C8_resolver_never_raises (lines : list string) (line_idx : Z) :
  ((0 <= line_idx)%Z ->
   exists r, find_symbol_for_line_python lines line_idx = Ok r)
  /\ ((len lines <= line_idx)%Z ->
      find_symbol_for_line_python lines line_idx = Ok None)
  /\ (find_symbol_for_line_python lines line_idx = Ok None ->
      (forall rest symbols,
         walkback_symbols lines (line_idx :: rest) symbols
         = walkback_symbols lines rest symbols)
      /\ (forall header_func_name fc calls,
            attribute_calls lines header_func_name fc line_idx calls
            = Ok (match truthy header_func_name with
                  | Some h => attribute_to fc h calls
                  | None => fc
                  end))).
Proof.
  split; [apply find_symbol_for_line_python_Ok|]. split.
  - intros H. unfold find_symbol_for_line_python.
    apply Z.leb_le in H. by rewrite H.
  - intros H. split.
    + intros rest symbols. simpl. by rewrite H.
    + intros hdr fc calls. unfold attribute_calls. rewrite H. simpl.
      by destruct (truthy hdr).
Qed.

Lemma C8_resolver_never_raises_witness :
  (exists r, find_symbol_for_line_python unresolved_lines 1 = Ok r)
  /\ find_symbol_for_line_python unresolved_lines 2 = Ok None
  /\ walkback_symbols unresolved_lines [1%Z] ∅ = Ok ∅
  /\ attribute_calls unresolved_lines (Some "foo") ∅ 1 {[ "bar" ]}
     = Ok (attribute_to ∅ "foo" {[ "bar" ]}).
Proof.
  split; [apply (C8_resolver_never_raises unresolved_lines 1); lia|].
  split; [apply (C8_resolver_never_raises unresolved_lines 2); vm_compute;
          discriminate|].
  destruct (C8_resolver_never_raises unresolved_lines 1) as (_ & _ & H).
  destruct H as [Hs Hc]; [vm_compute; reflexivity|].
  split; [rewrite Hs; reflexivity|apply Hc].
Defined.

(** C7: parsing a diff never raises, and in the call map it produces no
    function is among its own calls and no call is a C keyword; the same
    holds for the calls of each function of the table that
    [build_result_from_python] builds from it. *)
Theorem C7_call_map_excludes_self_and_keywords (diff_content : string) :
  exists r,
    parse_unified_diff_python diff_content = Ok r
    /\ (forall F s, function_calls r !! F = Some s ->
          (F ∉ s) /\ forall c, c ∈ s -> c ∉ C_KEYWORDS)
    /\ (forall fi, fi ∈ di_modified_functions (build_result_from_python r) ->
          (fi_name fi ∉ fi_calls fi)
          /\ forall c, c ∈ fi_calls fi -> c ∉ C_KEYWORDS).
Proof.
  unfold parse_unified_diff_python.
  destruct (scan_diff_ok Outer (split diff_content nl) empty_result calls_ok_empty)
    as (r & Hr & Hok).
  exists r. split; [exact Hr|]. split; [exact Hok|].
  intros fi Hfi. unfold build_result_from_python in Hfi. simpl in Hfi.
  apply list_elem_of_fmap in Hfi as (name & -> & _). simpl. split.
  - rewrite elem_of_sorted. intros Hin.
    apply elem_of_difference in Hin as [_ Hin]. apply Hin.
    by apply elem_of_singleton.
  - intros c Hc. apply elem_of_sorted, elem_of_difference in Hc as [Hc _].
    destruct (function_calls r !! name) as [s|] eqn:E; simpl in Hc.
    + by apply (Hok name s E).
    + by apply not_elem_of_empty in Hc.
Qed.

Lemma C7_call_map_excludes_self_and_keywords_witness :
  exists r,
    parse_unified_diff_python recursive_diff = Ok r
    /\ function_calls r !! "fact" = Some {[ "one"; "log" ]}
    /\ ("fact" ∉ ({[ "one"; "log" ]} : gset string))
    /\ ("sizeof" ∉ ({[ "one"; "log" ]} : gset string)).
Proof.
  destruct (C7_call_map_excludes_self_and_keywords recursive_diff)
    as (r & Hr & Hfc & _).
  exists r. split; [exact Hr|].
  assert (E : function_calls r !! "fact" = Some {[ "one"; "log" ]}).
  { vm_compute in Hr. injection Hr as <-. vm_compute. reflexivity. }
  split; [exact E|]. destruct (Hfc _ _ E) as [H1 H2].
  split; [exact H1|]. intros H. apply (H2 _ H). vm_compute. reflexivity.
Defined.

(** ** Definition extraction *)

(** Case analysis on the test that heads the computation of the goal. *)
Ltac case_head_if :=
  match goal with
  | |- exists r, (if ?b then _ else _) = _ /\ _ => destruct b eqn:?
  end.

Lemma function_brace_ahead_Ok (lines : list string) (i : Z) (js : list Z) :
  (0 <= i)%Z -> Forall (fun j => i <= j < len lines)%Z js ->
  exists b, function_brace_ahead lines i js = Ok b.
Proof.
  intros Hi H. induction H as [|j js Hj _ IH]; simpl; [eauto|].
  destruct (py_index_Ok lines j) as [lj ->]; [lia|]. simpl.
  destruct (contains "{" lj); [eauto|].
  destruct ((i <? j)%Z && _ && _) eqn:E; [|exact IH].
  apply andb_true_iff in E as [E _]. apply andb_true_iff in E as [E _].
  apply Z.ltb_lt in E.
  destruct (py_index_Ok lines (j - 1)) as [lp ->]; [lia|]. simpl.
  destruct (_ && _); [eauto|exact IH].
Qed.

Lemma type_brace_ahead_Ok (lines : list string) (js : list Z) :
  Forall (fun j => 0 <= j < len lines)%Z js ->
  exists b, type_brace_ahead lines js = Ok b.
Proof.
  intros H. induction H as [|j js Hj _ IH]; simpl; [eauto|].
  destruct (py_index_Ok lines j) as [lj ->]; [lia|]. simpl.
  destruct (contains "{" lj); [eauto|].
  destruct (_ && _); [eauto|exact IH].
Qed.

Lemma function_start_loop_spec (lines : list string) (idxs : list Z) :
  Forall (fun i => 0 <= i < len lines)%Z idxs ->
  exists r, function_start_loop lines idxs = Ok r
            /\ forall s, r = Some s -> s ∈ idxs.
Proof.
  intros H. induction H as [|i idxs Hi _ IH]; simpl.
  { eexists; split; [reflexivity|]. discriminate. }
  assert (Hnext : exists r, function_start_loop lines idxs = Ok r
                            /\ forall s, r = Some s -> s ∈ i :: idxs).
  { destruct IH as (r & Hr & Hs). exists r. split; [exact Hr|].
    intros s Es. apply elem_of_cons. right. by apply Hs. }
  assert (Hhere : exists r, @Ok (option Z) (Some i) = Ok r
                            /\ forall s, r = Some s -> s ∈ i :: idxs).
  { eexists; split; [reflexivity|]. intros s [= <-]. apply elem_of_cons. by left. }
  destruct (py_index_Ok lines i) as [line ->]; [lia|]. simpl.
  case_head_if; [exact Hnext|].
  case_head_if; [exact Hnext|].
  assert (Hcol : exists b, (if is_empty line then mret false
                            else c ← str_head line; mret (negb (isspace c)))
                           = Ok b).
  { destruct line; simpl; eauto. }
  destruct Hcol as [col ->]. simpl. destruct col; [|exact Hnext].
  assert (Hfun : exists b,
            (if contains "(" (strip line)
             then function_brace_ahead lines i
                    (range i (Z.min (len lines) (i + 20)))
             else mret false) = Ok b).
  { destruct (contains "(" (strip line)); [|eexists; reflexivity].
    apply function_brace_ahead_Ok; [lia|].
    eapply Forall_impl; [apply range_lower|]. simpl. intros; lia. }
  destruct Hfun as [isf ->]. simpl. destruct isf; [exact Hhere|].
  case_head_if; [|exact Hnext].
  case_head_if; [exact Hhere|].
  destruct (type_brace_ahead_Ok lines (range (i + 1) (Z.min (len lines) (i + 10))))
    as [ist ->].
  { eapply Forall_impl; [apply range_lower|]. simpl. intros; lia. }
  simpl. destruct ist; [exact Hhere|exact Hnext].
Qed.

Lemma find_function_start_spec (lines : list string) (target_line : Z) :
  (0 <= target_line)%Z ->
  exists r, find_function_start lines target_line = Ok r
            /\ forall s, r = Some s ->
                 (0 <= s <= target_line /\ s < len lines
                  /\ target_line - 100 < s)%Z.
Proof.
  intros H. unfold find_function_start.
  destruct (len lines <=? target_line)%Z eqn:E.
  { eexists; split; [reflexivity|]. discriminate. }
  apply Z.leb_gt in E.
  pose proof (range_down_bounds target_line (Z.max (-1) (target_line - 100))) as Hb.
  destruct (function_start_loop_spec lines
              (range_down target_line (Z.max (-1) (target_line - 100))))
    as (r & Hr & Hs).
  { eapply Forall_impl; [exact Hb|]. simpl. intros; lia. }
  exists r. split; [exact Hr|]. intros s Es.
  rewrite Forall_forall in Hb. specialize (Hb s (Hs s Es)). lia.
Qed.

Lemma contains_cons (sub : string) (c : ascii) (s : string) :
  contains sub s = true -> contains sub (String c s) = true.
Proof. intros H. unfold contains; fold contains. rewrite H. apply orb_true_r. Qed.

Lemma char_step_return (st : brace_state) (before : option ascii) (char : ascii)
    (next_char : option ascii) :
  char_step st before char next_char = ReturnLine -> char = "}"%char.
Proof.
  unfold char_step.
  repeat (match goal with
          | |- context [if Ascii.eqb char "}" then _ else _] =>
              destruct (Ascii.eqb_spec char "}"); [intros _; assumption|]
          | |- context [if ?b then _ else _] => destruct b
          end; try discriminate).
Qed.

Lemma scan_chars_return (n : nat) (st : brace_state) (before : option ascii)
    (line : string) :
  String.length line <= n -> scan_chars st before line = None ->
  contains "}" line = true.
Proof.
  revert st before line.
  induction n as [|n IH]; intros st before line Hn H.
  { destruct line; simpl in *; [discriminate|lia]. }
  destruct line as [|c rest]; simpl in H; [discriminate|].
  simpl in Hn.
  destruct (char_step st before c (next (Pos None rest))) eqn:E.
  - apply contains_cons. eapply IH; [|exact H]. lia.
  - destruct rest as [|c2 rest']; [discriminate|].
    apply contains_cons, contains_cons. eapply IH; [|exact H]. simpl in Hn. lia.
  - discriminate.
  - apply char_step_return in E as ->. reflexivity.
Qed.

Lemma py_index_lookup {A} (l : list A) (i : Z) (x : A) :
  (0 <= i)%Z -> py_index l i = Ok x -> l !! Z.to_nat i = Some x.
Proof.
  intros Hi. unfold py_index.
  destruct (i <? 0)%Z eqn:E; [apply Z.ltb_lt in E; lia|].
  destruct (_ && _); [|discriminate].
  destruct (l !! Z.to_nat i); [|discriminate]. by intros [= ->].
Qed.

Lemma function_end_loop_spec (lines : list string) (st : brace_state)
    (idxs : list Z) :
  Forall (fun i => 0 <= i < len lines)%Z idxs ->
  exists r, function_end_loop lines st idxs = Ok r
            /\ forall e, r = Some e ->
                 e ∈ idxs
                 /\ exists line, lines !! Z.to_nat e = Some line
                                 /\ contains "}" line = true.
Proof.
  intros H. revert st. induction H as [|i idxs Hi _ IH]; intros st; simpl.
  { eexists; split; [reflexivity|]. discriminate. }
  destruct (py_index_Ok lines i) as [line Hline]; [lia|]. rewrite Hline. simpl.
  destruct (scan_chars st None line) as [st'|] eqn:E.
  - destruct (IH (end_of_line st')) as (r & Hr & Hs).
    exists r. split; [exact Hr|]. intros e Ee.
    destruct (Hs e Ee) as [Hin Hl]. split; [|exact Hl].
    apply elem_of_cons. by right.
  - eexists; split; [reflexivity|]. intros e [= <-]. split.
    + apply elem_of_cons. by left.
    + exists line. split; [apply py_index_lookup; [lia|exact Hline]|].
      eapply scan_chars_return; [|exact E]. reflexivity.
Qed.

Lemma find_function_end_spec (lines : list string) (start_line : Z) :
  (0 <= start_line)%Z ->
  exists r, find_function_end lines start_line = Ok r
            /\ forall e, r = Some e ->
                 (start_line <= e < start_line + 2000 /\ e < len lines)%Z
                 /\ exists line, lines !! Z.to_nat e = Some line
                                 /\ contains "}" line = true.
Proof.
  intros H. unfold find_function_end.
  pose proof (range_lower start_line (Z.min (len lines) (start_line + 2000))) as Hb.
  destruct (function_end_loop_spec lines brace_init
              (range start_line (Z.min (len lines) (start_line + 2000))))
    as (r & Hr & Hs).
  { eapply Forall_impl; [exact Hb|]. simpl. intros; lia. }
  exists r. split; [exact Hr|]. intros e Ee.
  destruct (Hs e Ee) as [Hin Hl]. split; [|exact Hl].
  rewrite Forall_forall in Hb. specialize (Hb e Hin). lia.
Qed.




Example get_definition_sample :
  get_definition_for_change (sample_fs sample_source) "f.c" "foo" 10 None
  = Ok (Some (join "" (take 9 (drop 2 sample_source))))
  /\ get_definition_for_change (sample_fs sample_source) "g.c" "foo" 10 None
     = Ok None
  /\ get_definition_for_change (sample_fs sample_source) "f.c" "foo" 14 None
     = Ok None.
Proof. vm_compute. repeat split; reflexivity. Qed.

Example get_definition_truncated :
  get_definition_for_change (sample_fs long_source) "f.c" "big" 50 None
  = Ok (Some (join "" (take 100 long_source) +:+ truncation_marker)).
Proof. vm_compute. reflexivity. Qed.

(** C9: the scan of [find_function_end] is not aware of an escaped
    backslash.  A quote that follows a backslash never opens or closes a
    literal, whatever precedes the backslash; so the closing quote of the
    character literal of a backslash is skipped, the scanner stays inside
    the literal, and the closing brace of the function is not counted.  On
    [escaped_backslash_source] the closing brace of [foo] is on line 4 (where
    the scan of the same file with a plain literal finds it), but the scan
    sees no end in the five lines of [foo], returns line 10, the closing
    brace of [bar], and [get_definition_for_change] returns the text of both
    functions as the definition of [foo]. *)
Theorem C9_escaped_backslash_hides_the_closing_brace :
  (forall st next_char,
     in_line_comment st = false -> in_block_comment st = false ->
     in_string st = false ->
     char_step st (Some backslash) squote next_char = Advance1 st)
  /\ find_function_start escaped_backslash_source 3 = Ok (Some 0%Z)
  /\ find_function_end plain_literal_source 0 = Ok (Some 4%Z)
  /\ find_function_end escaped_backslash_source 0 = Ok (Some 10%Z)
  /\ find_function_end (take 5 escaped_backslash_source) 0 = Ok None
  /\ get_definition_for_change (sample_fs plain_literal_source) "f.c" "foo" 4
       None
     = Ok (Some (join "" (take 5 plain_literal_source)))
  /\ get_definition_for_change (sample_fs escaped_backslash_source) "f.c"
       "foo" 4 None
     = Ok (Some (join "" escaped_backslash_source)).
Proof.
  split.
  - intros st next_char H1 H2 H3. unfold char_step. rewrite H1, H2, H3.
    destruct next_char as [c|]; reflexivity.
  - vm_compute. repeat split; reflexivity.
Qed.


Lemma running_app (p q : list mod_segment) :
  running (p ++ q) = (running p + running q)%Z.
Proof. induction p as [|s p IH]; simpl; [lia|]. rewrite IH. lia. Qed.

Lemma batch_of_snoc (b : list mod_segment) (s : mod_segment) :
  batch_of (b ++ [s]) = batch_add (batch_of b) s.
Proof. unfold batch_of. by rewrite foldl_app. Qed.

Lemma batch_of_fields (b : list mod_segment) :
  current_headers (batch_of b) = map (fun s => header_part (ms_header s)) b
  /\ current_contents (batch_of b) = map ms_content b
  /\ current_added (batch_of b) = running b
  /\ current_diffinfos (batch_of b) = map ms_diffinfo b.
Proof.
  induction b as [|s b IH] using rev_ind; [done|].
  rewrite batch_of_snoc. destruct IH as (H1 & H2 & H3 & H4).
  unfold batch_add. simpl. rewrite H1, H2, H3, H4, !map_app, running_app.
  simpl. repeat split; f_equal; lia.
Qed.

Lemma flush_batch_of (func_name : string) (b : list mod_segment) :
  b <> [] -> flush_batch func_name (batch_of b) = Ok (entry_of func_name b).
Proof.
  intros Hb. unfold flush_batch, entry_of.
  destruct (batch_of_fields b) as (H1 & H2 & _ & H4). rewrite H1, H2, H4.
  destruct b as [|s [|s' b]]; [done| |]; reflexivity.
Qed.

Lemma overflows_nonempty (p : list mod_segment) (s : mod_segment) :
  overflows p s -> p <> [].
Proof. intros [H _] ->. simpl in H. lia. Qed.

Lemma overflows_test (p : list mod_segment) (s : mod_segment) :
  ((0 <? running p) && (MAX_COMBINED_ADDED_LINES <? running p + ms_added s))%Z
  = true <-> overflows p s.
Proof.
  unfold overflows. rewrite andb_true_iff, !Z.ltb_lt. tauto.
Qed.

Lemma combine_loop_batches (func_name : string) (cur segs : list mod_segment) :
  combine_loop func_name (batch_of cur) segs
  = Ok (map (entry_of func_name) (split_batches cur segs)).
Proof.
  revert cur. induction segs as [|s segs IH]; intros cur; simpl.
  - destruct (batch_of_fields cur) as (_ & H2 & _ & _). rewrite H2.
    destruct cur as [|c cur]; simpl; [done|].
    change (c :: cur) with ([] ++ c :: cur).
    rewrite (flush_batch_of func_name ([] ++ c :: cur)) by done. done.
  - destruct (batch_of_fields cur) as (_ & _ & H3 & _). rewrite H3.
    destruct (_ && _)%Z eqn:E.
    + apply overflows_test, overflows_nonempty in E.
      rewrite flush_batch_of by done. simpl.
      change (batch_add empty_batch s) with (batch_of [s]).
      rewrite IH. done.
    + rewrite <- batch_of_snoc. apply IH.
Qed.

Lemma split_batches_concat (cur segs : list mod_segment) :
  concat (split_batches cur segs) = cur ++ segs.
Proof.
  revert cur. induction segs as [|s segs IH]; intros cur; simpl.
  - destruct cur; simpl; by rewrite ?app_nil_r.
  - destruct (_ && _)%Z; simpl; rewrite IH; [done|]. by rewrite <- app_assoc.
Qed.

(** The shape of the batches: the first one extends the pending batch, every
    segment joined its batch freely, and every later batch was started by
    the test. *)
Lemma split_batches_shape (cur segs : list mod_segment) :
  cur ++ segs <> [] ->
  exists x rest,
    split_batches cur segs = (cur ++ x) :: rest
    /\ cur ++ x <> []
    /\ joined_freely (length cur) (cur ++ x)
    /\ Forall (fun b => b <> [] /\ joined_freely 0 b) rest
    /\ started_by_overflow ((cur ++ x) :: rest).
Proof.
  revert cur. induction segs as [|s segs IH]; intros cur Hne; simpl.
  - rewrite app_nil_r in Hne. destruct cur as [|c cur]; [done|].
    exists [], []. rewrite app_nil_r. repeat split; try done; try constructor.
    intros p s q E _ Hk. apply (f_equal length) in E.
    rewrite length_app in E. simpl in *. lia.
  - destruct (_ && _)%Z eqn:E.
    + apply overflows_test in E.
      destruct (IH [s]) as (x & rest & Hs & Hx & Hj & Hr & Hc); [done|].
      exists [], (([s] ++ x) :: rest). rewrite app_nil_r, Hs.
      repeat split.
      * by apply overflows_nonempty in E.
      * intros p s' q Ep _ Hk. apply (f_equal length) in Ep.
        rewrite length_app in Ep. simpl in *. lia.
      * constructor; [|exact Hr]. split; [exact Hx|].
        intros p s' q Ep Hp _. apply (Hj p s' q Ep Hp).
        destruct p; [done|simpl; lia].
      * simpl. constructor; [exact E|exact Hc].
    + destruct (IH (cur ++ [s])) as (x & rest & Hs & Hx & Hj & Hr & Hc).
      { intros H. by destruct cur. }
      exists (s :: x), rest.
      replace (cur ++ s :: x) with ((cur ++ [s]) ++ x) by (by rewrite <- app_assoc).
      repeat split; try assumption.
      intros p s' q Ep Hp Hk.
      destruct (decide (length p = length cur)) as [El|Hl].
      * rewrite <- app_assoc in Ep. simpl in Ep.
        apply app_inj_1 in Ep as [-> [= -> ->]]; [|done].
        intros Ho. apply overflows_test in Ho. congruence.
      * apply (Hj p s' q Ep Hp). rewrite length_app. simpl. lia.
Qed.

Lemma count_added_lines_nonneg (content : string) :
  (0 <= count_added_lines content)%Z.
Proof. unfold count_added_lines, len. lia. Qed.

Lemma running_nonneg (b : list mod_segment) :
  Forall (fun s => 0 <= ms_added s)%Z b -> (0 <= running b)%Z.
Proof. induction 1; simpl; lia. Qed.

Lemma joined_freely_cap (b : list mod_segment) :
  Forall (fun s => 0 <= ms_added s)%Z b -> joined_freely 0 b ->
  (running b <= MAX_COMBINED_ADDED_LINES)%Z \/ running (removelast b) = 0%Z.
Proof.
  intros Hpos Hj. destruct b as [|s0 b0] using rev_ind; [by right|].
  rewrite removelast_last. clear IHb0.
  destruct (decide (b0 = [])) as [->|Hne]; [by right|].
  apply Forall_app in Hpos as [Hp Hs]. inversion Hs as [|? ? Hs0 _]; subst.
  pose proof (running_nonneg b0 Hp) as H0.
  assert (Hn : ~ overflows b0 s0).
  { apply (Hj b0 s0 []); [done|done|lia]. }
  unfold overflows in Hn. rewrite running_app. simpl.
  destruct (decide (running b0 = 0%Z)); [by right|left; lia].
Qed.

Lemma adict_get_set {V} (d : list (string * V)) (k k' : string) (v : V) :
  adict_get (adict_set d k v) k'
  = if String.eqb k k' then Some v else adict_get d k'.
Proof.
  induction d as [|[k0 v0] d IH]; simpl.
  - destruct (String.eqb k k'); reflexivity.
  - destruct (String.eqb_spec k0 k) as [->|Hne]; simpl.
    + destruct (String.eqb k k'); reflexivity.
    + rewrite IH. destruct (String.eqb_spec k k') as [->|Hne'].
      * apply String.eqb_neq in Hne. by rewrite Hne.
      * reflexivity.
Qed.

Lemma entries_at_extend (d : list (string * list change_entry)) (k k' : string)
    (xs : list change_entry) (c : change_entry) :
  c ∈ entries_at (adict_extend d k xs) k' <->
  c ∈ entries_at d k' \/ (k = k' /\ c ∈ xs).
Proof.
  unfold entries_at, adict_extend. rewrite adict_get_set.
  destruct (String.eqb_spec k k') as [->|Hne]; simpl.
  - rewrite elem_of_app. tauto.
  - tauto.
Qed.

Lemma combine_modifications_batches (func_name : string)
    (segs : list mod_segment) :
  combine_modifications func_name segs
  = Ok (map (entry_of func_name) (split_batches [] segs)).
Proof. apply (combine_loop_batches func_name [] segs). Qed.

Lemma combine_functions_entries (file_path : string)
    (by_function : list (string * list mod_segment))
    (acc : list (string * list change_entry)) :
  exists result,
    combine_functions file_path by_function acc = Ok result
    /\ forall file c,
         c ∈ entries_at result file <->
         c ∈ entries_at acc file
         \/ (file = file_path
             /\ exists func_name segs,
                  (func_name, segs) ∈ by_function
                  /\ c ∈ map (entry_of func_name) (split_batches [] segs)).
Proof.
  revert acc. induction by_function as [|[f segs] by_function IH]; intros acc; simpl.
  - eexists; split; [reflexivity|]. intros file c. split; [auto|].
    intros [H|(_ & f & segs & H & _)]; [done|]. by apply elem_of_nil in H.
  - rewrite combine_modifications_batches. simpl.
    destruct (IH (adict_extend acc file_path
                    (map (entry_of f) (split_batches [] segs))))
      as (result & Hr & Hres).
    exists result. split; [exact Hr|]. intros file c.
    rewrite Hres, entries_at_extend. split.
    + intros [[H|[<- H]]|(-> & f' & segs' & Hin & Hc)]; [by left| |].
      * right. split; [done|]. exists f, segs. split; [|done].
        apply elem_of_cons. by left.
      * right. split; [done|]. exists f', segs'. split; [|done].
        apply elem_of_cons. by right.
    + intros [H|(-> & f' & segs' & Hin & Hc)]; [by left; left|].
      apply elem_of_cons in Hin as [[= -> ->]|Hin].
      * left; right. done.
      * right. split; [done|]. by exists f', segs'.
Qed.

Lemma process_modifications_entries (modifications_by_key : mods_dict)
    (acc : list (string * list change_entry)) :
  exists result,
    process_modifications modifications_by_key acc = Ok result
    /\ forall file c,
         c ∈ entries_at result file ->
         c ∈ entries_at acc file
         \/ exists by_function func_name segs,
              (file, by_function) ∈ modifications_by_key
              /\ (func_name, segs) ∈ by_function
              /\ c ∈ map (entry_of func_name) (split_batches [] segs).
Proof.
  revert acc.
  induction modifications_by_key as [|[fp byf] mods IH]; intros acc; simpl.
  - eexists; split; [reflexivity|]. auto.
  - destruct (combine_functions_entries fp byf acc) as (r1 & Hr1 & H1).
    rewrite Hr1. simpl. destruct (IH r1) as (result & Hr & Hres).
    exists result. split; [exact Hr|]. intros file c Hc.
    destruct (Hres file c Hc) as [H|(byf' & f & segs & Hin & Hf & Hcs)].
    + apply H1 in H as [H|(-> & f & segs & Hf & Hcs)]; [by left|].
      right. exists byf, f, segs. split; [|done]. apply elem_of_cons. by left.
    + right. exists byf', f, segs. split; [|done]. apply elem_of_cons. by right.
Qed.

(** C1, as stated, fails: a hunk that only removes lines leaves the running
    total at zero, so the next hunk of the function joins it whatever its
    size; here the change merges two segments and has 251 added lines. *)
Lemma C1_counterexample :
  combine_modifications "f" (map mod_segment_of [removal_segment; big_segment])
  = Ok [entry_of "f" (map mod_segment_of [removal_segment; big_segment])]
  /\ count_added_lines (seg_content removal_segment) = 0%Z
  /\ count_added_lines (seg_content big_segment) = 251%Z
  /\ (MAX_COMBINED_ADDED_LINES < 0 + 251)%Z.
Proof. vm_compute. repeat split; reflexivity. Qed.

(** C1 (amended): the modification pass never raises.  The changes it makes
    for a function are the flushes of consecutive batches of the function's
    segments, whose [added_lines] are the counts of [count_added_lines].  A
    batch holds at most 250 added lines unless the segments before its last
    one add no line; no segment joined a batch when the running total was
    positive and the segment would have pushed it over the cap; and every
    batch after the first was started exactly by that test.  Every entry that
    the pass files under a path is such a flush, for a function of that
    path. *)
Theorem C1_modification_pass_cap :
  (forall (func_name : string) (segments : list Segment),
     exists bs : list (list mod_segment),
       combine_modifications func_name (map mod_segment_of segments)
       = Ok (map (entry_of func_name) bs)
       /\ concat bs = map mod_segment_of segments
       /\ Forall (Forall (fun s => ms_added s
                                   = count_added_lines (ms_content s))) bs
       /\ Forall (fun b =>
                    b <> []
                    /\ ((running b <= MAX_COMBINED_ADDED_LINES)%Z
                        \/ running (removelast b) = 0%Z)
                    /\ joined_freely 0 b) bs
       /\ started_by_overflow bs)
  /\ (forall (modifications_by_key : mods_dict),
        exists result,
          process_modifications modifications_by_key [] = Ok result
          /\ forall file c,
               c ∈ entries_at result file ->
               exists by_function func_name segs,
                 (file, by_function) ∈ modifications_by_key
                 /\ (func_name, segs) ∈ by_function
                 /\ c ∈ map (entry_of func_name) (split_batches [] segs)).
Proof.
  split.
  - intros func_name segments.
    set (segs := map mod_segment_of segments).
    exists (split_batches [] segs).
    assert (Hall : Forall (fun s => ms_added s = count_added_lines (ms_content s))
                     segs).
    { apply Forall_forall. intros s Hs.
      apply list_elem_of_fmap in Hs as (x & -> & _). reflexivity. }
    assert (Hcat : concat (split_batches [] segs) = segs)
      by apply (split_batches_concat [] segs).
    assert (Hbs : Forall (Forall (fun s => ms_added s
                                           = count_added_lines (ms_content s)))
                    (split_batches [] segs)).
    { apply Forall_forall. intros b Hb. apply Forall_forall. intros s Hs.
      rewrite Forall_forall in Hall. apply Hall. rewrite <- Hcat.
      apply list_elem_of_In, in_concat. exists b.
      split; by apply list_elem_of_In. }
    split; [apply combine_modifications_batches|].
    split; [exact Hcat|]. split; [exact Hbs|].
    destruct (decide (segs = [])) as [E|Hne].
    { rewrite E. simpl. split; constructor. }
    destruct (split_batches_shape [] segs Hne)
      as (x & rest & Hs & Hx & Hj & Hr & Hc).
    simpl in Hs, Hx, Hj, Hc. rewrite Hs in Hbs |- *. split; [|exact Hc].
    assert (Hpos : forall b, b ∈ x :: rest -> Forall (fun s => 0 <= ms_added s)%Z b).
    { intros b Hb. rewrite Forall_forall in Hbs. specialize (Hbs b Hb).
      eapply Forall_impl; [exact Hbs|]. simpl. intros s ->.
      apply count_added_lines_nonneg. }
    constructor.
    + split; [exact Hx|]. split; [|exact Hj].
      apply joined_freely_cap; [|exact Hj]. apply Hpos, elem_of_cons. by left.
    + apply Forall_forall. intros b Hb. rewrite Forall_forall in Hr.
      destruct (Hr b Hb) as [Hb1 Hb2]. split; [exact Hb1|]. split; [|exact Hb2].
      apply joined_freely_cap; [|exact Hb2]. apply Hpos, elem_of_cons. by right.
  - intros mods.
    destruct (process_modifications_entries mods []) as (result & Hr & H).
    exists result. split; [exact Hr|]. intros file c Hc.
    destruct (H file c Hc) as [Hnil|Hex]; [|exact Hex].
    unfold entries_at in Hnil. simpl in Hnil. by apply elem_of_nil in Hnil.
Qed.

Lemma C1_modification_pass_cap_witness :
  exists by_function func_name segs,
    ("f.c", by_function)
    ∈ [("f.c", [("f", map mod_segment_of [removal_segment; big_segment])])]
    /\ (func_name, segs) ∈ by_function
    /\ entry_of "f" (map mod_segment_of [removal_segment; big_segment])
       ∈ map (entry_of func_name) (split_batches [] segs).
Proof.
  destruct C1_modification_pass_cap as [_ H].
  destruct (H [("f.c", [("f", map mod_segment_of [removal_segment; big_segment])])])
    as (result & Hr & Hc).
  apply (Hc "f.c"). vm_compute in Hr. injection Hr as <-.
  vm_compute. constructor.
Defined.

(** ** The hunk segmenter *)

Lemma changed_function_loop_spec (i : nat) (ls : list string) (f : string)
    (k : nat) :
  changed_function_loop i ls = Some (f, k) ->
  exists j l,
    k = i + j
    /\ ls !! j = Some l
    /\ truthy (body_definition l (drop (S j) ls)) = Some f
    /\ existsb is_change_line (drop (S j) ls) = true
    /\ forall j' l', j' < j -> ls !! j' = Some l' ->
         truthy (body_definition l' (drop (S j') ls)) = None.
Proof.
  revert i. induction ls as [|line rest IH]; intros i H; simpl in H; [done|].
  destruct (truthy (body_definition line rest)) as [name|] eqn:E.
  - destruct (existsb is_change_line rest) eqn:Em; [|done].
    injection H as <- <-. exists 0, line.
    split; [lia|]. split; [done|]. split; [done|]. split; [done|].
    intros j' l' Hj. lia.
  - apply IH in H as (j & l & -> & Hl & Hd & Hm & Hbefore).
    exists (S j), l.
    split; [lia|]. split; [done|]. split; [done|]. split; [done|].
    intros [|j'] l' Hj Hl'; simpl in *.
    + injection Hl' as <-. exact E.
    + apply (Hbefore j' l'); [lia|done].
Qed.

(** C3, as stated, fails: the scan of the hunk body never compares the
    definition it finds with the function of the header.  The hunk of
    [twice_defined_diff] has no new function, its header names [foo], and
    the definition line found in its body is a definition of [foo] too; the
    hunk is split into two segments that are both named [foo]. *)
Lemma C3_counterexample :
  (map hunks <$> parse_diff twice_defined_diff None)
  = Ok [[twice_defined_hunk]]
  /\ find_function_definitions_in_hunk (lines twice_defined_hunk) = []
  /\ find_changed_function_in_hunk (lines twice_defined_hunk) = Some ("foo", 7)
  /\ extract_function_from_context (function_context twice_defined_hunk) = "foo"
  /\ (map seg_function <$> split_hunk_by_functions twice_defined_hunk "f.c" None)
     = Ok ["foo"; "foo"].
Proof. vm_compute. repeat split; reflexivity. Qed.

(** C3 (amended): when the segmenter finds no new-function span in a hunk and
    [find_changed_function_in_hunk] finds a definition line in the hunk body
    (the first line at column 0 that reads as a definition, with changed
    lines after it), whether or not that line defines the function of the
    header, and changed lines exist before that line, then
    [split_hunk_by_functions] returns exactly two segments, neither marked
    as a new definition: the first is named by the function hint of the
    header and holds the lines before the definition line, the second is
    named by the function of the definition line and holds the lines from
    that line on. *)
Theorem C3_split_at_body_definition (hunk : Hunk) (file_path : string)
    (global_diffinfo : option DiffInfo) (body_func : string)
    (body_func_line : nat) :
  find_function_definitions_in_hunk (lines hunk) = [] ->
  find_changed_function_in_hunk (lines hunk) = Some (body_func, body_func_line) ->
  existsb is_change_line (take body_func_line (lines hunk)) = true ->
  (exists l,
     lines hunk !! body_func_line = Some l
     /\ truthy (body_definition l (drop (S body_func_line) (lines hunk)))
        = Some body_func
     /\ existsb is_change_line (drop (S body_func_line) (lines hunk)) = true
     /\ forall j l', j < body_func_line -> lines hunk !! j = Some l' ->
          truthy (body_definition l' (drop (S j) (lines hunk))) = None)
  /\ exists before after,
       split_hunk_by_functions hunk file_path global_diffinfo
       = Ok [before; after]
       /\ seg_function before
          = extract_function_from_context (function_context hunk)
       /\ seg_function after = body_func
       /\ seg_header before = header hunk
       /\ seg_header after = header hunk
       /\ seg_is_new_function before = false
       /\ seg_is_new_function after = false
       /\ seg_content before
          = with_header (header hunk) (take body_func_line (lines hunk))
       /\ seg_content after
          = with_header (header hunk) (drop body_func_line (lines hunk))
       /\ take body_func_line (lines hunk) ++ drop body_func_line (lines hunk)
          = lines hunk.
Proof.
  intros Hnone Hbody Hmods. split.
  - unfold find_changed_function_in_hunk in Hbody.
    apply changed_function_loop_spec in Hbody
      as (j & l & -> & Hl & Hd & Hm & Hbefore).
    exists l. simpl. repeat split; assumption.
  - unfold split_hunk_by_functions. rewrite Hnone, Hbody, Hmods.
    eexists _, _. split; [reflexivity|]. simpl.
    repeat split; try reflexivity. apply take_drop.
Qed.

Lemma C3_split_at_body_definition_witness :
  exists before after,
    split_hunk_by_functions two_function_hunk "f.c" None = Ok [before; after]
    /\ seg_function before = "first"
    /\ seg_function after = "second"
    /\ seg_content before
       = with_header (header two_function_hunk)
           (take 5 (lines two_function_hunk))
    /\ seg_content after
       = with_header (header two_function_hunk)
           (drop 5 (lines two_function_hunk)).
Proof.
  destruct (C3_split_at_body_definition two_function_hunk "f.c" None "second" 5)
    as (_ & before & after & Hs & Hf1 & Hf2 & _ & _ & _ & _ & Hc1 & Hc2 & _);
    [vm_compute; reflexivity..|].
  exists before, after. split; [exact Hs|].
  split; [rewrite Hf1; vm_compute; reflexivity|].
  split; [exact Hf2|]. split; [exact Hc1|exact Hc2].
Defined.

(** ** The similarity pass of the group builder *)

Lemma elem_of_index_pairs (n i j : nat) :
  (i, j) ∈ index_pairs n <-> i < j < n.
Proof.
  unfold index_pairs. rewrite list_elem_of_bind. split.
  - intros (k & Hj & Hk). apply list_elem_of_fmap in Hj as (j' & [= -> ->] & Hj).
    apply elem_of_seq in Hj, Hk. lia.
  - intros H. exists i. split.
    + apply list_elem_of_fmap. exists j. split; [done|]. apply elem_of_seq. lia.
    + apply elem_of_seq. lia.
Qed.

Lemma Qlt_bool_iff (a b : Q) : Qlt_bool a b = true <-> (a < b)%Q.
Proof.
  unfold Qlt_bool. rewrite negb_true_iff. split.
  - intros H. apply Qnot_le_lt. intros Hle. apply Qle_bool_iff in Hle. congruence.
  - intros H. destruct (Qle_bool b a) eqn:E; [|done].
    apply Qle_bool_iff in E. exfalso. eapply Qlt_not_le; eassumption.
Qed.

(** What one pair does to the search: it is taken exactly when it qualifies
    and beats the best overlap so far. *)
Lemma consider_pair_spec (wg : list (option FileGroup)) (wf : list (gset string))
    (b : best) (i j : nat) :
  let overlap :=
    calculate_function_overlap (default ∅ (wf !! i)) (default ∅ (wf !! j)) in
  (consider_pair wg wf b (i, j) = {| best_overlap := overlap; best_pair := Some (i, j) |}
   /\ qualifies wg wf i j /\ (best_overlap b < overlap)%Q)
  \/ (consider_pair wg wf b (i, j) = b
      /\ (qualifies wg wf i j -> (overlap <= best_overlap b)%Q)).
Proof.
  intros overlap. unfold consider_pair.
  destruct (wg !! i) as [[gi|]|] eqn:Ei;
    try (right; split; [done|]; intros (? & ? & ? & _); congruence).
  destruct (wg !! j) as [[gj|]|] eqn:Ej;
    try (right; split; [done|]; intros (? & ? & _ & ? & _); congruence).
  destruct (MAX_SIMILARITY_COMBINED_LINES <? _)%Z eqn:El.
  { right. split; [done|]. intros (gi' & gj' & Hi & Hj & Hl & _).
    apply Z.ltb_lt in El. rewrite Ei in Hi. rewrite Ej in Hj.
    injection Hi as <-. injection Hj as <-. lia. }
  apply Z.ltb_ge in El. fold overlap.
  destruct (Qle_bool MIN_FUNCTION_OVERLAP_RATIO overlap) eqn:Emin; simpl.
  - destruct (Qlt_bool (best_overlap b) overlap) eqn:Eb.
    + left. split; [done|]. split; [|by apply Qlt_bool_iff].
      exists gi, gj. split; [done|]. split; [done|]. split; [lia|].
      by apply Qle_bool_iff.
    + right. split; [done|]. intros _. apply Qnot_lt_le. intros H.
      apply Qlt_bool_iff in H. congruence.
  - right. split; [done|]. intros (_ & _ & _ & _ & _ & H).
    apply Qle_bool_iff in H. unfold overlap in Emin. congruence.
Qed.

Lemma min_ratio_pos : (0 < MIN_FUNCTION_OVERLAP_RATIO)%Q.
Proof. reflexivity. Qed.

Lemma fold_consider_pair (wg : list (option FileGroup)) (wf : list (gset string))
    (pairs : list (nat * nat)) (b : best) :
  (best_pair b = None -> (best_overlap b == 0)%Q) ->
  let b' := foldl (consider_pair wg wf) b pairs in
  (best_pair b' = None ->
   best_pair b = None /\ forall i j, (i, j) ∈ pairs -> ~ qualifies wg wf i j)
  /\ (forall i j, best_pair b' = Some (i, j) ->
        best_pair b = Some (i, j) \/ ((i, j) ∈ pairs /\ qualifies wg wf i j)).
Proof.
  revert b. induction pairs as [|[i j] pairs IH]; intros b Hb; cbn [foldl].
  { split; [|auto]. intros H. split; [done|]. intros i j Hin.
    by apply elem_of_nil in Hin. }
  destruct (consider_pair_spec wg wf b i j) as [(E & Hq & Hlt)|(E & Hnq)].
  - destruct (IH (consider_pair wg wf b (i, j))) as [H1 H2].
    { rewrite E. simpl. discriminate. }
    split.
    + intros Hnone. destruct (H1 Hnone) as [H _]. rewrite E in H. discriminate.
    + intros i' j' Hsome. destruct (H2 i' j' Hsome) as [H|[Hin Hq']].
      * rewrite E in H. simpl in H. injection H as <- <-.
        right. split; [apply elem_of_cons; by left|done].
      * right. split; [apply elem_of_cons; by right|done].
  - rewrite E. destruct (IH b Hb) as [H1 H2]. split.
    + intros Hnone. destruct (H1 Hnone) as [Hbn Hrest]. split; [done|].
      intros i' j' Hin Hq. apply elem_of_cons in Hin as [[= -> ->]|Hin].
      * specialize (Hnq Hq). specialize (Hb Hbn).
        destruct Hq as (_ & _ & _ & _ & _ & Hmin).
        pose proof min_ratio_pos as Hpos. rewrite Hb in Hnq.
        apply (Qlt_not_le _ _ Hpos). eapply Qle_trans; eassumption.
      * by apply (Hrest i' j').
    + intros i' j' Hsome. destruct (H2 i' j' Hsome) as [H|[Hin Hq']]; [by left|].
      right. split; [apply elem_of_cons; by right|done].
Qed.

(** The pair that the search returns qualifies. *)
Lemma find_best_pair_Some (wg : list (option FileGroup)) (wf : list (gset string))
    (i j : nat) :
  find_best_pair wg wf = Some (i, j) ->
  i < j < length wg /\ qualifies wg wf i j.
Proof.
  unfold find_best_pair. intros H.
  destruct (fold_consider_pair wg wf (index_pairs (length wg))
              {| best_overlap := 0; best_pair := None |}) as [_ H2].
  { intros _. simpl. reflexivity. }
  destruct (H2 i j H) as [Hb|[Hin Hq]]; [discriminate|].
  split; [by apply elem_of_index_pairs|done].
Qed.

(** The search fails only when no pair qualifies. *)
Lemma find_best_pair_None (wg : list (option FileGroup)) (wf : list (gset string)) :
  find_best_pair wg wf = None ->
  forall i j, i < j < length wg -> ~ qualifies wg wf i j.
Proof.
  unfold find_best_pair. intros H i j Hij.
  destruct (fold_consider_pair wg wf (index_pairs (length wg))
              {| best_overlap := 0; best_pair := None |}) as [H1 _].
  { intros _. simpl. reflexivity. }
  destruct (H1 H) as [_ Hno]. apply Hno. by apply elem_of_index_pairs.
Qed.

Lemma insert_at_length {A} (l1 l2 : list A) (x v : A) :
  <[length l1 := v]> (l1 ++ x :: l2) = l1 ++ v :: l2.
Proof.
  rewrite insert_app_r_alt by lia. by rewrite Nat.sub_diag.
Qed.

(** Two distinct slots cut the list in three. *)
Lemma lookup_two_split {A} (l : list A) (i j : nat) (x y : A) :
  i < j -> l !! i = Some x -> l !! j = Some y ->
  exists l1 l2 l3,
    l = l1 ++ x :: l2 ++ y :: l3
    /\ length l1 = i /\ j = length l1 + S (length l2).
Proof.
  intros Hij Hi Hj.
  apply list_elem_of_split_length in Hi as (l1 & r & -> & ->).
  rewrite lookup_app_r in Hj by lia.
  destruct (j - length l1) as [|k] eqn:Ek; [lia|]. simpl in Hj.
  apply list_elem_of_split_length in Hj as (l2 & l3 & -> & ->).
  exists l1, l2, l3. repeat split; lia.
Qed.

Lemma all_changes_app (l1 l2 : list FileGroup) :
  all_changes (l1 ++ l2) = all_changes l1 ++ all_changes l2.
Proof. unfold all_changes. by rewrite map_app, concat_app. Qed.

Lemma sum_lines_app (l1 l2 : list FileGroup) :
  sum_lines (l1 ++ l2) = (sum_lines l1 + sum_lines l2)%Z.
Proof. induction l1 as [|g l1 IH]; simpl; [lia|]. rewrite IH. lia. Qed.

Lemma live_app (l1 l2 : list (option FileGroup)) :
  live (l1 ++ l2) = live l1 ++ live l2.
Proof. apply omap_app. Qed.

Lemma live_cons_Some (g : FileGroup) (l : list (option FileGroup)) :
  live (Some g :: l) = g :: live l.
Proof. reflexivity. Qed.

Lemma live_cons_None (l : list (option FileGroup)) : live (None :: l) = live l.
Proof. reflexivity. Qed.

Lemma extract_group_functions_changes (h : store) (g1 g2 g : FileGroup) :
  g_changes g = g_changes g1 ++ g_changes g2 ->
  extract_group_functions h g
  = extract_group_functions h g1 ∪ extract_group_functions h g2.
Proof.
  intros E. unfold extract_group_functions.
  rewrite E, omap_app, map_app. apply union_list_app_L.
Qed.

Lemma merge_groups_Ok (gi gj : FileGroup) :
  has_files gi ->
  exists merged,
    merge_groups gi gj = Ok merged
    /\ g_changes merged = g_changes gi ++ g_changes gj
    /\ g_total_lines merged = (g_total_lines gi + g_total_lines gj)%Z
    /\ has_files merged.
Proof.
  unfold has_files, merge_groups. intros Hi.
  set (combined := group_files gi ++ _).
  assert (Hc : combined <> []).
  { unfold combined. destruct (group_files gi); [done|discriminate]. }
  destruct combined as [|f [|f' fs]] eqn:E; [done| |];
    simpl; eexists; (split; [reflexivity|]); simpl; repeat split; discriminate.
Qed.

(** The effect of one merge on the working lists. *)
Lemma merge_pair_spec (h : store) (wg : list (option FileGroup))
    (wf : list (gset string)) (i j : nat) :
  working_ok h (wg, wf) -> i < j -> qualifies wg wf i j ->
  exists wg' wf',
    merge_pair wg wf i j = Ok (wg', wf')
    /\ working_ok h (wg', wf')
    /\ length wg' = length wg
    /\ S (length (live wg')) = length (live wg)
    /\ all_changes (live wg') ≡ₚ all_changes (live wg)
    /\ sum_lines (live wg') = sum_lines (live wg).
Proof.
  intros [Hlen Hok] Hij (gi & gj & Hi & Hj & _). simpl in *.
  destruct (Hok i gi Hi) as [Hfi Hwi].
  destruct (Hok j gj Hj) as [Hfj Hwj].
  destruct (merge_groups_Ok gi gj Hfi) as (m & Hm & Hmc & Hml & Hmf).
  unfold merge_pair. rewrite Hi, Hj, Hm. simpl.
  eexists _, _. split; [reflexivity|].
  destruct (lookup_two_split wg i j _ _ Hij Hi Hj) as (l1 & l2 & l3 & E & El1 & El2).
  assert (Ewg : <[j:=None]> (<[i:=Some m]> wg)
                = l1 ++ Some m :: l2 ++ None :: l3).
  { rewrite E, <- El1, insert_at_length, El2.
    replace (l1 ++ Some m :: l2 ++ Some gj :: l3)
      with ((l1 ++ Some m :: l2) ++ Some gj :: l3) by (by rewrite <- app_assoc).
    replace (length l1 + S (length l2)) with (length (l1 ++ Some m :: l2))
      by (rewrite length_app; simpl; lia).
    rewrite insert_at_length. by rewrite <- app_assoc. }
  assert (Hlive : live wg = live l1 ++ [gi] ++ live l2 ++ [gj] ++ live l3).
  { rewrite E, live_app, live_cons_Some, live_app, live_cons_Some. done. }
  assert (Hlive' : live (<[j:=None]> (<[i:=Some m]> wg))
                   = live l1 ++ [m] ++ live l2 ++ live l3).
  { rewrite Ewg, live_app, live_cons_Some, live_app, live_cons_None. done. }
  split; [|split; [|split; [|split]]].
  - split; simpl.
    + by rewrite !length_insert.
    + intros k g Hk.
      destruct (decide (k = j)) as [->|Hkj].
      { rewrite list_lookup_insert_eq in Hk; [discriminate|].
        rewrite length_insert. by apply lookup_lt_Some in Hj. }
      rewrite list_lookup_insert_ne in Hk by done.
      rewrite list_lookup_insert_ne by done.
      destruct (decide (k = i)) as [->|Hki].
      * rewrite list_lookup_insert_eq in Hk by (by apply lookup_lt_Some in Hi).
        injection Hk as <-. split; [done|].
        rewrite list_lookup_insert_eq
          by (rewrite Hlen; by apply lookup_lt_Some in Hi).
        rewrite Hwi, Hwj. simpl. f_equal. symmetry.
        by apply extract_group_functions_changes.
      * rewrite list_lookup_insert_ne in Hk by done.
        rewrite list_lookup_insert_ne by done. by apply Hok.
  - by rewrite !length_insert.
  - rewrite Hlive', Hlive. repeat (rewrite ?length_app; simpl). lia.
  - assert (Hs : forall g, all_changes [g] = g_changes g)
      by (intros; unfold all_changes; simpl; apply app_nil_r).
    rewrite Hlive', Hlive, !all_changes_app, !Hs, Hmc. solve_Permutation.
  - rewrite Hlive', Hlive, !sum_lines_app. simpl. lia.
Qed.

Lemma similarity_loop_spec (h : store) (turns : nat)
    (wg : list (option FileGroup)) (wf : list (gset string)) :
  working_ok h (wg, wf) -> length (live wg) <= turns ->
  exists wg' wf',
    similarity_loop turns wg wf = Ok (wg', wf')
    /\ rtc similarity_step (wg, wf) (wg', wf')
    /\ find_best_pair wg' wf' = None
    /\ working_ok h (wg', wf')
    /\ all_changes (live wg') ≡ₚ all_changes (live wg)
    /\ sum_lines (live wg') = sum_lines (live wg)
    /\ length wg' = length wg.
Proof.
  revert wg wf. induction turns as [|turns IH]; intros wg wf Hok Hlen.
  - unfold similarity_loop.
    destruct (find_best_pair wg wf) as [[i j]|] eqn:E.
    + apply find_best_pair_Some in E as [Hij Hq].
      destruct (merge_pair_spec h wg wf i j Hok) as (? & ? & _ & _ & _ & Hl & _);
        [lia|done|lia].
    + exists wg, wf. repeat (split; [done|]). done.
  - simpl. destruct (find_best_pair wg wf) as [[i j]|] eqn:E.
    + pose proof E as E'. apply find_best_pair_Some in E' as [Hij Hq].
      destruct (merge_pair_spec h wg wf i j Hok)
        as (wg1 & wf1 & Hm & Hok1 & Hlen1 & Hl & Hperm & Hsum); [lia|done|].
      rewrite Hm. simpl.
      destruct (IH wg1 wf1 Hok1) as (wg' & wf' & Hr & Hrtc & Hn & Hok' & Hp' & Hs' & Hl');
        [lia|].
      exists wg', wf'. split; [exact Hr|]. split.
      { eapply rtc_l; [|exact Hrtc]. exists i, j. by split. }
      split; [exact Hn|]. split; [exact Hok'|].
      split; [by rewrite Hp'|]. split; [lia|lia].
    + exists wg, wf. repeat (split; [done|]). done.
Qed.

Lemma set_numbers_idem (a b : Z) (c : Change) :
  set_numbers 0 0 (set_numbers a b c) = set_numbers 0 0 c.
Proof. reflexivity. Qed.

Lemma same_changes_refl (h : store) : same_changes h h.
Proof. intros a. reflexivity. Qed.

Lemma same_changes_trans (h1 h2 h3 : store) :
  same_changes h1 h2 -> same_changes h2 h3 -> same_changes h1 h3.
Proof. intros H1 H2 a. by rewrite H2, H1. Qed.

Lemma renumber_changes_same (idx n : Z) (changes : list nat) (h : store) :
  same_changes h (renumber_changes idx n changes h).
Proof.
  revert n h. induction changes as [|a changes IH]; intros n h; simpl.
  - apply same_changes_refl.
  - eapply same_changes_trans; [|apply IH].
    intros a'. rewrite lookup_alter. case_decide as Ha; [subst a'|done].
    by destruct (h !! a).
Qed.

Lemma number_groups_spec (idx : Z) (groups : list FileGroup) (h : store) :
  Forall2 same_group (number_groups idx groups h).1 groups
  /\ same_changes h (number_groups idx groups h).2.
Proof.
  revert idx h. induction groups as [|g groups IH]; intros idx h; simpl.
  - split; [constructor|apply same_changes_refl].
  - destruct (number_groups (idx + 1) groups
                (renumber_changes idx 1 (g_changes g) h)) as [gs h2] eqn:E.
    specialize (IH (idx + 1)%Z (renumber_changes idx 1 (g_changes g) h)).
    rewrite E in IH. destruct IH as [IH1 IH2]. simpl in *. split.
    + constructor; [by repeat split|exact IH1].
    + eapply same_changes_trans; [apply renumber_changes_same|exact IH2].
Qed.

Lemma same_group_all_changes (out groups : list FileGroup) :
  Forall2 same_group out groups -> all_changes out = all_changes groups.
Proof.
  unfold all_changes. induction 1 as [|g g0 out groups (Hc & _) _ IH]; simpl; [done|].
  by rewrite Hc, IH.
Qed.

Lemma same_group_sum_lines (out groups : list FileGroup) :
  Forall2 same_group out groups -> sum_lines out = sum_lines groups.
Proof.
  induction 1 as [|g g0 out groups (_ & Hl & _) _ IH]; simpl; [done|].
  by rewrite Hl, IH.
Qed.

Lemma change_functions_numbers (a b : Z) (c : Change) :
  change_functions (set_numbers a b c) = change_functions c.
Proof. reflexivity. Qed.

Lemma extract_group_functions_same (h h' : store) (g g0 : FileGroup) :
  same_changes h h' -> same_group g g0 ->
  extract_group_functions h' g = extract_group_functions h g0.
Proof.
  intros Hh (Hc & _). unfold extract_group_functions. rewrite Hc. clear Hc.
  f_equal. induction (g_changes g0) as [|a l IH]; [done|].
  simpl. specialize (Hh a).
  destruct (h' !! a) as [c'|], (h !! a) as [c|]; simpl in *; try done.
  injection Hh as _ Hf _ _ _ Hd _. f_equal; [|exact IH].
  unfold change_functions. by rewrite Hf, Hd.
Qed.

(** The slots of the live list keep the order of the working list. *)
Lemma live_lookup (l : list (option FileGroup)) (j : nat) (y : FileGroup) :
  live l !! j = Some y -> exists j', l !! j' = Some (Some y).
Proof.
  revert j. induction l as [|[g|] l IH]; intros j H; [done| |].
  - rewrite live_cons_Some in H. destruct j as [|j]; simpl in H.
    + injection H as <-. by exists 0.
    + destruct (IH j H) as [j' Hj']. by exists (S j').
  - rewrite live_cons_None in H. destruct (IH j H) as [j' Hj']. by exists (S j').
Qed.

Lemma live_lookup_lt (l : list (option FileGroup)) (i j : nat) (x y : FileGroup) :
  i < j -> live l !! i = Some x -> live l !! j = Some y ->
  exists i' j', i' < j' /\ l !! i' = Some (Some x) /\ l !! j' = Some (Some y).
Proof.
  revert i j. induction l as [|[g|] l IH]; intros i j Hij Hi Hj; [done| |].
  - rewrite live_cons_Some in Hi, Hj. destruct j as [|j]; [lia|]. simpl in Hj.
    destruct i as [|i]; simpl in Hi.
    + injection Hi as <-. destruct (live_lookup l j y Hj) as [j' Hj'].
      exists 0, (S j'). split; [lia|]. split; done.
    + destruct (IH i j) as (i' & j' & H1 & H2 & H3); [lia|done|done|].
      exists (S i'), (S j'). split; [lia|]. split; done.
  - rewrite live_cons_None in Hi, Hj.
    destruct (IH i j Hij Hi Hj) as (i' & j' & H1 & H2 & H3).
    exists (S i'), (S j'). split; [lia|]. split; done.
Qed.

(** The working lists at the start of the pass. *)
Lemma working_ok_init (h : store) (file_groups : list FileGroup) :
  Forall has_files file_groups ->
  working_ok h (map Some file_groups, map (extract_group_functions h) file_groups).
Proof.
  intros Hf. split; simpl; [by rewrite !length_map|].
  intros i g Hi. rewrite list_lookup_fmap in Hi.
  destruct (file_groups !! i) as [g'|] eqn:E; [|done]. injection Hi as <-.
  split.
  - rewrite Forall_forall in Hf. apply Hf. by eapply list_elem_of_lookup_2.
  - by rewrite list_lookup_fmap, E.
Qed.

Lemma live_map_Some (groups : list FileGroup) : live (map Some groups) = groups.
Proof. induction groups as [|g groups IH]; [done|]. simpl.
  change (live (Some g :: map Some groups) = g :: groups).
  by rewrite live_cons_Some, IH.
Qed.

(** The similarity pass, end to end. *)
Lemma combine_groups_by_similarity_spec (file_groups : list FileGroup) (h : store) :
  Forall has_files file_groups ->
  exists out h',
    combine_groups_by_similarity file_groups h = Ok (out, h')
    /\ all_changes out ≡ₚ all_changes file_groups
    /\ sum_lines out = sum_lines file_groups
    /\ same_changes h h'
    /\ (1 < length file_groups ->
        exists wg wf,
          rtc similarity_step
            (map Some file_groups, map (extract_group_functions h) file_groups)
            (wg, wf)
          /\ find_best_pair wg wf = None
          /\ working_ok h (wg, wf)
          /\ Forall2 same_group out (live wg)).
Proof.
  intros Hf. unfold combine_groups_by_similarity.
  destruct (length file_groups <=? 1) eqn:E.
  { apply Nat.leb_le in E. exists file_groups, h.
    repeat (split; [done|]). lia. }
  destruct (similarity_loop_spec h (length file_groups) (map Some file_groups)
              (map (extract_group_functions h) file_groups))
    as (wg & wf & Hr & Hrtc & Hn & Hok & Hp & Hs & _).
  { by apply working_ok_init. }
  { by rewrite live_map_Some. }
  rewrite Hr. simpl.
  destruct (number_groups_spec 1 (omap id wg) h) as [H1 H2].
  destruct (number_groups 1 (omap id wg) h) as [out h'] eqn:En. simpl in *.
  exists out, h'. split; [done|]. fold (live wg) in H1.
  rewrite live_map_Some in Hp, Hs.
  split; [by rewrite (same_group_all_changes _ _ H1)|].
  split; [by rewrite (same_group_sum_lines _ _ H1)|].
  split; [done|]. intros _. by exists wg, wf.
Qed.

Lemma similarity_step_spec (h : store)
    (s s' : list (option FileGroup) * list (gset string)) :
  working_ok h s -> similarity_step s s' ->
  working_ok h s'
  /\ exists i j gi gj,
       i < j
       /\ s.1 !! i = Some (Some gi)
       /\ s.1 !! j = Some (Some gj)
       /\ (g_total_lines gi + g_total_lines gj <= MAX_SIMILARITY_COMBINED_LINES)%Z
       /\ (MIN_FUNCTION_OVERLAP_RATIO
           <= calculate_function_overlap (extract_group_functions h gi)
                (extract_group_functions h gj))%Q.
Proof.
  destruct s as [wg wf]. intros Hok (i & j & Hb & Hm). simpl in *.
  apply find_best_pair_Some in Hb as [Hij Hq].
  destruct (merge_pair_spec h wg wf i j Hok) as (wg' & wf' & Hm' & Hok' & _);
    [lia|done|].
  rewrite Hm in Hm'. injection Hm' as ->. split; [exact Hok'|].
  destruct Hq as (gi & gj & Hi & Hj & Hl & Ho).
  exists i, j, gi, gj. split; [lia|]. split; [done|]. split; [done|].
  split; [done|].
  destruct Hok as [_ Hok]. simpl in Hok.
  destruct (Hok i gi Hi) as [_ Hwi]. destruct (Hok j gj Hj) as [_ Hwj].
  by rewrite Hwi, Hwj in Ho.
Qed.

(** The pair that a turn merges, and what the turn makes of it. *)
Lemma similarity_step_merges (h : store)
    (s s' : list (option FileGroup) * list (gset string)) :
  working_ok h s -> similarity_step s s' ->
  exists i j gi gj merged,
    turn_merges h s s' i j gi gj merged
    /\ (g_total_lines gi + g_total_lines gj <= MAX_SIMILARITY_COMBINED_LINES)%Z
    /\ (MIN_FUNCTION_OVERLAP_RATIO
        <= calculate_function_overlap (extract_group_functions h gi)
             (extract_group_functions h gj))%Q.
Proof.
  destruct s as [wg wf]. intros Hok (i & j & Hb & Hm). cbn [fst snd] in *.
  pose proof Hb as Hb'.
  apply find_best_pair_Some in Hb' as [Hij (gi & gj & Hi & Hj & Hl & Ho)].
  destruct Hok as [_ Hok]. cbn [fst snd] in Hok.
  destruct (Hok i gi Hi) as [Hfi Hwi]. destruct (Hok j gj Hj) as [_ Hwj].
  rewrite Hwi, Hwj in Ho. cbn [default] in Ho.
  destruct (merge_groups_Ok gi gj Hfi) as (merged & Hmg & Hc & Hml & _).
  unfold merge_pair in Hm. rewrite Hi, Hj, Hmg in Hm.
  cbn [mbind exc_bind mret exc_ret] in Hm. rewrite Hwi, Hwj in Hm.
  cbn [default] in Hm. injection Hm as <-.
  exists i, j, gi, gj, merged. split; [|by split].
  unfold turn_merges. cbn [fst snd]. split_and!; try done. lia.
Qed.

Lemma similarity_pass_chain (file_groups : list FileGroup) (h : store) :
  Forall has_files file_groups ->
  exists out h',
    combine_groups_by_similarity file_groups h = Ok (out, h')
    /\ (length file_groups <= 1 -> out = file_groups)
    /\ (1 < length file_groups ->
        exists wg wf,
          rtc similarity_step
            (map Some file_groups, map (extract_group_functions h) file_groups)
            (wg, wf)
          /\ working_ok h (wg, wf)
          /\ Forall2 same_group out (live wg)).
Proof.
  intros Hf.
  destruct (combine_groups_by_similarity_spec file_groups h Hf)
    as (out & h' & Hr & _ & _ & _ & Hchain).
  exists out, h'. split; [exact Hr|]. split.
  - intros Hle. unfold combine_groups_by_similarity in Hr.
    apply Nat.leb_le in Hle. rewrite Hle in Hr. by injection Hr as <- _.
  - intros Hlt. destruct (Hchain Hlt) as (wg & wf & H1 & _ & H2 & H3).
    by exists wg, wf.
Qed.

Lemma overlap_formula (A B : gset string) :
  A <> ∅ -> B <> ∅ ->
  calculate_function_overlap A B
  = (inject_Z (Z.of_nat (size (A ∩ B)))
     / inject_Z (Z.of_nat (Nat.min (size A) (size B))))%Q.
Proof.
  intros HA HB. unfold calculate_function_overlap.
  rewrite !bool_decide_eq_false_2 by done. reflexivity.
Qed.

Lemma overlap_self (A : gset string) :
  A <> ∅ -> (calculate_function_overlap A A == 1)%Q.
Proof.
  intros HA. rewrite overlap_formula by done.
  replace (A ∩ A) with A by (symmetry; apply leibniz_equiv, intersection_idemp).
  rewrite Nat.min_id. apply Qmult_inv_r.
  assert (size A <> 0) by (intros E; apply size_empty_inv in E; by apply leibniz_equiv in E).
  unfold Qeq. simpl. lia.
Qed.

Lemma overlap_disjoint (A B : gset string) :
  A ∩ B = ∅ -> (calculate_function_overlap A B == 0)%Q.
Proof.
  intros E. unfold calculate_function_overlap.
  destruct (_ || _); [reflexivity|].
  rewrite E, size_empty. unfold Qdiv. apply Qmult_0_l.
Qed.

Lemma threshold_needs_common (A B : gset string) :
  (MIN_FUNCTION_OVERLAP_RATIO <= calculate_function_overlap A B)%Q ->
  A ∩ B <> ∅.
Proof.
  intros H E. apply overlap_disjoint in E. rewrite E in H.
  apply (Qlt_not_le _ _ min_ratio_pos H).
Qed.

(** ** The coalescing pass *)

Lemma coalesce_loop_spec (cur : option combined_acc) (gs : list StageGroup) :
  from_option (fun c => ca_files c <> []) True cur ->
  concat (map ca_changes (coalesce_loop cur gs))
  = from_option ca_changes [] cur ++ stage_changes gs
  /\ foldr (fun c n => (ca_total_lines c + n)%Z) 0%Z (coalesce_loop cur gs)
     = (from_option ca_total_lines 0 cur + stage_lines gs)%Z
  /\ Forall (fun c => ca_files c <> []) (coalesce_loop cur gs).
Proof.
  revert cur. induction gs as [|g gs IH]; intros cur Hcur; simpl.
  - destruct cur as [c|]; simpl in *.
    + rewrite !app_nil_r. split_and!; [done|lia|by constructor].
    + split_and!; [done|done|constructor].
  - unfold stage_changes in *. simpl.
    destruct cur as [c|]; simpl in *.
    + destruct (_ <=? _)%Z.
      * destruct (IH (Some {| ca_files := ca_files c ++ [sg_file g];
                              ca_changes := ca_changes c ++ sg_changes g;
                              ca_total_lines :=
                                (ca_total_lines c + sg_total_lines g)%Z |}))
          as (H1 & H2 & H3).
        { simpl. by destruct (ca_files c). }
        simpl in *. rewrite H1, H2, <- app_assoc. split_and!; [done|lia|done].
      * destruct (IH (Some (start_combined g))) as (H1 & H2 & H3); [done|].
        simpl in *. rewrite H1, H2. split_and!; [done|lia|by constructor].
    + destruct (IH (Some (start_combined g))) as (H1 & H2 & H3); [done|].
      simpl in *. rewrite H1, H2. split_and!; [done|lia|done].
Qed.

Lemma number_combined_spec (idx : Z) (cgroups : list combined_acc) (h : store) :
  Forall (fun c => ca_files c <> []) cgroups ->
  all_changes (number_combined idx cgroups h).1
  = concat (map ca_changes cgroups)
  /\ sum_lines (number_combined idx cgroups h).1
     = foldr (fun c n => (ca_total_lines c + n)%Z) 0%Z cgroups
  /\ Forall has_files (number_combined idx cgroups h).1
  /\ same_changes h (number_combined idx cgroups h).2.
Proof.
  intros H. revert idx h.
  induction H as [|c cgroups Hc _ IH]; intros idx h; simpl.
  - split_and!; [done|done|constructor|apply same_changes_refl].
  - specialize (IH (idx + 1)%Z (renumber_changes idx 1 (ca_changes c) h)).
    destruct (number_combined (idx + 1) cgroups
                (renumber_changes idx 1 (ca_changes c) h)) as [gs h2].
    destruct IH as (H1 & H2 & H3 & H4). simpl in *.
    unfold all_changes in *. simpl. rewrite H1, H2.
    split; [done|]. split; [done|]. split.
    + constructor; [exact Hc|exact H3].
    + eapply same_changes_trans; [apply renumber_changes_same|exact H4].
Qed.

Lemma coalesce_groups_spec (file_groups : list StageGroup) (h : store) :
  all_changes (coalesce_groups file_groups h).1 = stage_changes file_groups
  /\ sum_lines (coalesce_groups file_groups h).1 = stage_lines file_groups
  /\ Forall has_files (coalesce_groups file_groups h).1
  /\ same_changes h (coalesce_groups file_groups h).2.
Proof.
  unfold coalesce_groups. destruct (1 <? length file_groups).
  - destruct (coalesce_loop_spec None file_groups) as (H1 & H2 & H3); [done|].
    destruct (number_combined_spec 1 (coalesce_loop None file_groups) h H3)
      as (G1 & G2 & G3 & G4).
    rewrite G1, G2, H1, H2. simpl. split_and!; [done|lia|done|done].
  - simpl. split; [|split; [|split]].
    + unfold all_changes, stage_changes. by rewrite map_map.
    + induction file_groups as [|g gs IH]; simpl; [done|]. by rewrite IH.
    + apply Forall_forall. intros g Hg.
      apply list_elem_of_fmap in Hg as (g0 & -> & _). done.
    + apply same_changes_refl.
Qed.

(** ** Claims about the group builder *)

(** C6: for non-empty sets [calculate_function_overlap] is the size of the
    intersection divided by the size of the smaller set; and every merge of
    the similarity pass joins two groups whose overlap ratio is at least
    [MIN_FUNCTION_OVERLAP_RATIO] and whose combined [total_lines] is at most
    [MAX_SIMILARITY_COMBINED_LINES].  The pair returned by the search is
    such a pair.  A turn of the loop merges the pair that the search
    returns and no other: the state after the turn is the state before it
    with the two groups of that pair replaced by their merge, and those two
    groups meet the two conditions, where the function sets compared are
    those of the changes of the two groups.  The pass returns its input
    when it gets one group or none, and otherwise the groups left by a
    chain of such turns from its input. *)
Theorem C6_overlap_ratio_and_merge_condition :
  (forall A B : gset string,
     A <> ∅ -> B <> ∅ ->
     calculate_function_overlap A B
     = (inject_Z (Z.of_nat (size (A ∩ B)))
        / inject_Z (Z.of_nat (Nat.min (size A) (size B))))%Q)
  /\ (forall wg wf i j,
        find_best_pair wg wf = Some (i, j) ->
        i < j
        /\ exists gi gj,
             wg !! i = Some (Some gi)
             /\ wg !! j = Some (Some gj)
             /\ (g_total_lines gi + g_total_lines gj
                 <= MAX_SIMILARITY_COMBINED_LINES)%Z
             /\ (MIN_FUNCTION_OVERLAP_RATIO
                 <= calculate_function_overlap (default ∅ (wf !! i))
                      (default ∅ (wf !! j)))%Q)
  /\ (forall h s s',
        working_ok h s -> similarity_step s s' ->
        working_ok h s'
        /\ exists i j gi gj merged,
             turn_merges h s s' i j gi gj merged
             /\ (g_total_lines gi + g_total_lines gj
                 <= MAX_SIMILARITY_COMBINED_LINES)%Z
             /\ (MIN_FUNCTION_OVERLAP_RATIO
                 <= calculate_function_overlap (extract_group_functions h gi)
                      (extract_group_functions h gj))%Q)
  /\ (forall file_groups h,
        Forall has_files file_groups ->
        exists out h',
          combine_groups_by_similarity file_groups h = Ok (out, h')
          /\ (length file_groups <= 1 -> out = file_groups)
          /\ (1 < length file_groups ->
              exists wg wf,
                rtc similarity_step
                  (map Some file_groups,
                   map (extract_group_functions h) file_groups)
                  (wg, wf)
                /\ working_ok h (wg, wf)
                /\ Forall2 same_group out (live wg))).
Proof.
  split; [apply overlap_formula|]. split; [|split].
  - intros wg wf i j H. apply find_best_pair_Some in H as [Hij Hq].
    split; [lia|exact Hq].
  - intros h s s' Hok Hstep. split.
    + by destruct (similarity_step_spec h s s' Hok Hstep).
    + by apply similarity_step_merges.
  - apply similarity_pass_chain.
Qed.

Lemma C6_overlap_ratio_and_merge_condition_witness :
  calculate_function_overlap {[ "f"; "g" ]} {[ "g"; "h"; "k" ]}
  = (inject_Z 1 / inject_Z 2)%Q
  /\ exists gi gj,
       map Some same_symbol_groups !! 0 = Some (Some gi)
       /\ map Some same_symbol_groups !! 1 = Some (Some gj)
       /\ (g_total_lines gi + g_total_lines gj
           <= MAX_SIMILARITY_COMBINED_LINES)%Z
       /\ (MIN_FUNCTION_OVERLAP_RATIO
           <= calculate_function_overlap
                (default ∅ (map (extract_group_functions same_symbol_store)
                              same_symbol_groups !! 0%nat))
                (default ∅ (map (extract_group_functions same_symbol_store)
                              same_symbol_groups !! 1%nat)))%Q.
Proof.
  destruct C6_overlap_ratio_and_merge_condition as (H1 & H2 & _). split.
  - rewrite H1; [vm_compute; reflexivity|vm_compute; discriminate
                 |vm_compute; discriminate].
  - apply (H2 (map Some same_symbol_groups)
              (map (extract_group_functions same_symbol_store) same_symbol_groups)
              0 1).
    vm_compute. reflexivity.
Defined.

(** C2, as stated, fails on both counts.  The pass is greedy: of three groups
    that touch the same function, the first two are merged and then leave no
    room for the third, although the first and the third have identical
    function sets and 400 lines together.  And a merge compares the sets of
    the working groups, which grow: two groups whose sets are disjoint end
    in one group after each was merged with a group that shares a function
    with it. *)
Lemma C2_counterexample :
  (extract_group_functions same_symbol_store <$> same_symbol_groups)
  = [ {[ "f" ]}; {[ "f" ]}; {[ "f" ]} ]
  /\ (map g_changes ∘ fst <$>
        combine_groups_by_similarity same_symbol_groups same_symbol_store)
     = Ok [ [0; 1]; [2] ]
  /\ (extract_group_functions bridge_store <$> bridge_groups)
     = [ {[ "f" ]}; {[ "g" ]}; {[ "f"; "g" ]} ]
  /\ (map g_changes ∘ fst <$>
        combine_groups_by_similarity bridge_groups bridge_store)
     = Ok [ [0; 2; 1] ].
Proof. vm_compute. repeat split; reflexivity. Qed.

Lemma best_pair_of_two (g1 g2 : FileGroup) (A B : gset string) :
  (g_total_lines g1 + g_total_lines g2 <= MAX_SIMILARITY_COMBINED_LINES)%Z ->
  (MIN_FUNCTION_OVERLAP_RATIO <= calculate_function_overlap A B)%Q ->
  find_best_pair [Some g1; Some g2] [A; B] = Some (0, 1).
Proof.
  intros Hl Ho. unfold find_best_pair. cbn [length index_pairs].
  change (index_pairs 2) with [(0, 1)]. cbn [foldl].
  destruct (consider_pair_spec [Some g1; Some g2] [A; B]
              {| best_overlap := 0; best_pair := None |} 0 1)
    as [(E & _)|(_ & Hn)].
  - by rewrite E.
  - exfalso. simpl in Hn.
    assert (Hq : qualifies [Some g1; Some g2] [A; B] 0 1).
    { exists g1, g2. by repeat split. }
    specialize (Hn Hq). apply (Qlt_not_le _ _ min_ratio_pos).
    eapply Qle_trans; eassumption.
Qed.

Lemma best_pair_of_one (g : FileGroup) (wf : list (gset string)) :
  find_best_pair [Some g; None] wf = None.
Proof. reflexivity. Qed.

(** C2 (amended): the similarity pass merges two groups with identical,
    non-empty function sets and a combined size within the cap when they
    are the only groups; on any input it stops only when no two groups are
    left whose overlap ratio reaches the threshold within the cap, so two
    groups of its result with identical non-empty sets are over the cap
    together; and each of its merges joins two working groups that share a
    function, so groups with disjoint sets are never merged with each other
    directly: a turn of the loop replaces the two groups of the pair that
    the search returns, and no other group, by their merge, and the function
    sets of those two groups have a function in common.  The pass returns
    its input when it gets one group or none, and otherwise the groups left
    by a chain of such turns from its input. *)
Theorem C2_similarity_merges :
  (forall g1 g2 h,
     has_files g1 ->
     extract_group_functions h g1 = extract_group_functions h g2 ->
     extract_group_functions h g1 <> ∅ ->
     (g_total_lines g1 + g_total_lines g2 <= MAX_SIMILARITY_COMBINED_LINES)%Z ->
     exists g h',
       combine_groups_by_similarity [g1; g2] h = Ok ([g], h')
       /\ g_changes g = g_changes g1 ++ g_changes g2)
  /\ (forall file_groups h out h',
        Forall has_files file_groups ->
        combine_groups_by_similarity file_groups h = Ok (out, h') ->
        forall i j gi gj,
          i < j -> out !! i = Some gi -> out !! j = Some gj ->
          (g_total_lines gi + g_total_lines gj
           <= MAX_SIMILARITY_COMBINED_LINES)%Z ->
          ~ (MIN_FUNCTION_OVERLAP_RATIO
             <= calculate_function_overlap (extract_group_functions h' gi)
                  (extract_group_functions h' gj))%Q
          /\ ~ (extract_group_functions h' gi = extract_group_functions h' gj
                /\ extract_group_functions h' gi <> ∅))
  /\ (forall h s s',
        working_ok h s -> similarity_step s s' ->
        working_ok h s'
        /\ exists i j gi gj merged,
             turn_merges h s s' i j gi gj merged
             /\ extract_group_functions h gi ∩ extract_group_functions h gj
                <> ∅)
  /\ (forall file_groups h,
        Forall has_files file_groups ->
        exists out h',
          combine_groups_by_similarity file_groups h = Ok (out, h')
          /\ (length file_groups <= 1 -> out = file_groups)
          /\ (1 < length file_groups ->
              exists wg wf,
                rtc similarity_step
                  (map Some file_groups,
                   map (extract_group_functions h) file_groups)
                  (wg, wf)
                /\ working_ok h (wg, wf)
                /\ Forall2 same_group out (live wg))).
Proof.
  split; [|split; [|split]].
  - intros g1 g2 h Hf Hsame Hne Hl.
    unfold combine_groups_by_similarity. cbn [length Nat.leb map].
    cbn [similarity_loop].
    rewrite best_pair_of_two; [|done|].
    2:{ rewrite <- Hsame, overlap_self by done. discriminate. }
    destruct (merge_groups_Ok g1 g2 Hf) as (m & Hm & Hc & _).
    unfold merge_pair. cbn [lookup list_lookup]. rewrite Hm.
    cbn [mbind exc_bind mret exc_ret]. cbn [insert list_insert].
    rewrite best_pair_of_one. cbn [mbind exc_bind mret exc_ret].
    cbn [omap list_omap id number_groups].
    eexists _, _. split; [reflexivity|]. exact Hc.
  - intros file_groups h out h' Hf Hr i j gi gj Hij Hi Hj Hl.
    destruct (combine_groups_by_similarity_spec file_groups h Hf)
      as (out0 & h0 & Hr0 & _ & _ & Hsc & Hchain).
    rewrite Hr in Hr0. injection Hr0 as <- <-.
    assert (Hlen : 1 < length file_groups).
    { unfold combine_groups_by_similarity in Hr.
      destruct (length file_groups <=? 1) eqn:E; [|apply Nat.leb_gt in E; lia].
      injection Hr as <- <-. apply Nat.leb_le in E.
      apply lookup_lt_Some in Hj. lia. }
    destruct (Hchain Hlen) as (wg & wf & _ & Hnone & Hok & Hsg).
    destruct (Forall2_lookup_l _ _ _ _ _ Hsg Hi) as (gi0 & Hi0 & Hsi).
    destruct (Forall2_lookup_l _ _ _ _ _ Hsg Hj) as (gj0 & Hj0 & Hsj).
    destruct (live_lookup_lt wg i j gi0 gj0 Hij Hi0 Hj0)
      as (i' & j' & Hij' & Hwi & Hwj).
    rewrite (extract_group_functions_same h h' gi gi0 Hsc Hsi).
    rewrite (extract_group_functions_same h h' gj gj0 Hsc Hsj).
    assert (Hno : ~ (MIN_FUNCTION_OVERLAP_RATIO
                     <= calculate_function_overlap
                          (extract_group_functions h gi0)
                          (extract_group_functions h gj0))%Q).
    { intros Ho.
      apply (find_best_pair_None wg wf Hnone i' j').
      - split; [lia|]. by apply lookup_lt_Some in Hwj.
      - destruct Hok as [_ Hok]. simpl in Hok.
        destruct (Hok i' gi0 Hwi) as [_ Hfi]. destruct (Hok j' gj0 Hwj) as [_ Hfj].
        exists gi0, gj0. split; [done|]. split; [done|].
        destruct Hsi as (_ & <- & _). destruct Hsj as (_ & <- & _).
        split; [done|]. by rewrite Hfi, Hfj. }
    split; [exact Hno|]. intros [Hsame Hne]. apply Hno.
    rewrite <- Hsame, overlap_self by done. discriminate.
  - intros h s s' Hok Hstep. split.
    + by destruct (similarity_step_spec h s s' Hok Hstep).
    + destruct (similarity_step_merges h s s' Hok Hstep)
        as (i & j & gi & gj & merged & Hm & _ & Ho).
      exists i, j, gi, gj, merged. split; [exact Hm|].
      by apply threshold_needs_common.
  - apply similarity_pass_chain.
Qed.

Lemma C2_similarity_merges_witness :
  exists g h',
    combine_groups_by_similarity
      [group_at "a.c" 200 [0]; group_at "c.c" 200 [2]] same_symbol_store
    = Ok ([g], h')
    /\ g_changes g = [0; 2].
Proof.
  destruct C2_similarity_merges as (H & _).
  apply (H (group_at "a.c" 200 [0]) (group_at "c.c" 200 [2]) same_symbol_store).
  - vm_compute. discriminate.
  - vm_compute. reflexivity.
  - vm_compute. discriminate.
  - vm_compute. discriminate.
Defined.

(** C10: both merging passes conserve the changes.  The groups that the
    coalescing pass returns hold the same addresses of [Change] objects as
    its input, in the same order, and the same sum of [total_lines]; the
    groups that the similarity pass returns hold a permutation of the
    addresses of its input (so a change that is in exactly one group before
    is in exactly one group after) and the same sum of [total_lines].  In
    both passes the objects themselves change in nothing but their
    numbering.  The groups handed to the similarity pass each name a file,
    as the groups that the coalescing pass returns do. *)
Theorem C10_merging_passes_conserve_changes :
  (forall (file_groups : list StageGroup) (h : store),
     all_changes (coalesce_groups file_groups h).1 = stage_changes file_groups
     /\ all_changes (coalesce_groups file_groups h).1
        ≡ₚ stage_changes file_groups
     /\ sum_lines (coalesce_groups file_groups h).1 = stage_lines file_groups
     /\ same_changes h (coalesce_groups file_groups h).2
     /\ Forall has_files (coalesce_groups file_groups h).1)
  /\ (forall (file_groups : list FileGroup) (h : store),
        Forall has_files file_groups ->
        exists out h',
          combine_groups_by_similarity file_groups h = Ok (out, h')
          /\ all_changes out ≡ₚ all_changes file_groups
          /\ (NoDup (all_changes file_groups) -> NoDup (all_changes out))
          /\ sum_lines out = sum_lines file_groups
          /\ same_changes h h').
Proof.
  split.
  - intros file_groups h.
    destruct (coalesce_groups_spec file_groups h) as (H1 & H2 & H3 & H4).
    split_and!; try done. by rewrite H1.
  - intros file_groups h Hf.
    destruct (combine_groups_by_similarity_spec file_groups h Hf)
      as (out & h' & Hr & Hp & Hs & Hsc & _).
    exists out, h'. split_and!; try done. intros Hnd. by rewrite Hp.
Qed.

Lemma C10_merging_passes_conserve_changes_witness :
  exists out h',
    combine_groups_by_similarity
      (coalesce_groups small_stage_groups same_symbol_store).1
      (coalesce_groups small_stage_groups same_symbol_store).2
    = Ok (out, h')
    /\ all_changes out ≡ₚ [0; 1; 2]
    /\ sum_lines out = 440%Z.
Proof.
  destruct C10_merging_passes_conserve_changes as [Hc Hs].
  destruct (Hc small_stage_groups same_symbol_store) as (H1 & _ & H2 & _ & H3).
  destruct (Hs _ (coalesce_groups small_stage_groups same_symbol_store).2 H3)
    as (out & h' & Hr & Hp & _ & Hl & _).
  exists out, h'. split; [exact Hr|]. split.
  - rewrite Hp, H1. reflexivity.
  - rewrite Hl, H2. reflexivity.
Defined.

(** * More of the program *)

(** ** The walk-back resolver *)

Lemma walk_back_result (lines : list string) (idxs : list Z) (s : string) :
  walk_back lines idxs = Ok (Some s) ->
  exists i l,
    i ∈ idxs /\ (0 <= i)%Z /\ lines !! Z.to_nat i = Some l
    /\ s = strip l /\ s <> EmptyString.
Proof.
  induction idxs as [|i idxs IH]; simpl; [discriminate|].
  assert (Hnext : walk_back lines idxs = Ok (Some s) ->
                  exists i0 l, i0 ∈ i :: idxs /\ (0 <= i0)%Z
                               /\ lines !! Z.to_nat i0 = Some l
                               /\ s = strip l /\ s <> EmptyString).
  { intros H. destruct (IH H) as (i0 & l & Hin & Hrest).
    exists i0, l. split; [apply elem_of_cons; by right|exact Hrest]. }
  destruct ((i <? 0)%Z || (len lines <=? i)%Z) eqn:E; [exact Hnext|].
  apply orb_false_iff in E as [E1 E2].
  apply Z.ltb_ge in E1. apply Z.leb_gt in E2.
  destruct (py_index_Ok lines i) as [line Hline]; [lia|]. rewrite Hline. simpl.
  destruct (is_empty (strip line) || _ || _) eqn:Ee; [exact Hnext|].
  assert (Hhere : forall r : option string, r = Some (strip line) ->
            r = Some s ->
            exists i0 l, i0 ∈ i :: idxs /\ (0 <= i0)%Z
                         /\ lines !! Z.to_nat i0 = Some l
                         /\ s = strip l /\ s <> EmptyString).
  { intros r -> [= <-]. exists i, line. split; [apply elem_of_cons; by left|].
    split; [done|]. split; [by apply py_index_lookup|]. split; [done|].
    intros Hs. rewrite Hs in Ee. discriminate. }
  destruct (is_false_positive_python_Ok line) as [fp ->]. simpl.
  destruct fp; [exact Hnext|].
  destruct (is_function_definition_python_Ok line lines i E1) as [fd ->]. simpl.
  destruct fd; [intros [= H]; by apply (Hhere _ eq_refl); rewrite H|].
  destruct (is_type_definition_python line);
    [intros [= H]; by apply (Hhere _ eq_refl); rewrite H|].
  destruct (startswith (strip line) "#define ");
    [intros [= H]; by apply (Hhere _ eq_refl); rewrite H|].
  destruct line as [|c line]; simpl; [exact Hnext|].
  destruct (isspace c); exact Hnext.
Qed.

(** X1: a symbol that [find_symbol_for_line_python] returns for a
    non-negative index is the stripped, non-empty text of a line of the
    buffer that lies at the target index or among the 50 lines before it. *)
Theorem X1_symbol_is_a_line_of_the_window (lines : list string) (line_idx : Z)
    (s : string) :
  (0 <= line_idx)%Z ->
  find_symbol_for_line_python lines line_idx = Ok (Some s) ->
  exists i l,
    (0 <= i /\ line_idx - 50 <= i <= line_idx)%Z
    /\ lines !! Z.to_nat i = Some l
    /\ s = strip l /\ s <> EmptyString.
Proof.
  intros Hidx. unfold find_symbol_for_line_python.
  destruct (len lines <=? line_idx)%Z eqn:E; [discriminate|].
  apply Z.leb_gt in E.
  replace (line_idx <? len lines)%Z with true by (symmetry; apply Z.ltb_lt; lia).
  destruct (py_index_Ok lines line_idx) as [x Hx]; [lia|]. rewrite Hx. simpl.
  assert (Hcur : forall r : option string, r = Some (strip x) ->
            strip x <> EmptyString -> r = Some s ->
            exists i l,
              (0 <= i /\ line_idx - 50 <= i <= line_idx)%Z
              /\ lines !! Z.to_nat i = Some l
              /\ s = strip l /\ s <> EmptyString).
  { intros r -> Hne [= <-]. exists line_idx, x. split; [lia|].
    split; [by apply py_index_lookup|]. by split. }
  destruct (startswith (strip x) "typedef " && _) eqn:Et.
  { intros [= H]. apply (Hcur _ eq_refl); [|by rewrite H].
    intros Hs. rewrite Hs in Et. discriminate. }
  destruct (startswith (strip x) "#define ") eqn:Ed.
  { intros [= H]. apply (Hcur _ eq_refl); [|by rewrite H].
    intros Hs. rewrite Hs in Ed. discriminate. }
  intros H. apply walk_back_result in H as (i & l & Hin & H0 & Hl & Hs & Hne).
  apply walk_back_window in Hin. exists i, l. split; [lia|]. by repeat split.
Qed.

Lemma X1_symbol_is_a_line_of_the_window_witness :
  exists i l,
    (0 <= i /\ 3 - 50 <= i <= 3)%Z
    /\ windowed_lines !! Z.to_nat i = Some l
    /\ "int top(void)" = strip l /\ "int top(void)" <> EmptyString.
Proof.
  apply (X1_symbol_is_a_line_of_the_window windowed_lines 3 "int top(void)").
  - lia.
  - vm_compute. reflexivity.
Defined.

(** ** The diff tokenizer *)

Lemma read_file_deref (st : tokenizer) (a : nat) :
  read_file st a
  = match file_store st !! a with
    | Some f => [deref_file st f]
    | None => []
    end.
Proof. reflexivity. Qed.

(** Reading a hunk list does not depend on a hunk that is not in it. *)
Lemma omap_lookup_alter (hs : list Hunk) (g : Hunk -> Hunk) (a : nat)
    (l : list nat) :
  a ∉ l ->
  omap (fun h => alter g a hs !! h) l = omap (fun h => hs !! h) l.
Proof.
  induction l as [|b l IH]; intros Ha; [done|]. simpl.
  apply not_elem_of_cons in Ha as [Hab Hal].
  rewrite list_lookup_alter_ne by done.
  destruct (hs !! b); [f_equal|]; by apply IH.
Qed.

Lemma omap_lookup_app (hs : list Hunk) (x : Hunk) (l : list nat) :
  (forall a, a ∈ l -> a < length hs) ->
  omap (fun h => (hs ++ [x]) !! h) l = omap (fun h => hs !! h) l.
Proof.
  induction l as [|b l IH]; intros Hl; [done|]. simpl.
  rewrite lookup_app_l by (apply Hl, elem_of_cons; by left).
  assert (Hl' : forall a, a ∈ l -> a < length hs)
    by (intros a Ha; apply Hl, elem_of_cons; by right).
  destruct (hs !! b); [f_equal|]; by apply IH.
Qed.

Lemma read_files_ext (st st' : tokenizer) :
  files st' = files st ->
  (forall k, k ∈ files st -> read_file st' k = read_file st k) ->
  read_files st' = read_files st.
Proof.
  unfold read_files. intros -> H.
  induction (files st) as [|k l IH]; [done|].
  cbn [mbind list_bind]. rewrite (H k) by (apply elem_of_cons; by left).
  f_equal. apply IH. intros k' Hk'. apply H, elem_of_cons. by right.
Qed.

(** A content line goes to the open hunk and to nothing else. *)
Lemma represents_content (di : option DiffInfo) (st : tokenizer) (s : vstate)
    (line : string) :
  represents st s -> plain_line line ->
  exists st',
    tokenize_line di st line = Ok st' /\ represents st' (vstep di s line).
Proof.
  intros (Hdone & Hfiles & Hhunks & Hfile & Hhunk) [Hf Hh].
  unfold tokenize_line, vstep. rewrite Hf, Hh.
  destruct (v_hunk s) as [h|] eqn:Eh.
  - destruct Hhunk as (a & Ha & Hah & Hfresh). rewrite Ha.
    destruct (is_content_line line); (eexists; split; [reflexivity|]);
      [|split_and!; simpl; [done|done|done|done|exists a; by split_and!]].
    set (st' := {| hunk_store := alter (hunk_append_line line) a (hunk_store st);
                   file_store := file_store st; files := files st;
                   current_file := current_file st;
                   current_hunk := Some a |}).
    assert (Hderef : forall k fobj, file_store st !! k = Some fobj ->
                       deref_file st' fobj = deref_file st fobj).
    { intros k fobj Hk. unfold deref_file. simpl. f_equal.
      apply omap_lookup_alter. by eapply Hfresh. }
    split_and!; simpl.
    + rewrite <- Hdone. apply read_files_ext; [reflexivity|]. intros k _.
      rewrite !read_file_deref. change (file_store st') with (file_store st).
      destruct (file_store st !! k) as [fobj|] eqn:Ek; [|done].
      by rewrite (Hderef k fobj Ek).
    + exact Hfiles.
    + intros k fobj b Hk Hb. rewrite length_alter. by eapply Hhunks.
    + destruct (v_file s) as [fc|]; [|done].
      destruct Hfile as (f & fobj & H1 & H2 & H3 & H4).
      exists f, fobj. split_and!; try done. by rewrite (Hderef f fobj H3).
    + exists a. split_and!; try done.
      by rewrite list_lookup_alter_eq, Hah.
  - rewrite Hhunk. eexists. split; [reflexivity|]. by split_and!.
Qed.

(** Closing the open hunk files it under the open file. *)
Lemma represents_close_hunk (st : tokenizer) (s : vstate) :
  represents st s -> represents (without_hunk (close_hunk st)) (vclose s).
Proof.
  intros (Hdone & Hfiles & Hhunks & Hfile & Hhunk).
  unfold close_hunk, vclose.
  destruct (v_file s) as [fc|] eqn:Ef.
  2:{ rewrite Hfile. split_and!; simpl; try done. }
  destruct Hfile as (f & fobj & Hcf & Hnew & Hf & Hfc). rewrite Hcf.
  destruct (v_hunk s) as [h|] eqn:Eh.
  2:{ rewrite Hhunk. split_and!; simpl; try done. by exists f, fobj. }
  destruct Hhunk as (a & Hch & Ha & Hfresh). rewrite Hch.
  assert (Hlt : a < length (hunk_store st)) by (by eapply lookup_lt_Some).
  assert (Hflt : f < length (file_store st)) by (by eapply lookup_lt_Some).
  split_and!; simpl.
  - rewrite <- Hdone. apply read_files_ext; [reflexivity|]. intros k Hk.
    rewrite !read_file_deref. simpl.
    rewrite list_lookup_alter_ne by (intros ->; done). reflexivity.
  - intros b Hb. rewrite length_alter. by apply Hfiles.
  - intros k fo b Hk Hb.
    destruct (decide (k = f)) as [->|Hne].
    + rewrite list_lookup_alter_eq, Hf in Hk. injection Hk as <-. simpl in Hb.
      apply elem_of_app in Hb as [Hb|Hb]; [by eapply Hhunks|].
      apply list_elem_of_singleton in Hb as ->. done.
    + rewrite list_lookup_alter_ne in Hk by done. by eapply Hhunks.
  - exists f, (file_append_hunk a fobj). split_and!; try done.
    + by rewrite list_lookup_alter_eq, Hf.
    + rewrite Hfc. unfold deref_file, file_with_hunk. simpl. f_equal.
      rewrite omap_app. simpl. by rewrite Ha.
  - done.
Qed.

(** Opening a hunk allocates it at the end of the hunk store. *)
Lemma represents_open_hunk (st : tokenizer) (s : vstate) (h : Hunk) :
  represents st s -> v_hunk s = None ->
  represents
    {| hunk_store := hunk_store st ++ [h]; file_store := file_store st;
       files := files st; current_file := current_file st;
       current_hunk := Some (length (hunk_store st)) |}
    {| v_done := v_done s; v_file := v_file s; v_hunk := Some h |}.
Proof.
  intros (Hdone & Hfiles & Hhunks & Hfile & _) _.
  set (st' := {| hunk_store := hunk_store st ++ [h]; file_store := file_store st;
                 files := files st; current_file := current_file st;
                 current_hunk := Some (length (hunk_store st)) |}).
  assert (Hderef : forall k fobj, file_store st !! k = Some fobj ->
                     deref_file st' fobj = deref_file st fobj).
  { intros k fobj Hk. unfold deref_file. simpl. f_equal.
    apply omap_lookup_app. intros a. by apply (Hhunks k fobj). }
  split_and!; simpl.
  - rewrite <- Hdone. apply read_files_ext; [reflexivity|]. intros k _.
    rewrite !read_file_deref. change (file_store st') with (file_store st).
    destruct (file_store st !! k) as [fobj|] eqn:Ek; [|done].
    by rewrite (Hderef k fobj Ek).
  - exact Hfiles.
  - intros k fobj a Hk Ha. rewrite length_app. simpl.
    specialize (Hhunks k fobj a Hk Ha). lia.
  - destruct (v_file s) as [fc|]; [|done].
    destruct Hfile as (f & fobj & H1 & H2 & H3 & H4).
    exists f, fobj. split_and!; try done. by rewrite (Hderef f fobj H3).
  - exists (length (hunk_store st)). split_and!; [done| |].
    + by rewrite lookup_app_r, Nat.sub_diag.
    + intros k fobj Hk Hin. specialize (Hhunks k fobj _ Hk Hin). lia.
Qed.

Lemma bind_read_file_ext (st st' : tokenizer) (l : list nat) :
  (forall k, k ∈ l -> read_file st' k = read_file st k) ->
  l ≫= read_file st' = l ≫= read_file st.
Proof.
  intros H. induction l as [|k l IH]; [done|].
  cbn [mbind list_bind]. rewrite (H k) by (apply elem_of_cons; by left).
  f_equal. apply IH. intros k' Hk'. apply H, elem_of_cons. by right.
Qed.

(** Opening a file lists the file that was open and allocates the new one. *)
Lemma represents_open_file (st : tokenizer) (s : vstate) (fo : FileObj) :
  represents st s -> v_hunk s = None -> fo_hunks fo = [] ->
  represents
    {| hunk_store := hunk_store (close_file st);
       file_store := file_store (close_file st) ++ [fo];
       files := files (close_file st);
       current_file := Some (length (file_store (close_file st)));
       current_hunk := None |}
    {| v_done := v_done s ++ match v_file s with
                             | Some f => [f]
                             | None => []
                             end;
       v_file := Some {| old_path := fo_old_path fo;
                         new_path := fo_new_path fo; hunks := [] |};
       v_hunk := None |}.
Proof.
  intros (Hdone & Hfiles & Hhunks & Hfile & _) _ Hfo.
  assert (Hfs : file_store (close_file st) = file_store st).
  { unfold close_file. by destruct (current_file st). }
  assert (Hhs : hunk_store (close_file st) = hunk_store st).
  { unfold close_file. by destruct (current_file st). }
  rewrite Hfs, Hhs.
  assert (Hlist : forall a, a ∈ files (close_file st) -> a < length (file_store st)).
  { unfold close_file. destruct (v_file s) as [fc|].
    - destruct Hfile as (f & fobj & -> & _ & Hf & _). simpl.
      intros a Ha. apply elem_of_app in Ha as [Ha|Ha]; [by apply Hfiles|].
      apply list_elem_of_singleton in Ha as ->. by eapply lookup_lt_Some.
    - by rewrite Hfile. }
  set (st' := {| hunk_store := hunk_store st;
                 file_store := file_store st ++ [fo];
                 files := files (close_file st);
                 current_file := Some (length (file_store st));
                 current_hunk := None |}).
  assert (Hread : forall k, k < length (file_store st) ->
                            read_file st' k = read_file st k).
  { intros k Hk. rewrite !read_file_deref. unfold st' at 1. cbn [file_store].
    rewrite lookup_app_l by done. reflexivity. }
  split_and!.
  - unfold read_files. rewrite (bind_read_file_ext st st').
    2:{ intros k Hk. apply Hread. by apply Hlist. }
    cbn [files st']. cbn [v_done]. rewrite <- Hdone. unfold read_files, close_file.
    destruct (v_file s) as [fc|].
    + destruct Hfile as (f & fobj & Hcf & Hnew & Hf & Hfc). rewrite Hcf.
      cbn [files]. rewrite bind_app. f_equal.
      cbn [mbind list_bind]. rewrite app_nil_r.
      rewrite read_file_deref, Hf. by rewrite Hfc.
    + rewrite Hfile. by rewrite app_nil_r.
  - intros a Ha. cbn [file_store st']. rewrite length_app. simpl.
    specialize (Hlist a Ha). lia.
  - intros k fobj a Hk Ha. cbn [file_store hunk_store st'] in *.
    destruct (decide (k < length (file_store st))) as [Hlt|Hge].
    + rewrite lookup_app_l in Hk by done. by eapply Hhunks.
    + rewrite lookup_app_r in Hk by lia.
      destruct (k - length (file_store st)) as [|n]; simpl in Hk; [|done].
      injection Hk as <-. rewrite Hfo in Ha. by apply elem_of_nil in Ha.
  - cbn [v_file]. exists (length (file_store st)), fo. split_and!; [done| | |].
    + intros Hin. specialize (Hlist _ Hin). lia.
    + cbn [file_store st']. by rewrite lookup_app_r, Nat.sub_diag.
    + unfold deref_file. simpl. by rewrite Hfo.
  - done.
Qed.

Lemma close_file_without_hunk (st : tokenizer) :
  hunk_store (close_file (without_hunk st)) = hunk_store (close_file st)
  /\ file_store (close_file (without_hunk st)) = file_store (close_file st)
  /\ files (close_file (without_hunk st)) = files (close_file st).
Proof. unfold close_file, without_hunk. simpl. by destruct (current_file st). Qed.

Lemma new_hunk_fit (di : option DiffInfo) (line : string) (m : result) :
  numbers_fit m -> exists hk, new_hunk line m di = Ok hk.
Proof.
  intros H. unfold numbers_fit in H.
  apply Forall_cons in H as [H1 H]. apply Forall_cons in H as [H2 H].
  apply Forall_cons in H as [H3 H]. apply Forall_cons in H as [H4 _].
  assert (Hint : forall s, String.length s <= MAX_STR_DIGITS ->
                           int_of_digits s = Ok (digits_value s)).
  { intros s Hs. unfold int_of_digits.
    destruct (Nat.ltb_spec MAX_STR_DIGITS (String.length s)); [lia|done]. }
  assert (Hopt : forall n, String.length (group_str m n) <= MAX_STR_DIGITS ->
                           exists z, group_int_or_1 m n = Ok z).
  { intros n Hn. unfold group_int_or_1, group_str in *.
    destruct (group n (groups m)) as [s|]; cbn [truthy default] in *;
      [|by eexists].
    destruct (is_empty s); [by eexists|]. rewrite (Hint s Hn). by eexists. }
  unfold new_hunk. rewrite (Hint _ H1), (Hint _ H3).
  destruct (Hopt 2 H2) as [z2 ->]. destruct (Hopt 4 H4) as [z4 ->].
  cbn [mbind exc_bind mret exc_ret]. by eexists.
Qed.

Lemma opened_hunk_fit (di : option DiffInfo) (line : string) (m : result) :
  match_ P_hunk line = Some m -> numbers_fit m ->
  exists hk, new_hunk line m di = Ok hk /\ opened_hunk di line = Some hk.
Proof.
  intros Hm Hfit. destruct (new_hunk_fit di line m Hfit) as [hk Hk].
  exists hk. split; [exact Hk|]. unfold opened_hunk. by rewrite Hm, Hk.
Qed.

(** One line of a diff whose headers parse: the store state follows the
    value state. *)
Lemma represents_step (di : option DiffInfo) (st : tokenizer) (s : vstate)
    (line : string) :
  headers_parse line -> represents st s ->
  exists st',
    tokenize_line di st line = Ok st' /\ represents st' (vstep di s line).
Proof.
  intros [Hf Hh] Hrep.
  destruct (startswith line "diff --git ") eqn:E1.
  - destruct (Hf eq_refl) as [m Hm].
    unfold tokenize_line, vstep. rewrite E1, Hm.
    eexists. split; [reflexivity|].
    pose proof (represents_close_hunk st s Hrep) as Hc.
    pose proof (represents_open_file _ _
                  {| fo_old_path := group_str m 1; fo_new_path := group_str m 2;
                     fo_hunks := [] |} Hc eq_refl eq_refl) as Ho.
    destruct (close_file_without_hunk (close_hunk st)) as (-> & -> & ->) in Ho.
    cbn [fo_old_path fo_new_path] in Ho.
    unfold vclose in Ho. cbn [v_done v_file] in Ho.
    destruct (v_file s); exact Ho.
  - destruct (startswith line "@@ ") eqn:E2.
    + destruct (Hh eq_refl eq_refl) as (m & Hm & Hfit).
      destruct (opened_hunk_fit di line m Hm Hfit) as (hk & Hk & Ho).
      unfold tokenize_line, vstep. rewrite E1, E2, Hm, Hk, Ho.
      cbn [mbind exc_bind mret exc_ret].
      eexists. split; [reflexivity|].
      pose proof (represents_close_hunk st s Hrep) as Hc.
      exact (represents_open_hunk _ _ hk Hc eq_refl).
    + by apply represents_content.
Qed.

Lemma represents_init : represents tokenizer_init vinit.
Proof.
  split_and!; simpl; try done.
  - intros a Ha. by apply elem_of_nil in Ha.
Qed.

Lemma represents_lines (di : option DiffInfo) (lines : list string) :
  Forall headers_parse lines ->
  forall st s, represents st s ->
  exists st',
    tokenize_lines di st lines = Ok st'
    /\ represents st' (foldl (vstep di) s lines).
Proof.
  induction 1 as [|line lines Hl _ IH]; intros st s Hrep; [by exists st|].
  cbn [tokenize_lines foldl].
  destruct (represents_step di st s line Hl Hrep) as (st1 & -> & H1).
  cbn [mbind exc_bind]. by apply IH.
Qed.

(** What [parse_diff] returns at the end of the loop. *)
Lemma represents_finish (st : tokenizer) (s : vstate) :
  represents st s ->
  read_files (close_file (close_hunk st)) = vfinish s.
Proof.
  intros Hrep.
  pose proof (represents_close_hunk st s Hrep) as Hc.
  pose proof (represents_open_file _ _
                {| fo_old_path := EmptyString; fo_new_path := EmptyString;
                   fo_hunks := [] |} Hc eq_refl eq_refl) as (Ho & Hfiles & _).
  destruct (close_file_without_hunk (close_hunk st)) as (E1 & E2 & E3).
  rewrite E1, E2, E3 in Ho. cbn [v_done vclose v_file] in Ho.
  unfold vfinish.
  transitivity (v_done s ++ match (fun f => file_with_hunk f (v_hunk s)) <$> v_file s with
                            | Some f => [f] | None => [] end).
  2:{ by destruct (v_file s). }
  rewrite <- Ho. unfold read_files. cbn [files].
  symmetry. apply bind_read_file_ext. intros k Hk.
  rewrite !read_file_deref. cbn [file_store].
  assert (k < length (file_store (close_file (close_hunk st)))) as Hlt.
  { rewrite E1, E2, E3 in Hfiles. cbn [files file_store] in Hfiles.
    specialize (Hfiles k Hk). rewrite length_app in Hfiles. simpl in Hfiles.
    destruct (decide (k < length (file_store (close_file (close_hunk st))))); [done|].
    exfalso.
    (* the listed addresses are allocated in the store before the new file *)
    clear Ho.
    destruct Hc as (_ & Hl & _ & Hf & _).
    unfold close_file in Hk, n. cbn [vclose v_file] in Hf.
    destruct (current_file (close_hunk st)) as [f|] eqn:Ecf.
    - cbn [files file_store] in *. apply elem_of_app in Hk as [Hk|Hk].
      + specialize (Hl k Hk). simpl in Hl. lia.
      + apply list_elem_of_singleton in Hk as ->.
        destruct (v_file s); simpl in Hf.
        * destruct Hf as (f' & fobj & Hcf & _ & Hlk & _). simpl in Hcf, Hlk.
          rewrite Ecf in Hcf. injection Hcf as <-.
          apply lookup_lt_Some in Hlk. lia.
        * simpl in Hf. congruence.
    - specialize (Hl k Hk). simpl in Hl. lia. }
  rewrite lookup_app_l by done. reflexivity.
Qed.

(** On a diff whose headers parse, the tokenizer with its object stores
    computes what the tokenizer by value computes. *)
Lemma parse_diff_lines_by_value (di : option DiffInfo) (lines : list string) :
  Forall headers_parse lines ->
  parse_diff_lines lines di = Ok (vfinish (foldl (vstep di) vinit lines)).
Proof.
  intros H. unfold parse_diff_lines.
  destruct (represents_lines di lines H _ _ represents_init) as (st & -> & Hr).
  cbn [mbind exc_bind mret exc_ret]. f_equal. by apply represents_finish.
Qed.

(** *** The tokenizer by value on the blocks of a diff *)

Lemma hunk_with_lines_nil (h : Hunk) : hunk_with_lines h [] = h.
Proof. destruct h. unfold hunk_with_lines. simpl. by rewrite app_nil_r. Qed.

Lemma hunk_with_lines_app (h : Hunk) (l1 l2 : list string) :
  hunk_with_lines (hunk_with_lines h l1) l2 = hunk_with_lines h (l1 ++ l2).
Proof. unfold hunk_with_lines. simpl. by rewrite app_assoc. Qed.

Lemma vstep_plain (di : option DiffInfo) (s : vstate) (line : string) :
  plain_line line ->
  vstep di s line
  = {| v_done := v_done s; v_file := v_file s;
       v_hunk := (fun h => hunk_with_lines h (List.filter is_content_line [line]))
                 <$> v_hunk s |}.
Proof.
  intros [E1 E2]. unfold vstep. rewrite E1, E2. f_equal.
  destruct (v_hunk s) as [h|]; [|done]. simpl.
  destruct (is_content_line line); [done|]. by rewrite hunk_with_lines_nil.
Qed.

Lemma vstep_body (di : option DiffInfo) (ls : list string) (s : vstate) :
  Forall plain_line ls ->
  foldl (vstep di) s ls
  = {| v_done := v_done s; v_file := v_file s;
       v_hunk := (fun h => hunk_with_lines h (List.filter is_content_line ls))
                 <$> v_hunk s |}.
Proof.
  intros H. revert s. induction H as [|line ls Hl _ IH]; intros s.
  - destruct s as [d f [h|]]; simpl; [|done]. by rewrite hunk_with_lines_nil.
  - cbn [foldl]. rewrite IH, (vstep_plain di s line Hl). cbn [v_done v_file v_hunk].
    f_equal. destruct (v_hunk s) as [h|]; [|done]. cbn [fmap option_fmap option_map].
    rewrite hunk_with_lines_app. do 2 f_equal.
    simpl. by destruct (is_content_line line).
Qed.

Lemma hunk_header_not_file_header (line : string) :
  startswith line "@@ " = true -> startswith line "diff --git " = false.
Proof.
  unfold startswith. destruct line as [|c r]; [done|].
  cbn [starts]. destruct (Ascii.eqb_spec "@"%char c) as [<-|Hne]; [done|].
  discriminate.
Qed.

Lemma vstep_hunk (di : option DiffInfo) (h : DHunk) (s : vstate) :
  wf_hunk h ->
  exists x,
    expected_hunk di h = [x]
    /\ foldl (vstep di) s (render_hunk h)
       = {| v_done := v_done s;
            v_file := (fun f => file_with_hunk f (v_hunk s)) <$> v_file s;
            v_hunk := Some x |}.
Proof.
  intros [[E2 (m & Hm & Hfit)] Hbody].
  pose proof (hunk_header_not_file_header _ E2) as E1.
  destruct (opened_hunk_fit di _ m Hm Hfit) as (hk & _ & Ho).
  unfold expected_hunk. rewrite Ho. eexists. split; [done|].
  unfold render_hunk. cbn [foldl]. rewrite vstep_body by done.
  unfold vstep. rewrite E1, E2, Ho. reflexivity.
Qed.


Lemma add_hunks_nil (f : FileChange) : add_hunks f [] = f.
Proof. destruct f. unfold add_hunks. simpl. by rewrite app_nil_r. Qed.

Lemma add_hunks_app (f : FileChange) (l1 l2 : list Hunk) :
  add_hunks (add_hunks f l1) l2 = add_hunks f (l1 ++ l2).
Proof. unfold add_hunks. simpl. by rewrite app_assoc. Qed.

Lemma vstep_hunks (di : option DiffInfo) (hs : list DHunk) (s : vstate) :
  Forall wf_hunk hs ->
  v_done (foldl (vstep di) s (concat (map render_hunk hs))) = v_done s
  /\ closed_file (foldl (vstep di) s (concat (map render_hunk hs)))
     = (fun f => add_hunks f (hs ≫= expected_hunk di)) <$> closed_file s.
Proof.
  intros H. revert s. induction H as [|h hs Hh _ IH]; intros s.
  - simpl. split; [done|]. unfold closed_file.
    destruct (v_file s) as [f|]; [|done]. simpl. by rewrite add_hunks_nil.
  - cbn [map concat]. rewrite foldl_app.
    destruct (vstep_hunk di h s Hh) as (x & Hx & ->).
    destruct (IH {| v_done := v_done s;
                    v_file := (fun f => file_with_hunk f (v_hunk s)) <$> v_file s;
                    v_hunk := Some x |}) as [-> ->].
    split; [done|]. cbn [mbind list_bind]. rewrite Hx.
    unfold closed_file. cbn [v_file v_hunk].
    destruct (v_file s) as [f|]; [|done]. cbn [fmap option_fmap option_map].
    f_equal. unfold file_with_hunk at 1.
    change (add_hunks (add_hunks (file_with_hunk f (v_hunk s)) [x])
              (hs ≫= expected_hunk di)
            = add_hunks (file_with_hunk f (v_hunk s))
                ([x] ++ (hs ≫= expected_hunk di))).
    apply add_hunks_app.
Qed.

Lemma vfinish_closed (s : vstate) :
  vfinish s = v_done s ++ match closed_file s with
                          | Some f => [f]
                          | None => []
                          end.
Proof. unfold vfinish, closed_file. by destruct (v_file s). Qed.

Lemma vstep_file (di : option DiffInfo) (f : DFile) (s : vstate) :
  wf_file f ->
  vfinish (foldl (vstep di) s (render_file f)) = vfinish s ++ expected_file di f.
Proof.
  intros ([E1 [m Hm]] & Hpre & Hhunks).
  unfold render_file. cbn [foldl].
  rewrite foldl_app, (vstep_body di (df_preamble f)) by done.
  rewrite vfinish_closed.
  match goal with
  | |- context [foldl (vstep di) ?s0 (concat _)] =>
      destruct (vstep_hunks di (df_hunks f) s0 Hhunks) as [-> ->]
  end.
  unfold vstep. rewrite E1, Hm. cbn [v_done v_file v_hunk closed_file].
  unfold expected_file. rewrite Hm. unfold vfinish. reflexivity.
Qed.

Lemma vstep_diff (di : option DiffInfo) (d : list DFile) (s : vstate) :
  Forall wf_file d ->
  vfinish (foldl (vstep di) s (render_diff d)) = vfinish s ++ expected_diff di d.
Proof.
  intros H. revert s. induction H as [|f d Hf _ IH]; intros s.
  - simpl. by rewrite app_nil_r.
  - unfold render_diff. cbn [map concat]. rewrite foldl_app.
    fold (render_diff d). rewrite IH, vstep_file by done.
    unfold expected_diff. cbn [mbind list_bind]. by rewrite app_assoc.
Qed.

Lemma plain_headers_parse (line : string) : plain_line line -> headers_parse line.
Proof. intros [E1 E2]. split; intros; congruence. Qed.

Lemma wf_headers_parse (d : list DFile) :
  Forall wf_file d -> Forall headers_parse (render_diff d).
Proof.
  induction 1 as [|f d (Hf & Hpre & Hhunks) _ IH]; [constructor|].
  unfold render_diff. cbn [map concat]. apply Forall_app. split; [|exact IH].
  unfold render_file. constructor.
  { destruct Hf as [E1 Hm]. split; [done|congruence]. }
  apply Forall_app. split.
  { eapply Forall_impl; [exact Hpre|]. apply plain_headers_parse. }
  induction Hhunks as [|h hs [[E2 Hm] Hbody] _ IHh]; [constructor|].
  cbn [map concat]. apply Forall_app. split; [|exact IHh].
  unfold render_hunk. constructor.
  { split; [|done]. intros E1.
    by rewrite (hunk_header_not_file_header _ E2) in E1. }
  eapply Forall_impl; [exact Hbody|]. apply plain_headers_parse.
Qed.

(** *** Lines of a text *)

Lemma append_empty (s : string) : s +:+ EmptyString = s.
Proof.
  induction s as [|c s IH]; [reflexivity|].
  change (String c (s +:+ EmptyString) = String c s). congruence.
Qed.

Lemma snoc_append (cur x : string) (c : ascii) :
  snoc cur c +:+ x = cur +:+ String c x.
Proof.
  unfold snoc. induction cur as [|d cur IH]; [reflexivity|].
  change (String d ((cur +:+ String c EmptyString) +:+ x)
          = String d (cur +:+ String c x)).
  congruence.
Qed.

Lemma split_go_line (cur x s : string) :
  single_line x ->
  split_go nl None 0 cur (x +:+ nl +:+ s)
  = (cur +:+ x) :: split_go nl None 0 EmptyString s.
Proof.
  unfold single_line. revert cur. induction x as [|c x IH]; intros cur H.
  - change (EmptyString +:+ nl +:+ s) with (String (ascii_of_nat 10) s).
    rewrite append_empty. reflexivity.
  - unfold contains in H. fold contains in H.
    apply orb_false_iff in H as [H1 H2].
    change ((String c x) +:+ nl +:+ s) with (String c (x +:+ nl +:+ s)).
    cbn [split_go].
    assert (Hs : starts nl (String c (x +:+ nl +:+ s)) = false).
    { unfold nl in *. cbn [starts] in *. by destruct (Ascii.eqb _ c). }
    rewrite Hs, IH by done. f_equal. apply snoc_append.
Qed.

Lemma split_go_last (cur x : string) :
  single_line x -> split_go nl None 0 cur x = [cur +:+ x].
Proof.
  unfold single_line. revert cur. induction x as [|c x IH]; intros cur H.
  - cbn [split_go]. by rewrite append_empty.
  - unfold contains in H. fold contains in H.
    apply orb_false_iff in H as [H1 H2].
    cbn [split_go]. rewrite H1, IH by done. f_equal. apply snoc_append.
Qed.

(** Splitting at line breaks the text that joins single lines gives the
    lines back. *)
Lemma split_join_lines (l : list string) :
  l <> [] -> Forall single_line l -> split (join nl l) nl = l.
Proof.
  unfold split. intros Hne H. induction H as [|x l Hx Hl IH]; [done|].
  destruct l as [|y l].
  - cbn [join]. by rewrite split_go_last.
  - change (join nl (x :: y :: l)) with (x +:+ nl +:+ join nl (y :: l)).
    rewrite split_go_line by done. f_equal. by apply IH.
Qed.

(** [parse_diff] on the text of a well-formed diff. *)
Lemma parse_diff_rendered (di : option DiffInfo) (d : list DFile) :
  Forall wf_file d -> Forall single_line (render_diff d) ->
  parse_diff (join nl (render_diff d)) di = Ok (expected_diff di d).
Proof.
  intros Hwf Hlines. unfold parse_diff.
  destruct d as [|f d]; [reflexivity|].
  rewrite split_join_lines; [|done|done].
  rewrite parse_diff_lines_by_value by (by apply wf_headers_parse).
  by rewrite vstep_diff.
Qed.
(** Well-formedness of a concrete diff, by evaluation. *)
Ltac wf_header :=
  split; [reflexivity|];
  eexists; first [ split; [vm_compute; reflexivity|];
                   unfold numbers_fit, MAX_STR_DIGITS;
                   repeat (apply List.Forall_cons; [simpl; lia|]);
                   apply List.Forall_nil
                 | vm_compute; reflexivity ].
Ltac wf_plain :=
  repeat (apply List.Forall_cons; [split; reflexivity|]); apply List.Forall_nil.
Ltac wf_hunks :=
  repeat (apply List.Forall_cons; [split; [wf_header|wf_plain]|]);
  apply List.Forall_nil.
Ltac wf_diff :=
  repeat (apply Forall_cons; split;
          [split; [wf_header|split; [wf_plain|wf_hunks]]|]);
  apply List.Forall_nil.


(** X2: [parse_diff] on the text of a well-formed diff (every [diff --git]
    line and every [@@] line parses, each number of a hunk header has at
    most 4300 digits, the most that [int] converts, and no other line starts
    like a header) raises nothing and returns one [FileChange] per file, in order, with the two paths of its
    header, and in it one [Hunk] per hunk header, in order, built from the
    header and holding exactly the lines of the hunk that start with [+],
    [-] or a space or are empty, in order; the lines between a file header
    and its first hunk are in no hunk. *)
Theorem X2_parse_diff_of_well_formed_diff (di : option DiffInfo)
    (d : list DFile) :
  Forall wf_file d -> Forall single_line (render_diff d) ->
  parse_diff (join nl (render_diff d)) di = Ok (expected_diff di d).
Proof. apply parse_diff_rendered. Qed.

Lemma X2_parse_diff_of_well_formed_diff_witness :
  parse_diff (join nl (render_diff two_file_diff)) None
  = Ok (expected_diff None two_file_diff).
Proof.
  apply (X2_parse_diff_of_well_formed_diff None two_file_diff).
  - by wf_diff.
  - repeat constructor.
Defined.

(** *** A text that ends with a line break *)


Lemma on_last_app {A : Type} (g : A -> A) (l1 l2 : list A) :
  l2 <> [] -> on_last g (l1 ++ l2) = l1 ++ on_last g l2.
Proof.
  intros Hne. induction l1 as [|y l1 IH]; [done|].
  cbn [app on_last]. rewrite IH.
  destruct (l1 ++ l2) eqn:E; [|done].
  apply app_eq_nil in E as [_ ->]. done.
Qed.

Lemma append_assoc (a b c : string) : (a +:+ b) +:+ c = a +:+ (b +:+ c).
Proof.
  induction a as [|x a IH]; [reflexivity|].
  change (String x ((a +:+ b) +:+ c) = String x (a +:+ (b +:+ c))).
  congruence.
Qed.

Lemma join_snoc_empty (l : list string) :
  l <> [] -> join nl (l ++ [EmptyString]) = join nl l +:+ nl.
Proof.
  induction l as [|x l IH]; [done|]. intros _.
  destruct l as [|y l].
  - cbn [app join]. by rewrite append_empty.
  - change (join nl ((x :: y :: l) ++ [EmptyString]))
      with (x +:+ nl +:+ join nl ((y :: l) ++ [EmptyString])).
    rewrite IH by done.
    change (join nl (x :: y :: l)) with (x +:+ nl +:+ join nl (y :: l)).
    by rewrite !append_assoc.
Qed.

Lemma render_hunks_snoc (line : string) (hs : list DHunk) :
  hs <> [] ->
  concat (map render_hunk (on_last (body_snoc line) hs))
  = concat (map render_hunk hs) ++ [line].
Proof.
  induction hs as [|h hs IH]; [done|]. intros _.
  destruct hs as [|h' hs].
  - cbn [on_last map concat]. rewrite !app_nil_r. unfold render_hunk. simpl.
    reflexivity.
  - change (on_last (body_snoc line) (h :: h' :: hs))
      with (h :: on_last (body_snoc line) (h' :: hs)).
    cbn [map concat]. rewrite IH by done. cbn [map concat].
    by rewrite <- !app_assoc.
Qed.

Lemma render_file_snoc (line : string) (f : DFile) :
  render_file (file_snoc line f) = render_file f ++ [line].
Proof.
  unfold file_snoc, render_file. destruct (df_hunks f) as [|h hs] eqn:E.
  - cbn [df_header df_preamble df_hunks map concat].
    by rewrite !app_nil_r.
  - cbn [df_header df_preamble df_hunks].
    rewrite render_hunks_snoc by done.
    by rewrite app_comm_cons, app_assoc.
Qed.

Lemma render_diff_snoc (line : string) (d : list DFile) :
  d <> [] -> render_diff (diff_snoc line d) = render_diff d ++ [line].
Proof.
  unfold render_diff, diff_snoc.
  induction d as [|f d IH]; [done|]. intros _.
  destruct d as [|f' d].
  - cbn [on_last map concat]. rewrite !app_nil_r. apply render_file_snoc.
  - change (on_last (file_snoc line) (f :: f' :: d))
      with (f :: on_last (file_snoc line) (f' :: d)).
    cbn [map concat]. rewrite IH by done. cbn [map concat].
    by rewrite <- !app_assoc.
Qed.

Lemma wf_on_last {A : Type} (P : A -> Prop) (g : A -> A) (l : list A) :
  (forall x, P x -> P (g x)) -> Forall P l -> Forall P (on_last g l).
Proof.
  intros Hg H. induction H as [|x l Hx Hl IH]; [constructor|].
  destruct l as [|y l].
  - cbn [on_last]. constructor; [by apply Hg|constructor].
  - change (on_last g (x :: y :: l)) with (x :: on_last g (y :: l)).
    by constructor.
Qed.

Lemma wf_file_snoc (f : DFile) :
  wf_file f -> wf_file (file_snoc EmptyString f).
Proof.
  intros (Hh & Hpre & Hhunks). unfold file_snoc.
  destruct (df_hunks f) as [|h hs] eqn:E.
  - split_and!; cbn [df_header df_preamble df_hunks]; [done| |constructor].
    apply Forall_app. split; [done|]. by repeat constructor.
  - split_and!; cbn [df_header df_preamble df_hunks]; [done|done|].
    apply wf_on_last; [|done].
    intros x [Hx Hb]. split; [done|]. cbn [body_snoc dh_body].
    apply Forall_app. split; [done|]. by repeat constructor.
Qed.

Lemma expected_hunk_snoc (di : option DiffInfo) (h : DHunk) :
  expected_hunk di (body_snoc EmptyString h)
  = map (hunk_append_line EmptyString) (expected_hunk di h).
Proof.
  unfold expected_hunk. cbn [body_snoc dh_header dh_body].
  destruct (opened_hunk di (dh_header h)) as [hk|]; [|done].
  cbn [map]. f_equal. rewrite List.filter_app. cbn [List.filter].
  change (is_content_line EmptyString) with true. cbv iota.
  unfold hunk_with_lines, hunk_append_line.
  cbn [header old_start old_count new_start new_count function_context lines
       hunk_diffinfo].
  by rewrite <- app_assoc.
Qed.

Lemma expected_hunks_snoc (di : option DiffInfo) (hs : list DHunk) :
  Forall wf_hunk hs ->
  on_last (body_snoc EmptyString) hs ≫= expected_hunk di
  = on_last (hunk_append_line EmptyString) (hs ≫= expected_hunk di).
Proof.
  intros H. induction H as [|h hs Hh Hhs IH]; [done|].
  destruct (vstep_hunk di h vinit Hh) as (x & Hx & _).
  destruct hs as [|h' hs].
  - cbn [on_last mbind list_bind]. rewrite !app_nil_r, expected_hunk_snoc, Hx.
    reflexivity.
  - change (on_last (body_snoc EmptyString) (h :: h' :: hs))
      with (h :: on_last (body_snoc EmptyString) (h' :: hs)).
    apply Forall_inv in Hhs.
    destruct (vstep_hunk di h' vinit Hhs) as (x' & Hx' & _).
    remember (h' :: hs) as tl eqn:Etl.
    cbn [mbind list_bind]. rewrite IH, on_last_app; [done|].
    subst tl. cbn [mbind list_bind]. by rewrite Hx'.
Qed.

Lemma expected_file_snoc (di : option DiffInfo) (f : DFile) :
  wf_file f ->
  expected_file di (file_snoc EmptyString f)
  = map (on_last_hunk (hunk_append_line EmptyString)) (expected_file di f).
Proof.
  intros (Hh & Hpre & Hhunks). unfold expected_file, file_snoc.
  destruct (df_hunks f) as [|h hs] eqn:E;
    cbn [df_header df_preamble df_hunks];
    destruct (match_ P_file (df_header f)) as [m|]; try done.
  cbn [map]. unfold on_last_hunk. cbn [old_path new_path hunks].
  by rewrite expected_hunks_snoc.
Qed.

Lemma expected_diff_snoc (di : option DiffInfo) (d : list DFile) :
  Forall wf_file d ->
  expected_diff di (diff_snoc EmptyString d)
  = on_last (on_last_hunk (hunk_append_line EmptyString)) (expected_diff di d).
Proof.
  unfold expected_diff, diff_snoc.
  intros H. induction H as [|f d Hf Hd IH]; [done|].
  assert (Hone : forall f, wf_file f -> exists x, expected_file di f = [x]).
  { intros f0 ([_ [m Hm]] & _). unfold expected_file. rewrite Hm. eauto. }
  destruct d as [|f' d].
  - cbn [on_last mbind list_bind]. rewrite !app_nil_r, expected_file_snoc by done.
    destruct (Hone f Hf) as [x ->]. reflexivity.
  - change (on_last (file_snoc EmptyString) (f :: f' :: d))
      with (f :: on_last (file_snoc EmptyString) (f' :: d)).
    apply Forall_inv in Hd. destruct (Hone f' Hd) as [x' Hx'].
    remember (f' :: d) as tl eqn:Etl.
    cbn [mbind list_bind]. rewrite IH, on_last_app; [done|].
    subst tl. cbn [mbind list_bind]. by rewrite Hx'.
Qed.

(** The text of a well-formed diff followed by a line break reads as the
    diff with one more, empty line at its end. *)
Lemma parse_diff_rendered_nl (di : option DiffInfo) (d : list DFile) :
  Forall wf_file d -> Forall single_line (render_diff d) ->
  Forall wf_file (diff_snoc EmptyString d)
  /\ parse_diff (join nl (render_diff d) +:+ nl) di
     = Ok (expected_diff di (diff_snoc EmptyString d)).
Proof.
  intros Hwf Hlines.
  assert (Hwf' : Forall wf_file (diff_snoc EmptyString d)).
  { apply wf_on_last; [apply wf_file_snoc|done]. }
  split; [exact Hwf'|].
  destruct d as [|f d]; [reflexivity|].
  rewrite <- join_snoc_empty by done.
  rewrite <- (render_diff_snoc EmptyString (f :: d)) by done.
  apply parse_diff_rendered; [exact Hwf'|].
  rewrite render_diff_snoc by done.
  apply Forall_app; split; [done|by repeat constructor].
Qed.

(** X3: when the text of a well-formed diff (hunk header numbers of at
    most 4300 digits, so that [int] converts them) ends with a line break,
    as the output of git does, [parse_diff] raises nothing and reads the empty string after the last
    line break as one more line of the last hunk: the result is the result
    for the text without the final line break, with the empty string
    appended to the lines of the last hunk of the last file (and unchanged
    when the last file has no hunk). *)
Theorem X3_final_line_break_adds_an_empty_line (di : option DiffInfo)
    (d : list DFile) :
  Forall wf_file d -> Forall single_line (render_diff d) ->
  parse_diff (join nl (render_diff d)) di = Ok (expected_diff di d)
  /\ parse_diff (join nl (render_diff d) +:+ nl) di
     = Ok (on_last (on_last_hunk (hunk_append_line EmptyString))
             (expected_diff di d)).
Proof.
  intros Hwf Hlines. split; [by apply parse_diff_rendered|].
  destruct (parse_diff_rendered_nl di d Hwf Hlines) as [_ ->].
  f_equal. by apply expected_diff_snoc.
Qed.

Lemma X3_final_line_break_adds_an_empty_line_witness :
  parse_diff (join nl (render_diff two_file_diff)) None
  = Ok (expected_diff None two_file_diff)
  /\ parse_diff (join nl (render_diff two_file_diff) +:+ nl) None
     = Ok (on_last (on_last_hunk (hunk_append_line EmptyString))
             (expected_diff None two_file_diff)).
Proof.
  apply (X3_final_line_break_adds_an_empty_line None two_file_diff).
  - by wf_diff.
  - repeat constructor.
Defined.

(** *** A file header that does not parse *)

Lemma close_hunk_with_files (fl : list nat) (st : tokenizer) :
  close_hunk (with_files fl st) = with_files fl (close_hunk st).
Proof.
  by destruct st as [hs fs fl0 [f|] [h|]].
Qed.

(** A line that is no file header does not read or write the list [files]. *)
Lemma tokenize_line_with_files (di : option DiffInfo) (fl : list nat)
    (st : tokenizer) (line : string) :
  startswith line "diff --git " = false ->
  tokenize_line di (with_files fl st) line
  = (with_files fl <$> tokenize_line di st line).
Proof.
  intros E1. unfold tokenize_line. rewrite E1.
  destruct (startswith line "@@ ").
  - rewrite close_hunk_with_files.
    destruct (match_ P_hunk line) as [m|]; [|done].
    by destruct (new_hunk line m di).
  - destruct st as [hs fs fl0 f [h|]]; [|done].
    cbn [with_files current_hunk]. by destruct (is_content_line line).
Qed.

Lemma tokenize_line_keeps_file (di : option DiffInfo) (st : tokenizer)
    (line : string) :
  startswith line "diff --git " = false ->
  forall st', tokenize_line di st line = Ok st' ->
  files st' = files st /\ current_file st' = current_file st.
Proof.
  intros E1 st'. unfold tokenize_line. rewrite E1.
  assert (Hc : files (close_hunk st) = files st
               /\ current_file (close_hunk st) = current_file st).
  { by destruct st as [hs fs fl0 [f|] [h|]]. }
  destruct (startswith line "@@ ").
  - destruct (match_ P_hunk line) as [m|]; [|by intros [= <-]].
    destruct (new_hunk line m di); [|done]. by intros [= <-].
  - destruct (current_hunk st); [|by intros [= <-]].
    by destruct (is_content_line line); intros [= <-].
Qed.

Lemma tokenize_lines_with_files (di : option DiffInfo) (fl : list nat)
    (lines : list string) (st : tokenizer) :
  Forall no_file_header lines ->
  tokenize_lines di (with_files fl st) lines
  = (with_files fl <$> tokenize_lines di st lines)
  /\ forall st', tokenize_lines di st lines = Ok st' ->
                 files st' = files st /\ current_file st' = current_file st.
Proof.
  intros H. revert st. induction H as [|line lines Hl _ IH]; intros st.
  { split; [done|]. by intros st' [= <-]. }
  cbn [tokenize_lines]. rewrite tokenize_line_with_files by done.
  pose proof (tokenize_line_keeps_file di st line Hl) as Hk.
  destruct (tokenize_line di st line) as [st1|e]; [|done].
  cbn [fmap exc_fmap mbind exc_bind].
  destruct (IH st1) as [-> IH2]. split; [done|].
  intros st' Hst'. destruct (IH2 st' Hst') as [-> ->]. by apply Hk.
Qed.

Lemma tokenize_lines_app (di : option DiffInfo) (l1 l2 : list string)
    (st : tokenizer) :
  tokenize_lines di st (l1 ++ l2)
  = (st' ← tokenize_lines di st l1; tokenize_lines di st' l2).
Proof.
  revert st. induction l1 as [|line l1 IH]; intros st; [done|].
  cbn [app tokenize_lines].
  destruct (tokenize_line di st line) as [st1|e]; [|done].
  cbn [mbind exc_bind]. apply IH.
Qed.

Lemma vstep_keeps_open (di : option DiffInfo) (ls : list string) (s : vstate) :
  is_Some (v_file s) -> is_Some (v_file (foldl (vstep di) s ls)).
Proof.
  revert s. induction ls as [|line ls IH]; intros s Hs; [done|].
  cbn [foldl]. apply IH. unfold vstep.
  destruct (startswith line "diff --git ").
  { by destruct (match_ P_file line). }
  destruct (startswith line "@@ "); [|done].
  destruct (opened_hunk di line); [|done].
  cbn [v_file]. destruct Hs as [fc ->]. done.
Qed.

Lemma vstep_file_open (di : option DiffInfo) (f : DFile) (ls : list string)
    (s : vstate) :
  wf_file f -> is_Some (v_file (foldl (vstep di) s (render_file f ++ ls))).
Proof.
  intros ([E1 [m Hm]] & _). unfold render_file.
  rewrite <- app_comm_cons. cbn [foldl]. apply vstep_keeps_open.
  unfold vstep. rewrite E1, Hm. done.
Qed.

Lemma read_file_stores (st st' : tokenizer) (a : nat) :
  hunk_store st' = hunk_store st -> file_store st' = file_store st ->
  read_file st' a = read_file st a.
Proof. intros H1 H2. rewrite !read_file_deref. unfold deref_file. by rewrite H1, H2. Qed.

(** The tokenizer after a file header that does not parse, on lines that
    hold no further file header: the file that was open is listed, and it
    is still the open file. *)
Lemma parse_after_bad_header (di : option DiffInfo) (st : tokenizer)
    (s : vstate) (bad : string) (ls : list string) :
  represents st s -> is_Some (v_file s) -> bad_file_header bad ->
  Forall no_file_header ls -> Forall headers_parse ls ->
  exists st2 st3,
    tokenize_line di st bad = Ok st2
    /\ tokenize_lines di st2 ls = Ok st3
    /\ read_files (close_file (close_hunk st3))
       = vfinish (foldl (vstep di) (vclose s) ls)
         ++ match closed_file (foldl (vstep di) (vclose s) ls) with
            | Some f => [f]
            | None => []
            end.
Proof.
  intros Hrep [fc Hfc] [E1 Hm] Hnf Hhp.
  pose proof (represents_close_hunk st s Hrep) as Hc.
  assert (H2 : exists st2,
             tokenize_line di st bad = Ok st2
             /\ with_files (files st) st2 = without_hunk (close_hunk st)
             /\ exists fa, current_file st2 = Some fa
                           /\ files st2 = files st ++ [fa]).
  { unfold tokenize_line. rewrite E1, Hm.
    eexists. split; [reflexivity|].
    destruct Hrep as (_ & _ & _ & Hf & _). rewrite Hfc in Hf.
    destruct Hf as (fa & fobj & Hcf & _).
    destruct st as [hs fs fl [f|] [h|]]; cbn in Hcf; try done;
      injection Hcf as ->; (split; [reflexivity|]); by exists fa. }
  destruct H2 as (st2 & Hst2 & Hwf & fa & Hcf2 & Hfiles2).
  destruct (tokenize_lines_with_files di (files st) ls st2 Hnf) as (Hfold & Hkeep).
  rewrite Hwf in Hfold.
  destruct (represents_lines di ls Hhp _ _ Hc) as (st3' & Hst3' & Hrep3).
  rewrite Hst3' in Hfold.
  destruct (tokenize_lines di st2 ls) as [st3|e] eqn:Hst3; [|done].
  cbn [fmap exc_fmap] in Hfold. injection Hfold as ->.
  destruct (Hkeep st3 eq_refl) as [Hfiles3 Hcf3].
  exists st2, st3. split; [done|]. split; [done|].
  set (s3 := foldl (vstep di) (vclose s) ls) in *.
  assert (Hopen : is_Some (v_file s3)).
  { apply vstep_keeps_open. unfold vclose. cbn [v_file]. by rewrite Hfc. }
  pose proof (represents_finish _ _ Hrep3) as Hfin.
  pose proof (represents_close_hunk _ _ Hrep3) as Hc3.
  destruct Hopen as [fc3 Hfc3].
  destruct Hc3 as (_ & _ & _ & Hf3 & _).
  unfold vclose in Hf3. cbn [v_file] in Hf3. rewrite Hfc3 in Hf3.
  cbn [fmap option_fmap option_map] in Hf3.
  destruct Hf3 as (fb & fobj & Hcfb & _ & Hlk & Hderef).
  rewrite close_hunk_with_files in Hfin, Hcfb, Hlk, Hderef.
  set (st4 := close_hunk st3) in *.
  assert (Hcf4 : current_file st4 = Some fa /\ files st4 = files st ++ [fa]).
  { subst st4. rewrite <- Hcf2, <- Hcf3, <- Hfiles2, <- Hfiles3.
    by destruct st3 as [hs fs fl [f|] [h|]]. }
  destruct Hcf4 as [Hcf4 Hfiles4].
  cbn [without_hunk with_files current_file file_store] in Hcfb, Hlk.
  rewrite Hcf4 in Hcfb. injection Hcfb as <-.
  unfold closed_file. rewrite Hfc3. cbn [fmap option_fmap option_map].
  rewrite <- Hfin.
  assert (E4 : close_file st4
               = with_files (files st ++ [fa] ++ [fa]) st4).
  { unfold close_file, with_files. rewrite Hcf4, Hfiles4.
    by rewrite <- app_assoc. }
  assert (E5 : close_file (with_files (files st) st4)
               = with_files (files st ++ [fa]) st4).
  { unfold close_file, with_files. cbn [current_file]. by rewrite Hcf4. }
  rewrite E4, E5. unfold read_files. cbn [with_files files].
  rewrite app_assoc, bind_app. cbn [mbind list_bind]. rewrite app_nil_r.
  f_equal.
  rewrite read_file_deref. cbn [with_files file_store]. rewrite Hlk.
  by rewrite Hderef.
Qed.

Lemma hunks_headers (hs : list DHunk) :
  Forall wf_hunk hs ->
  Forall no_file_header (concat (map render_hunk hs))
  /\ Forall headers_parse (concat (map render_hunk hs)).
Proof.
  induction 1 as [|h hs [[E2 Hm] Hbody] _ [IH1 IH2]]; [by split|].
  cbn [map concat]. unfold render_hunk.
  pose proof (hunk_header_not_file_header _ E2) as E1.
  split; (apply Forall_app; split; [|done]); constructor.
  - exact E1.
  - eapply Forall_impl; [exact Hbody|]. by intros l [? ?].
  - split; [congruence|done].
  - eapply Forall_impl; [exact Hbody|]. apply plain_headers_parse.
Qed.

Lemma expected_file_more_hunks (di : option DiffInfo) (f : DFile)
    (hs : list DHunk) :
  expected_file di (with_more_hunks f hs)
  = map (fun x => add_hunks x (hs ≫= expected_hunk di)) (expected_file di f).
Proof.
  unfold expected_file, with_more_hunks. cbn [df_header df_hunks].
  destruct (match_ P_file (df_header f)) as [m|]; [|done].
  cbn [map]. unfold add_hunks. cbn [old_path new_path hunks].
  by rewrite bind_app.
Qed.

(** X4: when a [diff --git] line does not parse (git quotes a path that
    holds unusual characters, and the pattern wants [a/] right after
    [diff --git ]) in a diff that is well formed otherwise (hunk header
    numbers of at most 4300 digits, so that [int] converts them),
    [parse_diff] raises nothing and opens no file for it: the hunks that follow
    are filed under the file before, and this file is in the result twice
    (the same object is appended to the list at the bad header and again at
    the end). *)
Theorem X4_unparsed_file_header_lists_the_file_twice (di : option DiffInfo)
    (d : list DFile) (f : DFile) (bad : string) (pre : list string)
    (hs : list DHunk) :
  Forall wf_file d -> wf_file f -> bad_file_header bad ->
  Forall plain_line pre -> Forall wf_hunk hs ->
  Forall single_line
    (render_diff (d ++ [f]) ++ bad :: pre ++ concat (map render_hunk hs)) ->
  parse_diff
    (join nl (render_diff (d ++ [f])
              ++ bad :: pre ++ concat (map render_hunk hs))) di
  = Ok (expected_diff di d
        ++ expected_file di (with_more_hunks f hs)
        ++ expected_file di (with_more_hunks f hs)).
Proof.
  intros Hd Hf Hbad Hpre Hhs Hlines. unfold parse_diff.
  rewrite split_join_lines; [|by destruct (render_diff (d ++ [f]))|done].
  unfold parse_diff_lines. rewrite tokenize_lines_app.
  assert (Hwf : Forall wf_file (d ++ [f])).
  { apply Forall_app. split; [done|by constructor]. }
  destruct (hunks_headers hs Hhs) as [Hnf Hhp].
  set (s1 := foldl (vstep di) vinit (render_diff (d ++ [f]))).
  assert (Hopen : is_Some (v_file s1)).
  { subst s1. unfold render_diff. rewrite map_app, concat_app, foldl_app.
    cbn [map concat]. by apply vstep_file_open. }
  destruct (represents_lines di (render_diff (d ++ [f]))
              (wf_headers_parse _ Hwf) _ _ represents_init)
    as (st1 & -> & Hrep1).
  fold s1 in Hrep1. cbn [mbind exc_bind tokenize_lines].
  destruct (parse_after_bad_header di st1 s1 bad
              (pre ++ concat (map render_hunk hs)) Hrep1 Hopen Hbad)
    as (st2 & st3 & Hst2 & Hst3 & Hread).
  { apply Forall_app. split; [|done].
    eapply Forall_impl; [exact Hpre|]. by intros l [? ?]. }
  { apply Forall_app. split; [|done].
    eapply Forall_impl; [exact Hpre|]. apply plain_headers_parse. }
  rewrite Hst2. cbn [mbind exc_bind]. rewrite Hst3.
  cbn [mbind exc_bind mret exc_ret]. f_equal. rewrite Hread.
  rewrite vfinish_closed, foldl_app, (vstep_body di pre) by done.
  match goal with
  | |- context [foldl (vstep di) ?s0 (concat _)] =>
      destruct (vstep_hunks di hs s0 Hhs) as [-> ->]
  end.
  cbn [v_done vclose closed_file v_file v_hunk].
  pose proof (vstep_diff di (d ++ [f]) vinit Hwf) as Hv. fold s1 in Hv.
  cbn [vfinish vinit v_done v_file app] in Hv.
  unfold expected_diff in Hv. rewrite bind_app in Hv.
  cbn [mbind list_bind] in Hv. rewrite app_nil_r in Hv. fold (expected_diff di d) in Hv.
  rewrite !expected_file_more_hunks.
  destruct Hf as ([_ [m Hm]] & _).
  unfold expected_file in Hv |- *. rewrite Hm in Hv |- *.
  unfold vfinish in Hv. destruct Hopen as [fc Hfc]. rewrite Hfc in Hv |- *.
  apply app_inj_tail in Hv as [-> Hlast].
  cbn [fmap option_fmap option_map file_with_hunk map].
  rewrite Hlast. by rewrite <- app_assoc.
Qed.

Lemma X4_unparsed_file_header_lists_the_file_twice_witness :
  parse_diff
    (join nl (render_diff ([first_file] ++ [second_file])
              ++ quoted_header :: ["--- x"; "+++ y"]
              ++ concat (map render_hunk [late_hunk]))) None
  = Ok (expected_diff None [first_file]
        ++ expected_file None (with_more_hunks second_file [late_hunk])
        ++ expected_file None (with_more_hunks second_file [late_hunk])).
Proof.
  apply (X4_unparsed_file_header_lists_the_file_twice None
           [first_file] second_file quoted_header ["--- x"; "+++ y"]
           [late_hunk]).
  - by wf_diff.
  - split; [wf_header|split; [wf_plain|wf_hunks]].
  - split; vm_compute; reflexivity.
  - wf_plain.
  - wf_hunks.
  - repeat constructor.
Defined.

(** ** Greedy batches *)

Section greedy_facts.
Context {A : Type} (weight : A -> Z) (cap : Z).

Lemma total_weight_app (p q : list A) :
  total_weight weight (p ++ q)
  = (total_weight weight p + total_weight weight q)%Z.
Proof. induction p as [|x p IH]; simpl; [lia|]. rewrite IH. lia. Qed.

Lemma total_weight_pos (l : list A) :
  Forall (fun x => 1 <= weight x)%Z l -> l <> [] ->
  (1 <= total_weight weight l)%Z.
Proof.
  intros H Hne. destruct H as [|x l Hx Hl]; [done|]. simpl.
  assert (0 <= total_weight weight l)%Z; [|lia].
  clear Hne Hx. induction Hl; simpl; lia.
Qed.

Lemma total_weight_nonneg (l : list A) :
  Forall (fun x => 1 <= weight x)%Z l -> (0 <= total_weight weight l)%Z.
Proof. induction 1; simpl; lia. Qed.

Lemma greedy_batches_concat (cur xs : list A) :
  concat (greedy_batches weight cap cur xs) = cur ++ xs.
Proof.
  revert cur. induction xs as [|x xs IH]; intros cur; simpl.
  - destruct cur; simpl; by rewrite ?app_nil_r.
  - destruct (_ && _)%Z; simpl; rewrite IH; [done|]. by rewrite <- app_assoc.
Qed.

Lemma greedy_batches_nonempty (cur xs : list A) :
  Forall (fun b => b <> []) (greedy_batches weight cap cur xs).
Proof.
  revert cur. induction xs as [|x xs IH]; intros cur; simpl.
  - destruct cur; by repeat constructor.
  - destruct (_ && _)%Z eqn:E; [|apply IH].
    constructor; [|apply IH]. intros ->. simpl in E. done.
Qed.

(** With weights of at least one, a batch over the cap is one element. *)
Lemma greedy_batches_cap (cur xs : list A) :
  Forall (fun x => 1 <= weight x)%Z (cur ++ xs) ->
  (total_weight weight cur <= cap)%Z \/ length cur <= 1 ->
  Forall (fun b => (total_weight weight b <= cap)%Z \/ length b = 1)
    (greedy_batches weight cap cur xs).
Proof.
  revert cur. induction xs as [|x xs IH]; intros cur Hpos Hcur; simpl.
  - destruct cur as [|c cur]; [constructor|]. constructor; [|constructor].
    destruct Hcur as [H|H]; [by left|right]. simpl in *. lia.
  - assert (Hx : (1 <= weight x)%Z).
    { rewrite Forall_app in Hpos. destruct Hpos as [_ Hpos].
      by inversion Hpos. }
    destruct (_ && _)%Z eqn:E.
    + apply andb_true_iff in E as [E1 E2].
      apply Z.ltb_lt in E1. apply Z.ltb_lt in E2.
      constructor.
      * destruct Hcur as [H|H]; [by left|right].
        destruct cur as [|c [|c' cur]]; simpl in *; [lia|done|lia].
      * apply IH; [|right; simpl; lia].
        rewrite Forall_app in Hpos. destruct Hpos as [_ Hpos]. exact Hpos.
    + apply IH; [by rewrite <- app_assoc|].
      apply andb_false_iff in E as [E|E].
      * apply Z.ltb_ge in E.
        destruct cur as [|c cur]; [right; simpl; lia|].
        rewrite Forall_app in Hpos. destruct Hpos as [Hc _].
        assert (1 <= total_weight weight (c :: cur))%Z
          by (by apply total_weight_pos).
        lia.
      * apply Z.ltb_ge in E. left. rewrite total_weight_app. simpl. lia.
Qed.

Lemma greedy_batches_head (cur xs : list A) :
  cur <> [] ->
  exists x rest, greedy_batches weight cap cur xs = (cur ++ x) :: rest.
Proof.
  revert cur. induction xs as [|x xs IH]; intros cur Hne; simpl.
  - destruct cur; [done|]. exists [], []. by rewrite app_nil_r.
  - destruct (_ && _)%Z.
    + exists [], (greedy_batches weight cap [x] xs). by rewrite app_nil_r.
    + destruct (IH (cur ++ [x])) as (y & rest & ->); [by destruct cur|].
      exists (x :: y), rest. by rewrite <- app_assoc.
Qed.

Lemma greedy_batches_started (cur xs : list A) :
  each_started_full weight cap (greedy_batches weight cap cur xs).
Proof.
  revert cur. induction xs as [|x xs IH]; intros cur; simpl.
  - destruct cur; constructor.
  - destruct (_ && _)%Z eqn:E; [|apply IH].
    apply andb_true_iff in E as [_ E2]. apply Z.ltb_lt in E2.
    specialize (IH [x]).
    destruct (greedy_batches_head [x] xs) as (y & rest & Hg); [done|].
    rewrite Hg in IH |- *. simpl. by constructor.
Qed.

End greedy_facts.

(** ** The new functions of a file *)

Lemma new_batch_of_snoc (b : list new_segment) (s : new_segment) :
  new_batch_of (b ++ [s]) = new_batch_add (new_batch_of b) s.
Proof. unfold new_batch_of. by rewrite foldl_app. Qed.

Lemma new_batch_of_fields (b : list new_segment) :
  nb_func_names (new_batch_of b) = map ns_function b
  /\ nb_headers (new_batch_of b) = map (fun s => header_part (ns_header s)) b
  /\ nb_contents (new_batch_of b) = map ns_content b
  /\ nb_total_lines (new_batch_of b) = total_weight ns_total b
  /\ nb_diffinfos (new_batch_of b) = map ns_diffinfo b.
Proof.
  induction b as [|s b IH] using rev_ind; [done|].
  rewrite new_batch_of_snoc. destruct IH as (H1 & H2 & H3 & H4 & H5).
  unfold new_batch_add. simpl.
  rewrite H1, H2, H3, H4, H5, !map_app, total_weight_app. simpl.
  split_and!; try done. lia.
Qed.

Lemma flush_new_batch_of (b : list new_segment) :
  b <> [] -> flush_new_batch (new_batch_of b) = Ok (new_entry_of b).
Proof.
  intros Hne. unfold flush_new_batch, new_entry_of.
  destruct (new_batch_of_fields b) as (-> & -> & -> & -> & ->).
  destruct b as [|s [|s' b]]; [done|reflexivity|reflexivity].
Qed.

Lemma combine_new_loop_batches (cur func_list : list new_segment) :
  combine_new_loop (new_batch_of cur) func_list
  = Ok (map new_entry_of
          (greedy_batches ns_total MAX_NEW_FUNCTION_COMBINED_LINES cur func_list)).
Proof.
  revert cur. induction func_list as [|s l IH]; intros cur; simpl.
  - destruct (new_batch_of_fields cur) as (_ & _ & -> & _).
    destruct cur as [|c cur]; [done|]. simpl map at 1. cbv iota.
    by rewrite flush_new_batch_of.
  - destruct (new_batch_of_fields cur) as (_ & _ & _ & -> & _).
    destruct (_ && _)%Z eqn:E.
    + assert (cur <> []) by (intros ->; simpl in E; done).
      rewrite flush_new_batch_of by done. simpl.
      change (new_batch_add empty_new_batch s) with (new_batch_of [s]).
      by rewrite IH.
    + rewrite <- new_batch_of_snoc. apply IH.
Qed.

Lemma split_go_nonempty (sep : string) (limit : option nat) (skip : nat)
    (cur s : string) :
  split_go sep limit skip cur s <> [].
Proof.
  revert limit skip cur. induction s as [|c s IH]; intros limit skip cur; simpl.
  - done.
  - destruct skip; [|apply IH]. destruct limit as [[|n]|]; [done| |].
    + destruct (starts sep _); [done|apply IH].
    + destruct (starts sep _); [done|apply IH].
Qed.

(** A content counts at least one line, the empty content too. *)
Lemma count_total_lines_pos (hunk_content : string) :
  (1 <= count_total_lines hunk_content)%Z.
Proof.
  unfold count_total_lines, len, split.
  pose proof (split_go_nonempty nl None 0 EmptyString (rstrip hunk_content)).
  destruct (split_go _ _ _ _ _); [done|]. simpl. lia.
Qed.

(** X5: the new functions of a file are combined in consecutive batches, in
    order and without loss; the entry of a batch names its functions joined
    by [", "] and has the sum of their line counts as its total.  Since a
    content counts at least one line, an entry over the cap of 250 lines is
    one function alone, and every batch after the first starts with the
    function that did not fit in the batch before. *)
Theorem X5_new_functions_cap (segments : list Segment) :
  exists bs : list (list new_segment),
    combine_new_loop empty_new_batch (map new_segment_of segments)
    = Ok (map new_entry_of bs)
    /\ concat bs = map new_segment_of segments
    /\ Forall (fun b =>
                 b <> []
                 /\ ce_function (new_entry_of b) = join ", " (map ns_function b)
                 /\ ce_total_lines (new_entry_of b) = total_weight ns_total b
                 /\ ((ce_total_lines (new_entry_of b)
                      <= MAX_NEW_FUNCTION_COMBINED_LINES)%Z
                     \/ length b = 1)) bs
    /\ each_started_full ns_total MAX_NEW_FUNCTION_COMBINED_LINES bs.
Proof.
  set (l := map new_segment_of segments).
  exists (greedy_batches ns_total MAX_NEW_FUNCTION_COMBINED_LINES [] l).
  split; [apply (combine_new_loop_batches [] l)|].
  split; [apply (greedy_batches_concat _ _ [] l)|].
  split; [|apply greedy_batches_started].
  assert (Hpos : Forall (fun s => 1 <= ns_total s)%Z ([] ++ l)).
  { apply Forall_forall. intros s Hs.
    apply list_elem_of_fmap in Hs as (x & -> & _). apply count_total_lines_pos. }
  pose proof (greedy_batches_nonempty ns_total MAX_NEW_FUNCTION_COMBINED_LINES [] l) as H1.
  pose proof (greedy_batches_cap ns_total MAX_NEW_FUNCTION_COMBINED_LINES [] l Hpos) as H2.
  specialize (H2 (or_intror (Nat.le_0_l 1))).
  rewrite Forall_forall in H1, H2. apply Forall_forall. intros b Hb.
  split; [by apply H1|]. split; [done|]. split; [done|]. by apply H2.
Qed.

(** ** The FILE-N groups *)

Lemma get_definition_for_change_Ok
    (read_lines : option string -> string -> option (list string))
    (file_path function_name : string) (hunk_new_start : Z)
    (git_dir : option string) :
  exists r,
    get_definition_for_change read_lines file_path function_name
      hunk_new_start git_dir = Ok r.
Proof.
  unfold get_definition_for_change.
  destruct (read_lines git_dir file_path) as [lines|] eqn:Er; [|eauto].
  destruct ((hunk_new_start - 1 <? 0)%Z || _) eqn:E; [eauto|].
  apply orb_false_iff in E as [E _]. apply Z.ltb_ge in E.
  destruct (find_function_start_spec lines (hunk_new_start - 1) E)
    as (rs & Hrs & Hs).
  rewrite Hrs. simpl. destruct rs as [start_line|]; [|eauto].
  destruct (Hs start_line eq_refl) as (Hs1 & Hs2 & _).
  destruct (find_function_end_spec lines start_line) as (re & Hre & He); [lia|].
  rewrite Hre. simpl. destruct re as [end_line|]; [|eauto].
  destruct (10000 <? _)%Z; eauto.
Qed.

Lemma adict_get_elem {V} (d : list (string * V)) (k : string) (v : V) :
  adict_get d k = Some v -> (k, v) ∈ d.
Proof.
  induction d as [|[k' v'] d IH]; simpl; [done|].
  destruct (String.eqb_spec k' k) as [->|Hne].
  - intros [= ->]. apply elem_of_cons. by left.
  - intros H. apply elem_of_cons. right. by apply IH.
Qed.

Lemma int_of_digits_fit (s : string) :
  String.length s <= MAX_STR_DIGITS -> int_of_digits s = Ok (digits_value s).
Proof.
  intros Hs. unfold int_of_digits.
  by destruct (Nat.ltb_spec MAX_STR_DIGITS (String.length s)); [lia|].
Qed.

Lemma int_of_digits_long (s : string) :
  MAX_STR_DIGITS < String.length s -> int_of_digits s = Raise ValueError.
Proof.
  intros Hs. unfold int_of_digits.
  by destruct (Nat.ltb_spec MAX_STR_DIGITS (String.length s)); [|lia].
Qed.

(** [parse_hunk_line_numbers] raises when a number of the new range is too
    long for [int], and only then. *)
Lemma parse_hunk_line_numbers_spec (hunk_header : string) :
  match parse_hunk_line_numbers hunk_header with
  | Ok _ => range_fits hunk_header = true
  | Raise err => err = ValueError /\ range_fits hunk_header = false
  end.
Proof.
  unfold range_fits, parse_hunk_line_numbers.
  destruct (search P_new_range hunk_header) as [m|]; [|done].
  destruct (Nat.leb_spec (String.length (group_str m 1)) MAX_STR_DIGITS)
    as [H1|H1].
  2:{ by rewrite (int_of_digits_long _ H1). }
  rewrite (int_of_digits_fit _ H1). cbn [mbind exc_bind andb].
  unfold group_str.
  destruct (group 2 (groups m)) as [s|]; cbn [truthy default]; [|done].
  destruct s as [|c s]; [done|]. cbn [is_empty].
  destruct (Nat.leb_spec (String.length (String c s)) MAX_STR_DIGITS)
    as [H2|H2].
  - rewrite (int_of_digits_fit (String c s) H2). by apply Nat.leb_le.
  - rewrite (int_of_digits_long (String c s) H2).
    split; [done|]. by apply Nat.leb_gt.
Qed.

Section grouping_facts.
Variable use_semcode : bool.
Variable read_lines : option string -> string -> option (list string).
Variable git_dir : option string.

Local Abbreviation change_definition' := (change_definition use_semcode read_lines git_dir).
Local Abbreviation stage_changes_loop' := (stage_changes_loop use_semcode read_lines git_dir).
Local Abbreviation stage_change' := (stage_change use_semcode read_lines git_dir).
Local Abbreviation stage_files_loop' := (stage_files_loop use_semcode read_lines git_dir).
Local Abbreviation stage_file' := (stage_file use_semcode read_lines git_dir).
Local Abbreviation build_file_groups' := (build_file_groups use_semcode read_lines git_dir).
Local Abbreviation change_at' := (change_at use_semcode read_lines git_dir).
Local Abbreviation changes_hold' := (changes_hold use_semcode read_lines git_dir).
Local Abbreviation group_holds' := (group_holds use_semcode read_lines git_dir).
Local Abbreviation groups_hold' := (groups_hold use_semcode read_lines git_dir).
Local Abbreviation flushed' := (flushed use_semcode read_lines git_dir).
Local Abbreviation filling' := (filling use_semcode read_lines git_dir).
Local Abbreviation between_files' :=
  (between_files use_semcode read_lines git_dir).
Local Abbreviation converts' := (converts use_semcode).
Local Abbreviation all_convert' := (all_convert use_semcode).

Lemma change_definition_spec (p : string) (e : change_entry) :
  match change_definition' p e with
  | Ok _ => True
  | Raise err => err = ValueError /\ ~ converts' e
  end.
Proof.
  unfold change_definition, converts.
  destruct use_semcode; cbn [negb andb]; [done|].
  destruct (negb (String.eqb _ _)); [|done].
  pose proof (parse_hunk_line_numbers_spec (ce_header e)) as H.
  destruct (parse_hunk_line_numbers (ce_header e)) as [[[n m]|]|err];
    cbn [mbind exc_bind]; [|done|].
  - by destruct (get_definition_for_change_Ok read_lines p (ce_function e) n
                   git_dir) as [r ->].
  - destruct H as [-> H]. split; [done|]. intros [Hc|Hc]; congruence.
Qed.

Lemma change_at_insert (h : store) (p : string) (n : Z) (k a b : nat)
    (e : change_entry) (c : Change) :
  a <> b -> change_at' h p n k a e -> change_at' (<[b := c]> h) p n k a e.
Proof.
  intros Hne (c0 & Hc & H). exists c0. split; [|exact H].
  by rewrite lookup_insert_ne.
Qed.

Lemma changes_hold_insert (h : store) (p : string) (n : Z) (addrs : list nat)
    (es : list change_entry) (b : nat) (c : Change) :
  (b ∉ addrs) -> changes_hold' h p n addrs es ->
  changes_hold' (<[b := c]> h) p n addrs es.
Proof.
  intros Hb [Hlen H]. split; [exact Hlen|]. intros k a e Ha He.
  apply change_at_insert; [|by apply H].
  intros ->. apply Hb. by eapply list_elem_of_lookup_2.
Qed.

Lemma groups_hold_insert (h : store) (groups : list StageGroup)
    (expected : list (string * list change_entry)) (b : nat) (c : Change) :
  (b ∉ stage_changes groups) -> groups_hold' h groups expected ->
  groups_hold' (<[b := c]> h) groups expected.
Proof.
  intros Hb [Hlen H]. split; [exact Hlen|]. intros i g pb Hg Hpb.
  destruct (H i g pb Hg Hpb) as (H1 & H2 & H3 & H4).
  split_and!; try done. apply changes_hold_insert; [|done].
  intros Hin. apply Hb. unfold stage_changes.
  apply list_elem_of_In, in_concat. exists (sg_changes g).
  split; [|by apply list_elem_of_In].
  apply in_map, list_elem_of_In. by eapply list_elem_of_lookup_2.
Qed.

Lemma groups_hold_snoc (h : store) (groups : list StageGroup)
    (expected : list (string * list change_entry)) (g : StageGroup)
    (pb : string * list change_entry) :
  groups_hold' h groups expected -> group_holds' h (length groups) g pb ->
  groups_hold' h (groups ++ [g]) (expected ++ [pb]).
Proof.
  intros [Hlen H] Hg. split; [by rewrite !length_app, Hlen|].
  intros i g' pb' Hi Hpb.
  destruct (decide (i < length groups)) as [Hlt|Hge].
  - rewrite lookup_app_l in Hi by done.
    rewrite lookup_app_l in Hpb by (by rewrite <- Hlen).
    by apply H.
  - pose proof (lookup_lt_Some _ _ _ Hi) as Hb.
    rewrite length_app in Hb. simpl in Hb.
    assert (i = length groups) as -> by lia.
    rewrite lookup_app_r, Nat.sub_diag in Hi by done.
    rewrite Hlen, lookup_app_r, Nat.sub_diag in Hpb by done.
    simpl in Hi, Hpb. injection Hi as <-. injection Hpb as <-.
    done.
Qed.

Lemma stage_changes_snoc (groups : list StageGroup) (g : StageGroup) :
  stage_changes (groups ++ [g]) = stage_changes groups ++ sg_changes g.
Proof.
  unfold stage_changes. rewrite map_app, concat_app. simpl.
  by rewrite app_nil_r.
Qed.

(** Flushing the group that is being filled. *)
Lemma flushed_append (s : stage) (done : list (string * list change_entry))
    (p : string) (cur : list change_entry) :
  flushed' s done -> filling' s p cur ->
  flushed' (stage_append p s) (done ++ [(p, cur)])
  /\ stage_changes (sa_file_groups (stage_append p s)) = seq 0 (sa_next s).
Proof.
  intros [Hg Hn] (Hc & Hl & _ & Ha). split; [split|].
  - cbn [stage_append sa_store sa_file_groups].
    apply groups_hold_snoc; [done|].
    split_and!; cbn [sg_file sg_file_num sg_total_lines sg_changes fst snd];
      try done.
    by rewrite <- Hn.
  - cbn [stage_append sa_file_num sa_file_groups].
    rewrite Hn, length_app. simpl. lia.
  - cbn [stage_append sa_file_groups]. by rewrite stage_changes_snoc.
Qed.

Lemma filling_reset (s : stage) (p : string) :
  stage_changes (sa_file_groups s) = seq 0 (sa_next s) ->
  filling' (stage_reset s) p [].
Proof.
  intros Ha. unfold filling.
  cbn [stage_reset sa_group_changes sa_group_lines sa_change_num
       sa_file_groups sa_next sa_store sa_file_num].
  split_and!; [|done|done|by rewrite app_nil_r].
  split; [done|]. intros k a e Hk. done.
Qed.

(** One entry: it joins the group that is being filled, or starts the next
    group, as the greedy batches do. *)
Lemma stage_change_spec (s : stage) (done : list (string * list change_entry))
    (p : string) (cur : list change_entry) (e : change_entry) :
  flushed' s done -> filling' s p cur ->
  match stage_change' p s e with
  | Ok s' =>
      if ((0 <? total_weight ce_total_lines cur)
          && (MAX_LINES_PER_FILE
              <? total_weight ce_total_lines cur + ce_total_lines e))%Z
      then flushed' s' (done ++ [(p, cur)]) /\ filling' s' p [e]
      else flushed' s' done /\ filling' s' p (cur ++ [e])
  | Raise err => err = ValueError /\ ~ converts' e
  end.
Proof.
  intros Hf Hc. unfold stage_change.
  pose proof (change_definition_spec p e) as Hd.
  destruct (change_definition' p e) as [def|err] eqn:Hdef; [clear Hd|exact Hd].
  destruct Hc as (Hch & Hl & Hcn & Ha). rewrite Hl.
  assert (Hfresh : forall s0 : stage,
            stage_changes (sa_file_groups s0) ++ sa_group_changes s0
            = seq 0 (sa_next s0) ->
            (sa_next s0 ∉ stage_changes (sa_file_groups s0))
            /\ (sa_next s0 ∉ sa_group_changes s0)).
  { intros s0 E.
    assert (Hn : sa_next s0 ∉ seq 0 (sa_next s0)).
    { intros Hin. apply list_elem_of_In, in_seq in Hin. lia. }
    rewrite <- E in Hn. split; intros Hin; apply Hn, elem_of_app; auto. }
  assert (Hstep : forall (s0 : stage) done0 cur0,
            flushed' s0 done0 -> filling' s0 p cur0 ->
            let s' :=
              {| sa_file_groups := sa_file_groups s0;
                 sa_file_num := sa_file_num s0;
                 sa_store :=
                   <[sa_next s0 :=
                       {| file_num := sa_file_num s0;
                          change_num := sa_change_num s0;
                          file := p; function := ce_function e;
                          hunk_header := ce_header e;
                          hunk_content := ce_content e;
                          total_lines := ce_total_lines e;
                          change_diffinfo := ce_diffinfo e;
                          definition := def |}]> (sa_store s0);
                 sa_next := S (sa_next s0);
                 sa_group_changes := sa_group_changes s0 ++ [sa_next s0];
                 sa_group_lines := (sa_group_lines s0 + ce_total_lines e)%Z;
                 sa_change_num := (sa_change_num s0 + 1)%Z |} in
            flushed' s' done0 /\ filling' s' p (cur0 ++ [e])).
  { intros s0 done0 cur0 [Hg0 Hn0] (Hch0 & Hl0 & Hcn0 & Ha0) s'.
    destruct (Hfresh s0 Ha0) as [Hf1 Hf2].
    split; [split|split_and!]; subst s';
      cbn [sa_store sa_file_groups sa_file_num sa_group_changes sa_group_lines
           sa_change_num sa_next].
    - by apply groups_hold_insert.
    - done.
    - destruct Hch0 as [Hlen0 Hat0]. split; [by rewrite !length_app, Hlen0|].
      intros k a e' Hk He'.
      destruct (decide (k < length (sa_group_changes s0))) as [Hlt|Hge].
      + rewrite lookup_app_l in Hk by done.
        rewrite lookup_app_l in He' by (by rewrite <- Hlen0).
        apply change_at_insert; [|by apply Hat0].
        intros ->. apply Hf2. by eapply list_elem_of_lookup_2.
      + pose proof (lookup_lt_Some _ _ _ Hk) as Hb.
        rewrite length_app in Hb. simpl in Hb.
        assert (k = length (sa_group_changes s0)) as -> by lia.
        rewrite lookup_app_r, Nat.sub_diag in Hk by done.
        rewrite Hlen0, lookup_app_r, Nat.sub_diag in He' by done.
        simpl in Hk, He'. injection Hk as <-. injection He' as <-.
        eexists. split; [apply lookup_insert_eq|].
        split_and!; cbn [file file_num change_num definition]; try done.
        * by destruct e.
        * rewrite Hcn0, Hlen0. done.
    - rewrite Hl0, total_weight_app. simpl. lia.
    - rewrite Hcn0, length_app. simpl. lia.
    - rewrite app_assoc, Ha0. by rewrite seq_S. }
  destruct (_ && _)%Z eqn:E.
  - cbn [mbind exc_bind mret exc_ret].
    destruct (flushed_append s done p cur Hf) as [Hf' Ha'].
    { by split_and!. }
    apply (Hstep (stage_reset (stage_append p s)) (done ++ [(p, cur)]) []).
    + destruct Hf' as [H1 H2]. split; [exact H1|exact H2].
    + apply filling_reset. exact Ha'.
  - cbn [mbind exc_bind mret exc_ret].
    apply (Hstep s done cur); [done|by split_and!].
Qed.

Lemma stage_changes_loop_spec (es : list change_entry) (s : stage)
    (done : list (string * list change_entry)) (p : string)
    (cur : list change_entry) :
  flushed' s done -> filling' s p cur ->
  match stage_changes_loop' p s es with
  | Ok s' =>
      exists done' cur',
        flushed' s' (done ++ map (pair p) done')
        /\ filling' s' p cur'
        /\ greedy_batches ce_total_lines MAX_LINES_PER_FILE cur es
           = done' ++ match cur' with [] => [] | _ :: _ => [cur'] end
  | Raise err => err = ValueError /\ ~ Forall converts' es
  end.
Proof.
  revert s done cur. induction es as [|e es IH]; intros s done cur Hf Hc.
  - exists [], cur. rewrite app_nil_r. split_and!; try done.
  - pose proof (stage_change_spec s done p cur e Hf Hc) as Hcase.
    cbn [stage_changes_loop greedy_batches].
    destruct (stage_change' p s e) as [s1|err]; cbn [mbind exc_bind].
    2:{ destruct Hcase as [-> Hn]. split; [done|].
        intros HF. apply Hn. by inversion HF. }
    destruct (_ && _)%Z.
    + destruct Hcase as [Hf1 Hc1].
      pose proof (IH s1 _ _ Hf1 Hc1) as H.
      destruct (stage_changes_loop' p s1 es) as [s'|err].
      * destruct H as (done' & cur' & Hf' & Hc' & Hg).
        exists (cur :: done'), cur'. split_and!; try done.
        -- by rewrite <- app_assoc in Hf'.
        -- by rewrite Hg.
      * destruct H as [-> Hn]. split; [done|].
        intros HF. apply Hn. by inversion HF.
    + destruct Hcase as [Hf1 Hc1].
      pose proof (IH s1 _ _ Hf1 Hc1) as H.
      destruct (stage_changes_loop' p s1 es) as [s'|err].
      * destruct H as (done' & cur' & Hf' & Hc' & Hg).
        exists done', cur'. by split_and!.
      * destruct H as [-> Hn]. split; [done|].
        intros HF. apply Hn. by inversion HF.
Qed.

Lemma stage_file_spec (changes_by_file : list (string * list change_entry))
    (s : stage) (done : list (string * list change_entry)) (p : string) :
  between_files' s done ->
  match stage_file' changes_by_file s p with
  | Ok s' => between_files' s' (done ++ file_batches changes_by_file p)
  | Raise err => err = ValueError /\ ~ all_convert' changes_by_file
  end.
Proof.
  intros [Hf Ha]. unfold stage_file.
  assert (Hf0 : flushed' (stage_reset s) done) by exact Hf.
  pose proof (filling_reset s p Ha) as Hc0.
  assert (Hes : all_convert' changes_by_file ->
                Forall converts' (default [] (adict_get changes_by_file p))).
  { intros Hall.
    destruct (adict_get changes_by_file p) as [es|] eqn:E; [|constructor].
    apply adict_get_elem in E. unfold all_convert in Hall.
    rewrite Forall_forall in Hall. apply (Hall _ E). }
  pose proof (stage_changes_loop_spec
                (default [] (adict_get changes_by_file p)) _ _ _ _ Hf0 Hc0)
    as H.
  destruct (stage_changes_loop' p (stage_reset s) _) as [s'|err];
    cbn [mbind exc_bind].
  2:{ destruct H as [-> Hn]. split; [done|]. intros Hall. by apply Hn, Hes. }
  destruct H as (done' & cur' & Hf' & Hc' & Hg).
  unfold file_batches, entries_at. rewrite Hg.
  pose proof Hc' as ([Hlen _] & _ & _ & Ha').
  destruct (sa_group_changes s') as [|a l] eqn:E.
  - destruct cur' as [|c cur']; [|done].
    cbn [mret exc_ret]. rewrite !app_nil_r in *.
    split; [exact Hf'|exact Ha'].
  - destruct cur' as [|c cur']; [done|].
    cbn [mret exc_ret].
    destruct (flushed_append s' _ p (c :: cur') Hf' Hc') as [H1 H2].
    rewrite map_app, app_assoc. split; [exact H1|exact H2].
Qed.

Lemma stage_files_loop_spec
    (changes_by_file : list (string * list change_entry))
    (paths : list string) (s : stage)
    (done : list (string * list change_entry)) :
  between_files' s done ->
  match stage_files_loop' changes_by_file s paths with
  | Ok s' =>
      between_files' s' (done ++ (paths ≫= file_batches changes_by_file))
  | Raise err => err = ValueError /\ ~ all_convert' changes_by_file
  end.
Proof.
  revert s done. induction paths as [|p paths IH]; intros s done H.
  - cbn [stage_files_loop mret exc_ret]. by rewrite app_nil_r.
  - pose proof (stage_file_spec changes_by_file s done p H) as H1.
    cbn [stage_files_loop].
    destruct (stage_file' changes_by_file s p) as [s1|err];
      cbn [mbind exc_bind]; [|exact H1].
    pose proof (IH s1 _ H1) as H'.
    destruct (stage_files_loop' changes_by_file s1 paths) as [s'|err];
      [|exact H'].
    cbn [mbind list_bind]. by rewrite app_assoc.
Qed.

Lemma build_file_groups_spec
    (changes_by_file : list (string * list change_entry)) :
  match build_file_groups' changes_by_file with
  | Ok (groups, h) =>
      groups_hold' h groups (expected_groups changes_by_file)
      /\ stage_changes groups = seq 0 (length (stage_changes groups))
  | Raise err => err = ValueError /\ ~ all_convert' changes_by_file
  end.
Proof.
  unfold build_file_groups.
  pose proof (stage_files_loop_spec changes_by_file
                (sorted_keys changes_by_file) stage_init []) as H.
  destruct (stage_files_loop' changes_by_file stage_init _) as [s|err];
    cbn [mbind exc_bind mret exc_ret].
  2:{ apply H. split; [split|]; [|done|done]. split; [done|].
      intros i g pb Hi. done. }
  destruct H as [[Hg _] Ha].
  { split; [split|]; [|done|done]. split; [done|]. intros i g pb Hi. done. }
  split; [exact Hg|]. rewrite Ha at 1. by rewrite Ha, length_seq.
Qed.

End grouping_facts.

Lemma expected_groups_elem (changes_by_file : list (string * list change_entry))
    (pb : string * list change_entry) :
  pb ∈ expected_groups changes_by_file ->
  pb.2 ∈ greedy_batches ce_total_lines MAX_LINES_PER_FILE []
           (entries_at changes_by_file pb.1).
Proof.
  unfold expected_groups. intros H.
  apply list_elem_of_bind in H as (p & H & _). unfold file_batches in H.
  apply list_elem_of_fmap in H as (b & -> & Hb). exact Hb.
Qed.

(** X6: the pass that assigns the FILE-N numbers raises nothing when the
    definitions are not looked up in the files ([use_semcode]) or the
    numbers of the new range of every hunk header have at most 4300 digits,
    the most that [int] converts.  It then makes the groups that the entries
    call for: for each path in sorted order, the greedy batches of the
    entries of the path under [MAX_LINES_PER_FILE].  The group of index [i]
    has the number [i + 1] and the sum of the [total_lines] of its entries;
    its change of index [k] is the object made from the entry of index [k],
    with the path, the numbers [i + 1] and [k + 1] and the definition that
    is extracted for the entry.  The objects are allocated in the order of
    the groups.  No group is empty, and when every entry has at least one
    line, a group over the cap holds one change. *)
Theorem X6_file_groups (use_semcode : bool)
    (read_lines : option string -> string -> option (list string))
    (git_dir : option string)
    (changes_by_file : list (string * list change_entry)) :
  all_convert use_semcode changes_by_file ->
  exists groups h,
    build_file_groups use_semcode read_lines git_dir changes_by_file
    = Ok (groups, h)
    /\ groups_hold use_semcode read_lines git_dir h groups
         (expected_groups changes_by_file)
    /\ stage_changes groups = seq 0 (length (stage_changes groups))
    /\ Forall (fun g => sg_changes g <> []) groups
    /\ (Forall (fun pe => Forall (fun e => 1 <= ce_total_lines e)%Z pe.2)
          changes_by_file ->
        Forall (fun g => (sg_total_lines g <= MAX_LINES_PER_FILE)%Z
                         \/ length (sg_changes g) = 1) groups).
Proof.
  intros Hall.
  pose proof (build_file_groups_spec use_semcode read_lines git_dir
                changes_by_file) as H.
  destruct (build_file_groups use_semcode read_lines git_dir changes_by_file)
    as [[groups h]|err] eqn:Hr; [|by destruct H as [_ H]].
  destruct H as [Hg Ha].
  exists groups, h. split; [reflexivity|]. split; [exact Hg|]. split; [exact Ha|].
  destruct Hg as [Hlen Hg].
  assert (Hex : forall g, g ∈ groups ->
            exists pb, pb ∈ expected_groups changes_by_file
                       /\ sg_total_lines g = total_weight ce_total_lines pb.2
                       /\ length (sg_changes g) = length pb.2).
  { intros g Hin. apply list_elem_of_lookup in Hin as [i Hi].
    destruct (lookup_lt_is_Some_2 (expected_groups changes_by_file) i)
      as [pb Hpb]; [rewrite <- Hlen; by eapply lookup_lt_Some|].
    destruct (Hg i g pb Hi Hpb) as (_ & _ & Ht & [Hl _]).
    exists pb. split; [by eapply list_elem_of_lookup_2|done]. }
  split.
  - apply Forall_forall. intros g Hin.
    destruct (Hex g Hin) as (pb & Hpb & _ & Hl).
    apply expected_groups_elem in Hpb.
    pose proof (greedy_batches_nonempty ce_total_lines MAX_LINES_PER_FILE []
                  (entries_at changes_by_file pb.1)) as Hne.
    rewrite Forall_forall in Hne. specialize (Hne _ Hpb).
    intros E. rewrite E in Hl. by destruct pb.2.
  - intros Hpos. apply Forall_forall. intros g Hin.
    destruct (Hex g Hin) as (pb & Hpb & Ht & Hl).
    apply expected_groups_elem in Hpb.
    assert (Hp : Forall (fun e => 1 <= ce_total_lines e)%Z
                   ([] ++ entries_at changes_by_file pb.1)).
    { unfold entries_at. simpl.
      destruct (adict_get changes_by_file pb.1) as [es|] eqn:E; [|constructor].
      apply adict_get_elem in E. rewrite Forall_forall in Hpos.
      apply (Hpos _ E). }
    pose proof (greedy_batches_cap ce_total_lines MAX_LINES_PER_FILE [] _ Hp
                  (or_intror (Nat.le_0_l 1))) as Hcap.
    rewrite Forall_forall in Hcap. specialize (Hcap _ Hpb).
    rewrite Ht, Hl. exact Hcap.
Qed.

Lemma X6_file_groups_witness :
  exists groups h,
    build_file_groups false (fun _ _ => None) None sample_entries
    = Ok (groups, h)
    /\ map sg_changes groups = [[0; 1]; [2]; [3]]
    /\ map sg_file groups = ["a.c"; "a.c"; "b.c"]
    /\ Forall (fun g => (sg_total_lines g <= MAX_LINES_PER_FILE)%Z
                        \/ length (sg_changes g) = 1) groups.
Proof.
  destruct (X6_file_groups false (fun _ _ => None) None sample_entries)
    as (groups & h & Hr & _ & _ & _ & Hcap).
  { repeat constructor; right; vm_compute; reflexivity. }
  exists groups, h. split; [exact Hr|].
  vm_compute in Hr. injection Hr as <- <-.
  split; [reflexivity|]. split; [reflexivity|].
  apply Hcap. repeat constructor; vm_compute; discriminate.
Defined.

(** ** The coalescing pass: runs of groups *)

Lemma stage_lines_app (p q : list StageGroup) :
  stage_lines (p ++ q) = (stage_lines p + stage_lines q)%Z.
Proof. induction p as [|g p IH]; simpl; [lia|]. rewrite IH. lia. Qed.

Lemma stage_changes_app (p q : list StageGroup) :
  stage_changes (p ++ q) = stage_changes p ++ stage_changes q.
Proof. unfold stage_changes. by rewrite map_app, concat_app. Qed.

Lemma combined_of_snoc (cur : list StageGroup) (g : StageGroup) :
  combined_of (cur ++ [g])
  = {| ca_files := ca_files (combined_of cur) ++ [sg_file g];
       ca_changes := ca_changes (combined_of cur) ++ sg_changes g;
       ca_total_lines :=
         (ca_total_lines (combined_of cur) + sg_total_lines g)%Z |}.
Proof.
  unfold combined_of. cbn [ca_files ca_changes ca_total_lines].
  rewrite map_app, stage_changes_app, stage_lines_app. simpl.
  unfold stage_changes at 2. simpl. rewrite app_nil_r. f_equal. lia.
Qed.

Lemma start_combined_run (g : StageGroup) : start_combined g = combined_of [g].
Proof.
  unfold start_combined, combined_of, stage_changes. simpl.
  rewrite app_nil_r. f_equal. lia.
Qed.

Lemma coalesce_loop_runs (cur gs : list StageGroup) :
  coalesce_loop (pending cur) gs = map combined_of (coalesce_runs cur gs).
Proof.
  revert cur. induction gs as [|g gs IH]; intros cur.
  - by destruct cur.
  - destruct cur as [|c cur].
    + cbn [pending coalesce_loop coalesce_runs].
      rewrite start_combined_run. apply (IH [g]).
    + cbn [pending coalesce_loop coalesce_runs].
      change (ca_total_lines (combined_of (c :: cur)))
        with (stage_lines (c :: cur)).
      destruct (_ <=? _)%Z.
      * rewrite <- (IH ((c :: cur) ++ [g])).
        change (pending ((c :: cur) ++ [g]))
          with (Some (combined_of ((c :: cur) ++ [g]))).
        by rewrite (combined_of_snoc (c :: cur) g).
      * cbn [map]. rewrite start_combined_run. f_equal. apply (IH [g]).
Qed.

Lemma coalesce_runs_concat (cur gs : list StageGroup) :
  concat (coalesce_runs cur gs) = cur ++ gs.
Proof.
  revert cur. induction gs as [|g gs IH]; intros cur.
  - destruct cur; simpl; by rewrite ?app_nil_r.
  - destruct cur as [|c cur]; cbn [coalesce_runs]; [by rewrite IH|].
    destruct (_ <=? _)%Z; cbn [concat]; rewrite IH; [|done].
    by rewrite <- app_assoc.
Qed.

Lemma coalesce_runs_head (cur gs : list StageGroup) :
  cur <> [] -> exists x rest, coalesce_runs cur gs = (cur ++ x) :: rest.
Proof.
  revert cur. induction gs as [|g gs IH]; intros cur Hne.
  - destruct cur; [done|]. exists [], []. by rewrite app_nil_r.
  - destruct cur as [|c cur]; [done|]. cbn [coalesce_runs].
    destruct (_ <=? _)%Z.
    + destruct (IH ((c :: cur) ++ [g])) as (y & rest & ->); [done|].
      exists (g :: y), rest. by rewrite <- app_assoc.
    + exists [], (coalesce_runs [g] gs). by rewrite app_nil_r.
Qed.

(** A run of more than one group is within the cap, and every run after the
    first starts with the group that did not fit in the run before. *)
Lemma coalesce_runs_shape (cur gs : list StageGroup) :
  (stage_lines cur <= MAX_COMBINED_FILE_GROUP_LINES)%Z \/ length cur <= 1 ->
  Forall (fun run =>
            run <> []
            /\ ((stage_lines run <= MAX_COMBINED_FILE_GROUP_LINES)%Z
                \/ length run = 1))
    (coalesce_runs cur gs)
  /\ each_started_full sg_total_lines MAX_COMBINED_FILE_GROUP_LINES
       (coalesce_runs cur gs).
Proof.
  revert cur. induction gs as [|g gs IH]; intros cur Hcur.
  - destruct cur as [|c cur]; [split; constructor|].
    split; [|constructor]. constructor; [|constructor].
    split; [done|]. destruct Hcur as [H|H]; [by left|right]. simpl in *. lia.
  - destruct cur as [|c cur]; cbn [coalesce_runs].
    { apply IH. right. simpl. lia. }
    destruct (_ <=? _)%Z eqn:E.
    + apply Z.leb_le in E. apply IH. left. rewrite stage_lines_app.
      unfold stage_lines at 2. simpl foldr. lia.
    + apply Z.leb_gt in E.
      destruct (IH [g]) as [H1 H2]; [right; simpl; lia|].
      split.
      * constructor; [|exact H1]. split; [done|].
        destruct Hcur as [H|H]; [by left|right]. simpl in *. lia.
      * destruct (coalesce_runs_head [g] gs) as (y & rest & Hg); [done|].
        rewrite Hg in H2 |- *. simpl. constructor; [|exact H2].
        change (total_weight sg_total_lines (c :: cur))
          with (stage_lines (c :: cur)). lia.
Qed.

Lemma number_combined_groups (idx : Z) (cgroups : list combined_acc)
    (h : store) :
  Forall2 (fun g c =>
             g_changes g = ca_changes c
             /\ g_total_lines g = ca_total_lines c
             /\ g_files g = Some (ca_files c)
             /\ g_file g = match ca_files c with
                           | [f] => OneFile f
                           | fs => FileList fs
                           end)
    (number_combined idx cgroups h).1 cgroups.
Proof.
  revert idx h. induction cgroups as [|c cgroups IH]; intros idx h; simpl.
  - constructor.
  - specialize (IH (idx + 1)%Z (renumber_changes idx 1 (ca_changes c) h)).
    destruct (number_combined (idx + 1) cgroups
                (renumber_changes idx 1 (ca_changes c) h)) as [gs h2].
    simpl in *. constructor; [|exact IH]. by split_and!.
Qed.

(** X7: when there is more than one FILE-N group, the coalescing pass
    combines runs of consecutive groups, in order and without loss: the
    group it makes of a run holds the changes, the files and the sum of the
    lines of the run.  A run of more than one group has at most
    [MAX_COMBINED_FILE_GROUP_LINES] lines, and every run after the first
    starts with the group that did not fit in the run before it. *)
Theorem X7_coalescing_runs (file_groups : list StageGroup) (h : store) :
  1 < length file_groups ->
  exists runs : list (list StageGroup),
    concat runs = file_groups
    /\ Forall2 group_of_run (coalesce_groups file_groups h).1 runs
    /\ Forall (fun run =>
                 run <> []
                 /\ ((stage_lines run <= MAX_COMBINED_FILE_GROUP_LINES)%Z
                     \/ length run = 1)) runs
    /\ each_started_full sg_total_lines MAX_COMBINED_FILE_GROUP_LINES runs.
Proof.
  intros Hlen. exists (coalesce_runs [] file_groups).
  split; [apply (coalesce_runs_concat [] file_groups)|].
  destruct (coalesce_runs_shape [] file_groups) as [H1 H2]; [right; simpl; lia|].
  split; [|by split].
  unfold coalesce_groups. apply Nat.ltb_lt in Hlen. rewrite Hlen.
  change None with (pending []). rewrite coalesce_loop_runs.
  pose proof (number_combined_groups 1
                (map combined_of (coalesce_runs [] file_groups)) h) as Hn.
  apply Forall2_fmap_r in Hn.
  eapply Forall2_impl; [exact Hn|]. intros g run (E1 & E2 & E3 & E4).
  by split_and!.
Qed.

Lemma X7_coalescing_runs_witness :
  exists runs : list (list StageGroup),
    concat runs = small_stage_groups
    /\ Forall2 group_of_run
         (coalesce_groups small_stage_groups same_symbol_store).1 runs
    /\ Forall (fun run =>
                 run <> []
                 /\ ((stage_lines run <= MAX_COMBINED_FILE_GROUP_LINES)%Z
                     \/ length run = 1)) runs
    /\ each_started_full sg_total_lines MAX_COMBINED_FILE_GROUP_LINES runs.
Proof.
  apply (X7_coalescing_runs small_stage_groups same_symbol_store).
  vm_compute. lia.
Defined.

(** ** The numbers of the changes *)

Lemma renumber_changes_notin (idx n : Z) (changes : list nat) (h : store)
    (a : nat) :
  (a ∉ changes) -> renumber_changes idx n changes h !! a = h !! a.
Proof.
  revert n h. induction changes as [|b changes IH]; intros n h Ha; [done|].
  cbn [renumber_changes]. rewrite IH.
  - apply lookup_alter_ne. intros ->. apply Ha, elem_of_cons. by left.
  - intros Hin. apply Ha, elem_of_cons. by right.
Qed.

Lemma renumber_changes_at (idx n : Z) (changes : list nat) (h : store)
    (k a : nat) :
  NoDup changes -> changes !! k = Some a ->
  renumber_changes idx n changes h !! a
  = set_numbers idx (n + Z.of_nat k) <$> h !! a.
Proof.
  intros Hnd. revert n h k.
  induction Hnd as [|b changes Hb Hnd IH]; intros n h k Hk; [done|].
  cbn [renumber_changes]. destruct k as [|k].
  - injection Hk as ->. rewrite renumber_changes_notin by done.
    rewrite lookup_alter_eq. by rewrite Z.add_0_r.
  - cbn in Hk. rewrite (IH _ _ k Hk).
    rewrite lookup_alter_ne.
    2:{ intros ->. apply Hb. by eapply list_elem_of_lookup_2. }
    f_equal. f_equal. lia.
Qed.

Lemma number_groups_notin (idx : Z) (groups : list FileGroup) (h : store)
    (a : nat) :
  (a ∉ all_changes groups) -> (number_groups idx groups h).2 !! a = h !! a.
Proof.
  revert idx h. induction groups as [|g groups IH]; intros idx h Ha; [done|].
  cbn [number_groups].
  specialize (IH (idx + 1)%Z (renumber_changes idx 1 (g_changes g) h)).
  destruct (number_groups (idx + 1) groups
              (renumber_changes idx 1 (g_changes g) h)) as [gs h2].
  cbn [snd] in *. unfold all_changes in Ha. cbn [map concat] in Ha.
  rewrite IH.
  - apply renumber_changes_notin. intros Hin. apply Ha, elem_of_app. by left.
  - intros Hin. apply Ha, elem_of_app. by right.
Qed.

Lemma number_groups_numbers (idx : Z) (groups : list FileGroup) (h : store) :
  NoDup (all_changes groups) ->
  forall i g, (number_groups idx groups h).1 !! i = Some g ->
    g_file_num g = Some (idx + Z.of_nat i)%Z
    /\ forall k a, g_changes g !! k = Some a ->
         (number_groups idx groups h).2 !! a
         = set_numbers (idx + Z.of_nat i) (Z.of_nat k + 1) <$> h !! a.
Proof.
  revert idx h. induction groups as [|g0 groups IH]; intros idx h Hnd i g Hi;
    [done|].
  unfold all_changes in Hnd. cbn [map concat] in Hnd.
  apply NoDup_app in Hnd as (Hnd0 & Hdisj & Hnd').
  cbn [number_groups] in Hi |- *.
  pose proof (number_groups_notin (idx + 1) groups
                (renumber_changes idx 1 (g_changes g0) h)) as Hout.
  specialize (IH (idx + 1)%Z (renumber_changes idx 1 (g_changes g0) h) Hnd').
  pose proof (number_groups_spec (idx + 1) groups
                (renumber_changes idx 1 (g_changes g0) h)) as [Hsg _].
  apply same_group_all_changes in Hsg.
  destruct (number_groups (idx + 1) groups
              (renumber_changes idx 1 (g_changes g0) h)) as [gs h2].
  cbn [fst snd] in *. destruct i as [|i].
  - injection Hi as <-. cbn [g_file_num g_changes].
    split; [f_equal; lia|]. intros k a Hk.
    rewrite Hout by (apply Hdisj; by eapply list_elem_of_lookup_2).
    rewrite (renumber_changes_at idx 1 _ h k a Hnd0 Hk).
    rewrite Z.add_0_r. do 2 f_equal. lia.
  - cbn in Hi. destruct (IH i g Hi) as [Hn Hc].
    split; [rewrite Hn; f_equal; lia|]. intros k a Hk.
    rewrite (Hc k a Hk). rewrite renumber_changes_notin.
    + do 2 f_equal. lia.
    + intros Hin. apply (Hdisj a Hin). fold (all_changes groups).
      rewrite <- Hsg. unfold all_changes.
      apply list_elem_of_In, in_concat. exists (g_changes g).
      split; [|apply list_elem_of_In; by eapply list_elem_of_lookup_2].
      apply in_map, list_elem_of_In. by eapply list_elem_of_lookup_2.
Qed.

Lemma number_combined_changes (idx : Z) (cgroups : list combined_acc)
    (h : store) :
  map g_changes (number_combined idx cgroups h).1 = map ca_changes cgroups.
Proof.
  pose proof (number_combined_groups idx cgroups h) as H.
  induction H as [|g c gs cs (E & _) _ IH]; [done|].
  cbn [map]. by rewrite E, IH.
Qed.

Lemma number_combined_notin (idx : Z) (cgroups : list combined_acc) (h : store)
    (a : nat) :
  (a ∉ concat (map ca_changes cgroups)) ->
  (number_combined idx cgroups h).2 !! a = h !! a.
Proof.
  revert idx h. induction cgroups as [|c cgroups IH]; intros idx h Ha; [done|].
  cbn [number_combined].
  specialize (IH (idx + 1)%Z (renumber_changes idx 1 (ca_changes c) h)).
  destruct (number_combined (idx + 1) cgroups
              (renumber_changes idx 1 (ca_changes c) h)) as [gs h2].
  cbn [snd] in *. cbn [map concat] in Ha.
  rewrite IH.
  - apply renumber_changes_notin. intros Hin. apply Ha, elem_of_app. by left.
  - intros Hin. apply Ha, elem_of_app. by right.
Qed.

Lemma number_combined_numbers (idx : Z) (cgroups : list combined_acc)
    (h : store) :
  NoDup (concat (map ca_changes cgroups)) ->
  forall i g, (number_combined idx cgroups h).1 !! i = Some g ->
    g_file_num g = Some (idx + Z.of_nat i)%Z
    /\ forall k a, g_changes g !! k = Some a ->
         (number_combined idx cgroups h).2 !! a
         = set_numbers (idx + Z.of_nat i) (Z.of_nat k + 1) <$> h !! a.
Proof.
  revert idx h. induction cgroups as [|c0 cgroups IH]; intros idx h Hnd i g Hi;
    [done|].
  cbn [map concat] in Hnd.
  apply NoDup_app in Hnd as (Hnd0 & Hdisj & Hnd').
  cbn [number_combined] in Hi |- *.
  pose proof (number_combined_notin (idx + 1) cgroups
                (renumber_changes idx 1 (ca_changes c0) h)) as Hout.
  specialize (IH (idx + 1)%Z (renumber_changes idx 1 (ca_changes c0) h) Hnd').
  pose proof (number_combined_changes (idx + 1) cgroups
                (renumber_changes idx 1 (ca_changes c0) h)) as Hsg.
  destruct (number_combined (idx + 1) cgroups
              (renumber_changes idx 1 (ca_changes c0) h)) as [gs h2].
  cbn [fst snd] in *. destruct i as [|i].
  - injection Hi as <-. cbn [g_file_num g_changes].
    split; [f_equal; lia|]. intros k a Hk.
    rewrite Hout by (apply Hdisj; by eapply list_elem_of_lookup_2).
    rewrite (renumber_changes_at idx 1 _ h k a Hnd0 Hk).
    rewrite Z.add_0_r. do 2 f_equal. lia.
  - cbn in Hi. destruct (IH i g Hi) as [Hn Hc].
    split; [rewrite Hn; f_equal; lia|]. intros k a Hk.
    rewrite (Hc k a Hk). rewrite renumber_changes_notin.
    + do 2 f_equal. lia.
    + intros Hin. apply (Hdisj a Hin). rewrite <- Hsg.
      apply list_elem_of_In, in_concat. exists (g_changes g).
      split; [|apply list_elem_of_In; by eapply list_elem_of_lookup_2].
      apply in_map, list_elem_of_In. by eapply list_elem_of_lookup_2.
Qed.

Lemma coalesce_groups_numbered (file_groups : list StageGroup) (h : store) :
  1 < length file_groups -> NoDup (stage_changes file_groups) ->
  numbered h (coalesce_groups file_groups h).2
    (coalesce_groups file_groups h).1.
Proof.
  intros Hlen Hnd.
  unfold coalesce_groups. apply Nat.ltb_lt in Hlen. rewrite Hlen.
  destruct (coalesce_loop_spec None file_groups) as (Hc & _ & _); [done|].
  cbn [from_option app] in Hc.
  intros i g Hi.
  rewrite (Z.add_comm (Z.of_nat i) 1).
  apply (number_combined_numbers 1 (coalesce_loop None file_groups) h);
    [by rewrite Hc|done].
Qed.

Lemma similarity_numbered (file_groups : list FileGroup) (h : store)
    (out : list FileGroup) (h' : store) :
  1 < length file_groups -> NoDup (all_changes file_groups) ->
  Forall has_files file_groups ->
  combine_groups_by_similarity file_groups h = Ok (out, h') ->
  numbered h h' out.
Proof.
  intros Hlen Hnd Hf Hr.
  destruct (combine_groups_by_similarity_spec file_groups h Hf)
    as (out0 & h0 & Hr0 & Hp & _).
  rewrite Hr in Hr0. injection Hr0 as <- <-.
  unfold combine_groups_by_similarity in Hr.
  destruct (length file_groups <=? 1) eqn:E; [apply Nat.leb_le in E; lia|].
  destruct (similarity_loop _ _ _) as [[wg wf]|e]; [|done].
  cbn [mbind exc_bind mret exc_ret] in Hr.
  set (live_groups := omap id wg) in *.
  injection Hr as Hr.
  pose proof (number_groups_spec 1 live_groups h) as [Hsg _].
  apply same_group_all_changes in Hsg.
  pose proof (number_groups_numbers 1 live_groups h) as Hn.
  rewrite Hr in Hsg, Hn. cbn [fst snd] in Hsg, Hn.
  assert (Hnd' : NoDup (all_changes live_groups)).
  { rewrite <- Hsg. by rewrite Hp. }
  intros i g Hi. rewrite (Z.add_comm (Z.of_nat i) 1).
  by apply Hn.
Qed.

(** X8: a pass that renumbers, on groups that share no change, numbers the
    groups from 1 in their order and the changes of each group from 1 in
    their order: the change of index [k] in the group of index [i] becomes
    FILE-(i+1)-CHANGE-(k+1) and is otherwise the object it was.  This holds
    for the coalescing pass and for the similarity pass, when they get more
    than one group. *)
Theorem X8_passes_number_the_changes :
  (forall (file_groups : list StageGroup) (h : store),
     1 < length file_groups -> NoDup (stage_changes file_groups) ->
     numbered h (coalesce_groups file_groups h).2
       (coalesce_groups file_groups h).1)
  /\ (forall (file_groups : list FileGroup) (h : store) out h',
        1 < length file_groups -> NoDup (all_changes file_groups) ->
        Forall has_files file_groups ->
        combine_groups_by_similarity file_groups h = Ok (out, h') ->
        numbered h h' out).
Proof.
  split.
  - apply coalesce_groups_numbered.
  - apply similarity_numbered.
Qed.

Lemma X8_passes_number_the_changes_witness :
  numbered same_symbol_store
    (coalesce_groups small_stage_groups same_symbol_store).2
    (coalesce_groups small_stage_groups same_symbol_store).1
  /\ exists out h',
       combine_groups_by_similarity same_symbol_groups same_symbol_store
       = Ok (out, h')
       /\ numbered same_symbol_store h' out.
Proof.
  destruct X8_passes_number_the_changes as [H1 H2]. split.
  - apply H1.
    + vm_compute. lia.
    + apply (bool_decide_unpack _). vm_compute. reflexivity.
  - destruct (combine_groups_by_similarity same_symbol_groups same_symbol_store)
      as [[out h']|e] eqn:E; [|vm_compute in E; discriminate].
    exists out, h'. split; [reflexivity|].
    apply (H2 same_symbol_groups same_symbol_store out h').
    + vm_compute. lia.
    + apply (bool_decide_unpack _). vm_compute. reflexivity.
    + repeat constructor; vm_compute; discriminate.
    + exact E.
Defined.

(** ** The segments of a hunk *)






(** ** The spans of the new functions of a hunk *)






(** ** Merging the facts of the hunks of a change *)






(** ** The hunks of any text *)









(** ** Filing the segments *)










(** ** From the text of the diff to the FILE-N groups *)







Section changes_of_diff_facts.
Variable use_semcode : bool.
Variable read_lines : option string -> string -> option (list string).
Variable git_dir : option string.



End changes_of_diff_facts.



(** ** A number past the digit limit *)



(** ** The definition of a change *)


(** ** The hunks of a diff, read back *)








